(** * Avail settlement consensus: mechanism types and the sequencer worker

    A shallow embedding of [consensus/avail/mechanism.go] (the mechanism
    type table, [ParseType] and [ParseMechanismConfigTypes]) and of the
    sequencer worker ([NewSequencer], [SequencerWorker.Run], [writeBlock],
    [writeTransactions]).

    The worker talks to collaborators that live outside the two source
    files (chain storage, executor, transaction pool, DA sender, staking
    registry, fraud resolver, clock).  They are kept abstract: a type class
    gives each call its signature over an opaque environment, every call is
    recorded in a trace, and the theorems hold for every implementation. *)

From Stdlib Require Import ZArith List Bool String Ascii Lia Sorted.
From stdpp Require Import base option list gmap strings.

Local Open Scope Z_scope.

(** ** Machine integers *)

Definition wrap_uint64 (z : Z) : Z := z mod 2 ^ 64.

(** Two's complement reading of the low 64 bits. *)
Definition wrap_int64 (z : Z) : Z := (z + 2 ^ 63) mod 2 ^ 64 - 2 ^ 63.

Definition is_uint32 (z : Z) : Prop := 0 <= z < 2 ^ 32.

(** ** Errors

    Go's [error] interface values, as far as the worker tells them apart:
    the sentinel [block.ErrNoExtrinsicFound] (compared with [!=]), the two
    executor error types the selector type-switches on, and any other
    error, carrying its message. *)

Inductive error : Type :=
| ErrNoExtrinsicFound
| GasLimitReachedTransitionApplicationError (msg : string)
| TransitionApplicationError (IsRecoverable : bool) (msg : string)
| errorString (msg : string).

#[global] Instance error_eq_dec : EqDecision error.
Proof. solve_decision. Defined.

(** ** Mechanism types *)

Module Mechanism.

Definition MechanismType := string.

Definition BootstrapSequencer : MechanismType := "bootstrap-sequencer".
Definition Sequencer : MechanismType := "sequencer".
Definition Validator : MechanismType := "validator".
Definition WatchTower : MechanismType := "watchtower".

(** The map used for string -> mechanism lookups. *)
Definition mechanismTypes : gmap string MechanismType :=
  <["bootstrap-sequencer" := BootstrapSequencer]>
  (<["sequencer" := Sequencer]>
  (<["validator" := Validator]>
  (<["watchtower" := WatchTower]> ∅))).

Definition String (t : MechanismType) : string := t.



(** The loop ranges over the values of the map; the order Go picks does
    not matter for the boolean it returns. *)
Definition MechanismExists (mechanism : MechanismType) : bool :=
  existsb (fun kv => bool_decide (mechanism = kv.2))
          (map_to_list mechanismTypes).

(** A missing key yields the zero value of [MechanismType], the empty
    string, together with [ok = false]. *)
Definition ParseType (mechanism : string) : MechanismType * option error :=
  match mechanismTypes !! mechanism with
  | None =>
      (EmptyString,
       Some (errorString ("invalid avail mechanism type " ++ mechanism)))
  | Some castType => (castType, None)
  end.

Definition valid_names : list string :=
  ["bootstrap-sequencer"; "sequencer"; "validator"; "watchtower"].

End Mechanism.

(** ** Go's [time] package, as far as the block producer uses it

    A [Time] is a wall-clock instant: whole seconds since the Unix epoch
    and nanoseconds within the second.  Go stores the seconds in an int64
    counted from year 1; the arithmetic below is exact while the seconds
    stay below [2 ^ 62] in absolute value, which the theorems assume of
    their inputs.  The monotonic reading Go attaches to [time.Now()] plays
    no role: [headerTime] comes from [time.Unix] and [Add], carries none,
    and [Before] then compares wall clocks. *)

Module time.

(** int64 nanoseconds *)
Definition Duration := Z.

Definition Nanosecond : Duration := 1.
Definition Millisecond : Duration := 1000000.
Definition Second : Duration := 1000000000.

Record Time := mkTime { sec : Z; nsec : Z }.

(** [time.Unix(sec, nsec)], including the normalisation of [nsec]. *)
Definition Unix (s ns : Z) : Time :=
  if (ns <? 0) || (1000000000 <=? ns) then
    let n := Z.quot ns 1000000000 in
    let s := s + n in
    let ns := ns - n * 1000000000 in
    if ns <? 0 then mkTime (s - 1) (ns + 1000000000) else mkTime s ns
  else mkTime s ns.

(** [t.Add(d)]; Go's [/] and [%] truncate towards zero. *)
Definition Add (t : Time) (d : Duration) : Time :=
  let dsec := Z.quot d 1000000000 in
  let ns := nsec t + Z.rem d 1000000000 in
  if 1000000000 <=? ns then mkTime (sec t + (dsec + 1)) (ns - 1000000000)
  else if ns <? 0 then mkTime (sec t + (dsec - 1)) (ns + 1000000000)
  else mkTime (sec t + dsec) ns.

(** [t.Before(u)] *)
Definition Before (t u : Time) : bool :=
  (sec t <? sec u) || ((sec t =? sec u) && (nsec t <? nsec u)).

(** [t.Unix()]: seconds since the epoch, the nanoseconds dropped. *)
Definition Time_Unix (t : Time) : Z := sec t.

(** Order of instants, for statements about clocks. *)
Definition le (t u : Time) : Prop :=
  sec t < sec u \/ (sec t = sec u /\ nsec t <= nsec u).

Definition wf (t : Time) : Prop :=
  0 <= sec t < 2 ^ 62 /\ 0 <= nsec t < 1000000000.

End time.

(** ** Chain data (polygon-edge [types], go-substrate [SignedBlock]) *)

Module types.

Definition Hash := list Byte.byte.
Definition Address := list Byte.byte.

Definition ZeroHash : Hash := repeat Byte.x00 32.

(** [a.Bytes()] is the slice of the 20 bytes of the array. *)
Definition Bytes (a : Address) : list Byte.byte := a.

(** [types.StringToAddress(a.Hex())]: hex encoding followed by decoding
    gives the same 20 bytes. *)
Definition StringToAddress_Hex (a : Address) : Address := a.

Record Header := mkHeader {
  ParentHash : Hash;
  Number : Z;                   (* uint64 *)
  Miner : list Byte.byte;
  Nonce : Z;
  GasLimit : Z;                 (* uint64 *)
  GasUsed : Z;                  (* uint64 *)
  Timestamp : Z;                (* uint64 *)
  StateRoot : Hash;
  ExtraData : list Byte.byte;
  HeaderHash : Hash             (* the field [Hash] *)
}.

Definition set_GasLimit (g : Z) (h : Header) : Header :=
  mkHeader (ParentHash h) (Number h) (Miner h) (Nonce h) g (GasUsed h)
           (Timestamp h) (StateRoot h) (ExtraData h) (HeaderHash h).
Definition set_Timestamp (ts : Z) (h : Header) : Header :=
  mkHeader (ParentHash h) (Number h) (Miner h) (Nonce h) (GasLimit h)
           (GasUsed h) ts (StateRoot h) (ExtraData h) (HeaderHash h).
Definition set_StateRoot (r : Hash) (h : Header) : Header :=
  mkHeader (ParentHash h) (Number h) (Miner h) (Nonce h) (GasLimit h)
           (GasUsed h) (Timestamp h) r (ExtraData h) (HeaderHash h).
Definition set_GasUsed (g : Z) (h : Header) : Header :=
  mkHeader (ParentHash h) (Number h) (Miner h) (Nonce h) (GasLimit h)
           g (Timestamp h) (StateRoot h) (ExtraData h) (HeaderHash h).

Record Transaction := mkTransaction {
  TxHash : Hash;                (* the field [Hash] *)
  TxNonce : Z;
  Gas : Z;                      (* uint64: the gas the transaction may use *)
  From : Address
}.

(** Modelled from the spec: [types.Transaction] and its method
    [ExceedsBlockGasLimit] belong to polygon-edge and are not in the source
    files.  A transaction alone exceeds the limit it is compared with when
    its gas is greater (polygon-edge: [return t.Gas > blockGasLimit]).
    Which limit the selector passes is in the source: the block gas
    limit. *)
Definition ExceedsBlockGasLimit (tx : Transaction) (blockGasLimit : Z) : bool :=
  blockGasLimit <? Gas tx.

Record Receipt := mkReceipt {
  ReceiptTxHash : Hash;
  ReceiptGasUsed : Z;
  ReceiptStatus : bool
}.

Record Block := mkBlock {
  BlockHeader : Header;         (* the field [Header] *)
  Transactions : list Transaction
}.

(** An Avail block as the stream delivers it; [BlockNumber] is
    [blk.Block.Header.Number], a uint32. *)
Record SignedBlock := mkSignedBlock {
  BlockNumber : Z;
  Extrinsics : list (list Byte.byte)
}.

Record CallIndex := mkCallIndex { SectionIndex : Z; MethodIndex : Z }.

Definition PrivateKey := list Byte.byte.

Record Account := mkAccount { AccountAddress : Address }.
Record Key := mkKey { KeyPrivateKey : PrivateKey }.

#[global] Instance byte_eq_dec : EqDecision Byte.byte := Byte.byte_eq_dec.
#[global] Instance Header_eq_dec : EqDecision Header.
Proof. solve_decision. Defined.
#[global] Instance Transaction_eq_dec : EqDecision Transaction.
Proof. solve_decision. Defined.
#[global] Instance Block_eq_dec : EqDecision Block.
Proof. solve_decision. Defined.

(** [bytes.Equal] *)
Definition bytes_Equal (a b : list Byte.byte) : bool := bool_decide (a = b).

End types.

Import types.

(** ** External calls and their trace *)

(** A call that may block forever (the DA inclusion wait). *)
Inductive Wait (A : Type) : Type :=
| Returns (a : A)
| NeverReturns.
Arguments Returns {A} a.
Arguments NeverReturns {A}.

(** The extrinsic status the sender is asked to wait for. *)
Record ExtrinsicStatus := mkExtrinsicStatus {
  IsReady : bool;
  IsInBlock : bool;
  IsFinalized : bool
}.

Inductive Level : Type := LvlDebug | LvlInfo | LvlWarn | LvlError.

(** One constructor per call the worker makes on a collaborator; a call
    that returns something records what it returned. *)
Inductive Event : Type :=
| EvLog (lvl : Level) (msg : string)
| EvNow (now : time.Time)
| EvStore (v : Z)
| EvGetBalance (res : Z * option error)
| EvFindCallIndex (res : CallIndex * option error)
| EvWaitForStakedSequencer (a : Address)
| EvNewBlockStream
| EvStreamClose
| EvFromAvail (blk : SignedBlock) (res : list Block * option error)
| EvWriteBlock (b : Block) (source : string) (res : option error)
| EvCheckAndSetFraudBlock (bs : list Block)
| EvCheckAndSlash (res : bool * option error)
| EvContains (a : Address) (res : bool * option error)
| EvGet (res : list Address * option error)
| EvHeader (h : Header)
| EvCalculateGasLimit (number : Z) (res : Z * option error)
| EvAssignExtraValidators (h : Header) (vs : list Address)
    (res : Header * option error)
| EvBeginTxn (root : Hash) (h : Header) (coinbase : Address)
    (res : option error)
| EvPrepare
| EvPeek (res : option Transaction)
| EvPop (tx : Transaction)
| EvDrop (tx : Transaction)
| EvDemote (tx : Transaction)
| EvWrite (tx : Transaction) (res : option error)
| EvCommit (root : Hash)
| EvBuildBlock (b : Block)
| EvWriteSeal (h : Header) (res : Header * option error)
| EvSendAndWaitForStatus (b : Block) (status : ExtrinsicStatus)
    (res : Wait (option error))
| EvResetWithHeaders (h : Header)
| EvUnStake (res : option error).

(** ** The collaborators

    Everything the worker calls outside the two source files, over an
    opaque environment [Env] that holds the state of all of them (chain,
    pool, executor, registry, DA chain, clock): a call may read and change
    any of it.  The staking querier is built over the closure [t.Load], so
    its calls receive the current value of [t].  The functions of
    [pkg/block] may read the environment and leave it as it is. *)

Class Collaborators (Env : Type) : Type := {
  (* time *)
  time_Now : Env -> time.Time * Env;
  (* pkg/avail *)
  avail_GetBalance : Env -> (Z * option error) * Env;
  avail_FindCallIndex : Env -> (CallIndex * option error) * Env;
  availSender_SendAndWaitForStatus :
    Block -> ExtrinsicStatus -> Env -> Wait (option error) * Env;
  (* pkg/block *)
  block_FromAvail :
    SignedBlock -> Z -> CallIndex -> Env -> list Block * option error;
  block_AssignExtraValidators :
    Header -> list Address -> Env -> Header * option error;
  block_WriteSeal : PrivateKey -> Header -> Env -> Header * option error;
  (* polygon-edge: consensus, types, blockchain, state, txpool *)
  consensus_BuildBlock : Header -> list Transaction -> list Receipt -> Block;
  Header_ComputeHash : Header -> Header;
  blockchain_Header : Env -> Header;
  blockchain_WriteBlock : Block -> string -> Env -> option error * Env;
  blockchain_CalculateGasLimit : Z -> Env -> (Z * option error) * Env;
  Transition : Type;
  executor_BeginTxn :
    Hash -> Header -> Address -> Env -> (Transition * option error) * Env;
  transition_Write : Transition -> Transaction -> Env -> option error * Env;
  transition_Commit : Transition -> Env -> Hash * Env;
  transition_TotalGas : Transition -> Env -> Z;
  transition_Receipts : Transition -> Env -> list Receipt;
  txpool_Prepare : Env -> Env;
  txpool_Peek : Env -> option Transaction * Env;
  txpool_Pop : Transaction -> Env -> Env;
  txpool_Drop : Transaction -> Env -> Env;
  txpool_Demote : Transaction -> Env -> Env;
  txpool_ResetWithHeaders : Header -> Env -> Env;
  (* pkg/staking *)
  querier_Contains : Z -> Address -> Env -> (bool * option error) * Env;
  querier_Get : Z -> Env -> (list Address * option error) * Env;
  stakingNode_UnStake : PrivateKey -> Env -> option error * Env;
  (* the fraud resolver and the startup barrier of this package *)
  fraudResolver_CheckAndSetFraudBlock : list Block -> Env -> Env;
  fraudResolver_CheckAndSlash : Env -> (bool * option error) * Env;
  waitForStakedSequencer : Address -> Env -> Env
}.

(** [type transitionInterface interface { Write(txn) error }] *)
Class transitionInterface (Env T : Type) : Type := {
  Write : T -> Transaction -> Env -> option error * Env
}.

#[global] Instance Transition_transitionInterface
  {Env : Type} {C : Collaborators Env} : transitionInterface Env Transition :=
  {| Write := transition_Write |}.

(** ** The worker's monad: state, trace, and the ways a run can end *)

Record State (Env : Type) : Type := mkState {
  env : Env;
  t_value : Z        (* the atomic.Int64 [t] of [Run] *)
}.
Arguments mkState {Env} env t_value.
Arguments env {Env} s.
Arguments t_value {Env} s.

Inductive Outcome (A : Type) : Type :=
| Done (a : A)            (* ran to its end with a value *)
| Panic (msg : string)    (* Go panic *)
| Hang                    (* a collaborator never returned *)
| OutOfFuel.              (* the fuel of this model ran out *)
Arguments Done {A} a.
Arguments Panic {A} msg.
Arguments Hang {A}.
Arguments OutOfFuel {A}.

Definition M (Env A : Type) : Type :=
  State Env -> Outcome A * State Env * list Event.

Definition outcome {Env A} (r : Outcome A * State Env * list Event) : Outcome A :=
  r.1.1.
Definition final {Env A} (r : Outcome A * State Env * list Event) : State Env :=
  r.1.2.
Definition trace {Env A} (r : Outcome A * State Env * list Event) : list Event :=
  r.2.

#[global] Instance M_ret {Env} : MRet (M Env) := fun A a s => (Done a, s, []).

#[global] Instance M_bind {Env} : MBind (M Env) := fun A B f m s =>
  match m s with
  | (Done a, s1, tr1) =>
      match f a s1 with (o, s2, tr2) => (o, s2, tr1 ++ tr2) end
  | (Panic msg, s1, tr1) => (Panic msg, s1, tr1)
  | (Hang, s1, tr1) => (Hang, s1, tr1)
  | (OutOfFuel, s1, tr1) => (OutOfFuel, s1, tr1)
  end.

Section Primitives.
Context {Env : Type}.

Definition call {R} (op : Env -> R * Env) (ev : R -> Event) : M Env R :=
  fun s => let '(r, e) := op (env s) in (Done r, mkState e (t_value s), [ev r]).

Definition exec (op : Env -> Env) (ev : Event) : M Env unit :=
  fun s => (Done tt, mkState (op (env s)) (t_value s), [ev]).

Definition read {R} (f : Env -> R) : M Env R :=
  fun s => (Done (f (env s)), s, []).

(** A call that leaves the environment as it is. *)
Definition query {R} (f : Env -> R) (ev : R -> Event) : M Env R :=
  fun s => (Done (f (env s)), s, [ev (f (env s))]).

Definition emit (ev : Event) : M Env unit := fun s => (Done tt, s, [ev]).

Definition panic {A} (msg : string) : M Env A := fun s => (Panic msg, s, []).
Definition hang {A} : M Env A := fun s => (Hang, s, []).
Definition out_of_fuel {A} : M Env A := fun s => (OutOfFuel, s, []).

(** [t.Load()] and [t.Store(v)] *)
Definition t_Load : M Env Z := fun s => (Done (t_value s), s, []).
Definition t_Store (v : Z) : M Env unit :=
  fun s => (Done tt, mkState (env s) v, [EvStore v]).

End Primitives.

(** ** The sequencer worker *)

Import Mechanism.

(** The fields of [SequencerWorker] that are plain data; the collaborator
    fields (logger, blockchain, executor, txpool, ...) are the environment. *)
Record SequencerWorker : Type := mkSequencerWorker {
  availAppID : Z;
  nodeSignKey : PrivateKey;
  nodeAddr : Address;
  nodeType : MechanismType;
  blockTime : time.Duration
}.

(** What the [select] of [Run] receives next. *)
Inductive Select : Type :=
| RecvBlock (blk : SignedBlock)     (* <-availBlockStream.Chan() *)
| RecvClose.                        (* <-sw.closeCh *)

(** [err.Error()] *)
Definition error_Error (e : error) : string :=
  match e with
  | ErrNoExtrinsicFound => "no compatible extrinsic found"
  | GasLimitReachedTransitionApplicationError msg => msg
  | TransitionApplicationError _ msg => msg
  | errorString msg => msg
  end.

Section Worker.
Context {Env : Type} {C : Collaborators Env}.

(** *** writeTransactions

    The [for] loop has no bound of its own: it ends when the pool has
    nothing left to peek or the executor reports a full block.  [fuel]
    bounds the number of iterations of the model. *)

Section Selector.
Context {T : Type} {TI : transitionInterface Env T}.

Fixpoint writeTransactions_loop (fuel : nat) (gasLimit : Z) (transition : T)
    (successful : list Transaction) : M Env (list Transaction) :=
  match fuel with
  | O => out_of_fuel
  | S fuel =>
      tx ← call txpool_Peek EvPeek;
      match tx with
      | None => mret successful                                  (* break *)
      | Some tx =>
          emit (EvLog LvlDebug "found transaction from txpool");;
          if ExceedsBlockGasLimit tx gasLimit then
            exec (txpool_Drop tx) (EvDrop tx);;
            writeTransactions_loop fuel gasLimit transition successful
          else
            err ← call (Write transition tx) (EvWrite tx);
            match err with
            | Some (GasLimitReachedTransitionApplicationError _) =>
                emit (EvLog LvlWarn
                        "transaction reached gas limit during excution");;
                mret successful                                  (* break *)
            | Some (TransitionApplicationError true _) =>
                emit (EvLog LvlWarn "transaction caused application error");;
                exec (txpool_Demote tx) (EvDemote tx);;
                writeTransactions_loop fuel gasLimit transition successful
            | Some _ =>
                emit (EvLog LvlError "transaction caused unknown error");;
                exec (txpool_Drop tx) (EvDrop tx);;
                writeTransactions_loop fuel gasLimit transition successful
            | None =>
                (* no errors, pop the tx from the pool *)
                exec (txpool_Pop tx) (EvPop tx);;
                writeTransactions_loop fuel gasLimit transition
                                       (successful ++ [tx])
            end
      end
  end.

Definition writeTransactions (fuel : nat) (gasLimit : Z) (transition : T)
  : M Env (list Transaction) :=
  exec txpool_Prepare EvPrepare;;
  writeTransactions_loop fuel gasLimit transition [].

End Selector.

(** *** writeBlock *)

Definition InBlock : ExtrinsicStatus := mkExtrinsicStatus false true false.

Definition writeBlock (fuel : nat) (sw : SequencerWorker)
    (myAccount : Account) (signKey : Key) (parent : Header)
  : M Env (option error) :=
  now0 ← call time_Now EvNow;
  let header :=
    mkHeader (HeaderHash parent) (wrap_uint64 (Number parent + 1))
             (Bytes (AccountAddress myAccount)) 0
             (GasLimit parent) (* inherited, adjusted just below *)
             0 (wrap_uint64 (time.Time_Unix now0)) ZeroHash [] ZeroHash in
  (* calculate gas limit based on parent header *)
  '(gasLimit, err) ← call (blockchain_CalculateGasLimit (Number header))
                          (EvCalculateGasLimit (Number header));
  match err with
  | Some e => mret (Some e)
  | None =>
  let header := set_GasLimit gasLimit header in
  (* set the timestamp *)
  let parentTime := time.Unix (wrap_int64 (Timestamp parent)) 0 in
  let headerTime := time.Add parentTime (blockTime sw) in
  now1 ← call time_Now EvNow;
  headerTime ← (if time.Before headerTime now1
                 then call time_Now EvNow
                 else mret headerTime);
  let header :=
    set_Timestamp (wrap_uint64 (time.Time_Unix headerTime)) header in
  (* the extra field carries the current set of validators *)
  let validators := [StringToAddress_Hex (AccountAddress myAccount)] in
  '(extended, err) ← query (block_AssignExtraValidators header validators)
                           (EvAssignExtraValidators header validators);
  match err with
  | Some e => mret (Some e)
  | None =>
  let header := extended in
  let coinbase := StringToAddress_Hex (AccountAddress myAccount) in
  '(transition, err) ←
    call (executor_BeginTxn (StateRoot parent) header coinbase)
         (fun r => EvBeginTxn (StateRoot parent) header coinbase r.2);
  match err with
  | Some e => mret (Some e)
  | None =>
  txns ← writeTransactions fuel gasLimit transition;
  (* Commit the changes *)
  root ← call (transition_Commit transition) EvCommit;
  (* Update the header *)
  let header := set_StateRoot root header in
  gasUsed ← read (transition_TotalGas transition);
  let header := set_GasUsed gasUsed header in
  (* Build the actual block *)
  receipts ← read (transition_Receipts transition);
  let blk := consensus_BuildBlock header txns receipts in
  emit (EvBuildBlock blk);;
  (* write the seal of the block after all the fields are completed *)
  '(header, err) ← query (block_WriteSeal (KeyPrivateKey signKey)
                                          (BlockHeader blk))
                         (EvWriteSeal (BlockHeader blk));
  match err with
  | Some e => mret (Some e)
  | None =>
  (* blk.Header = header; blk.Header.ComputeHash() *)
  let blk := mkBlock (Header_ComputeHash header) (Transactions blk) in
  emit (EvLog LvlInfo "sending block to avail");;
  sent ← call (availSender_SendAndWaitForStatus blk InBlock)
              (EvSendAndWaitForStatus blk InBlock);
  match sent with
  | NeverReturns => hang
  | Returns (Some e) =>
      emit (EvLog LvlError "Error while submitting data to avail");;
      mret (Some e)
  | Returns None =>
  emit (EvLog LvlInfo "sent block to avail");;
  emit (EvLog LvlInfo "writing block to blockchain");;
  (* Write the block to the blockchain *)
  err ← call (blockchain_WriteBlock blk (String (nodeType sw)))
             (EvWriteBlock blk (String (nodeType sw)));
  match err with
  | Some e => mret (Some e)
  | None =>
  emit (EvLog LvlInfo "Successfully wrote block to blockchain");;
  (* after the block has been written we reset the txpool *)
  exec (txpool_ResetWithHeaders (BlockHeader blk))
       (EvResetWithHeaders (BlockHeader blk));;
  mret None
  end end end end end end.

(** *** Run: one iteration of the stream branch

    The body of [case blk := <-availBlockStream.Chan()] is cut in three:
    [tick] up to the extraction check, [settle] from the loop over the
    extracted blocks to [CheckAndSlash], [elect] from the staking check
    to the end.  A [continue] is the end of the body. *)

Definition elect (fuel : nat) (sw : SequencerWorker) (account : Account)
    (key : Key) : M Env unit :=
  now ← t_Load;
  '(sequencerStaked, sequencerError) ←
    call (querier_Contains now (nodeAddr sw)) (EvContains (nodeAddr sw));
  match sequencerError with
  | Some _ =>
      emit (EvLog LvlError
        "failed to check if my account is among active staked sequencers; cannot continue")
  | None =>
  if negb sequencerStaked then
    emit (EvLog LvlError
      "my account is not among active staked sequencers; cannot continue")
  else
  now ← t_Load;
  '(sequencers, err) ← call (querier_Get now) EvGet;
  match err with
  | Some _ =>
      emit (EvLog LvlError "querying staked sequencers failed; quitting")
  | None =>
  match sequencers with
  | [] =>
      (* This is something that should never happen. *)
      panic "no staked sequencers"
  | first :: _ =>
      (* Is it my turn to generate next block? *)
      if bytes_Equal (Bytes first) (Bytes (nodeAddr sw)) then
        header ← query blockchain_Header EvHeader;
        emit (EvLog LvlInfo "it's my turn; producing a block");;
        err ← writeBlock fuel sw account key header;
        match err with
        | Some _ => emit (EvLog LvlError "failed to mine block")
        | None => mret tt
        end
      else
        emit (EvLog LvlInfo "it's not my turn; skippin' a round")
  end end end.

(** [for _, blockk := range edgeBlks { sw.blockchain.WriteBlock(...) }];
    the error [WriteBlock] returns is not looked at. *)
Fixpoint write_extracted (sw : SequencerWorker) (edgeBlks : list Block)
  : M Env unit :=
  match edgeBlks with
  | [] => mret tt
  | blockk :: rest =>
      _ ← call (blockchain_WriteBlock blockk (String (nodeType sw)))
               (EvWriteBlock blockk (String (nodeType sw)));
      write_extracted sw rest
  end.

Definition settle (fuel : nat) (sw : SequencerWorker) (account : Account)
    (key : Key) (edgeBlks : list Block) : M Env unit :=
  write_extracted sw edgeBlks;;
  (* set the fraud block in case one was discovered *)
  exec (fraudResolver_CheckAndSetFraudBlock edgeBlks)
       (EvCheckAndSetFraudBlock edgeBlks);;
  (* check for fraudulent behaviour and slash accordingly *)
  '(_, err) ← call fraudResolver_CheckAndSlash EvCheckAndSlash;
  match err with
  | Some _ => mret tt                                          (* continue *)
  | None => elect fuel sw account key
  end.

Definition tick (fuel : nat) (sw : SequencerWorker) (account : Account)
    (key : Key) (callIdx : CallIndex) (blk : SignedBlock) : M Env unit :=
  t_Store (wrap_int64 (BlockNumber blk));;
  '(edgeBlks, err) ← query (block_FromAvail blk (availAppID sw) callIdx)
                           (EvFromAvail blk);
  if (length edgeBlks =? 0)%nat && bool_decide (err ≠ None) then
    emit (EvLog LvlError "cannot extract Edge block from Avail block");;
    (* Continue if the error is anything other than not found. *)
    if bool_decide (err ≠ Some ErrNoExtrinsicFound) then
      mret tt                                                  (* continue *)
    else settle fuel sw account key edgeBlks
  else settle fuel sw account key edgeBlks.

(** *** Run

    [sched] lists what the [select] receives, in order; once it is used
    up the worker is still in its loop, waiting ([Done None]).  A
    [Done (Some r)] is [Run] returning [r]. *)

Fixpoint Run_loop (fuel : nat) (sw : SequencerWorker) (account : Account)
    (key : Key) (callIdx : CallIndex) (sched : list Select)
  : M Env (option (option error)) :=
  match sched with
  | [] => mret None
  | RecvBlock blk :: rest =>
      tick fuel sw account key callIdx blk;;
      Run_loop fuel sw account key callIdx rest
  | RecvClose :: _ =>
      err ← call (stakingNode_UnStake (nodeSignKey sw)) EvUnStake;
      match err with
      | Some e =>
          emit (EvLog LvlError "failed to unstake the node");;
          mret (Some (Some e))
      | None => mret (Some None)
      end
  end.

(** [defer availBlockStream.Close()]: runs when [Run] returns or panics. *)
Definition deferred_Close (m : M Env (option (option error)))
  : M Env (option (option error)) :=
  fun s =>
    match m s with
    | (Done (Some r), s1, tr) => (Done (Some r), s1, tr ++ [EvStreamClose])
    | (Panic msg, s1, tr) => (Panic msg, s1, tr ++ [EvStreamClose])
    | r => r
    end.

Definition Run (fuel : nat) (sw : SequencerWorker) (account : Account)
    (key : Key) (sched : list Select) : M Env (option (option error)) :=
  '(accBalance, err) ← call avail_GetBalance EvGetBalance;
  match err with
  | Some e =>
      mret (Some (Some (errorString
        ("failed to discover account balance: " ++ error_Error e))))
  | None =>
  emit (EvLog LvlInfo "Current avail account");;
  '(callIdx, err) ← call avail_FindCallIndex EvFindCallIndex;
  match err with
  | Some e =>
      mret (Some (Some (errorString
        ("failed to discover avail call index: " ++ error_Error e))))
  | None =>
  (* wait until there is a staking transaction written *)
  exec (waitForStakedSequencer (nodeAddr sw))
       (EvWaitForStakedSequencer (nodeAddr sw));;
  emit EvNewBlockStream;;
  deferred_Close (
    emit (EvLog LvlInfo "Block stream successfully started.");;
    Run_loop fuel sw account key callIdx sched)
  end end.

End Worker.

(** ** A scripted environment

    A small executable implementation of the collaborators, used to run
    the worker on concrete inputs: every query answers from a field of the
    record, the pool is the list of executable transactions in priority
    order, and the executor keeps a gas pool. *)

Module Fake.

Record World : Type := mkWorld {
  clock : list time.Time;              (* the readings [time.Now] will give *)
  extracted : list Block * option error;
  write_result : option error;
  slash_result : bool * option error;
  staked : bool * option error;
  sequencers : list Address * option error;
  gas_limit : Z * option error;
  extra_result : option error;
  begin_result : option error;
  seal_result : option error;
  send_result : Wait (option error);
  unstake_result : option error;
  execution_failure : Transaction -> option error;
  head : Header;
  chain : list Block;                  (* blocks written so far *)
  pool : list Transaction;             (* executables, best first *)
  demoted : list Transaction;          (* set aside until the next Prepare *)
  gas_pool : Z;                        (* gas left in the open transition *)
  gas_used : Z
}.

Definition with_clock (c : list time.Time) (w : World) : World :=
  mkWorld c (extracted w) (write_result w) (slash_result w) (staked w)
    (sequencers w) (gas_limit w) (extra_result w) (begin_result w)
    (seal_result w) (send_result w) (unstake_result w) (execution_failure w)
    (head w) (chain w) (pool w) (demoted w) (gas_pool w) (gas_used w).

Definition with_chain (h : Header) (c : list Block) (w : World) : World :=
  mkWorld (clock w) (extracted w) (write_result w) (slash_result w) (staked w)
    (sequencers w) (gas_limit w) (extra_result w) (begin_result w)
    (seal_result w) (send_result w) (unstake_result w) (execution_failure w)
    h c (pool w) (demoted w) (gas_pool w) (gas_used w).

Definition with_pool (p d : list Transaction) (w : World) : World :=
  mkWorld (clock w) (extracted w) (write_result w) (slash_result w) (staked w)
    (sequencers w) (gas_limit w) (extra_result w) (begin_result w)
    (seal_result w) (send_result w) (unstake_result w) (execution_failure w)
    (head w) (chain w) p d (gas_pool w) (gas_used w).

Definition with_gas (left used : Z) (w : World) : World :=
  mkWorld (clock w) (extracted w) (write_result w) (slash_result w) (staked w)
    (sequencers w) (gas_limit w) (extra_result w) (begin_result w)
    (seal_result w) (send_result w) (unstake_result w) (execution_failure w)
    (head w) (chain w) (pool w) (demoted w) left used.

Definition remove (tx : Transaction) (l : list Transaction) : list Transaction :=
  filter (fun x => x ≠ tx) l.

Definition Now (w : World) : time.Time * World :=
  match clock w with
  | [] => (time.mkTime 0 0, w)
  | now :: later => (now, with_clock later w)
  end.

Definition WriteBlock (b : Block) (source : string) (w : World)
  : option error * World :=
  match write_result w with
  | Some e => (Some e, w)
  | None => (None, with_chain (BlockHeader b) (chain w ++ [b]) w)
  end.

(** The executor refuses a transaction whose gas does not fit in what is
    left of the block, as polygon-edge's gas pool does. *)
Definition Write (_ : unit) (tx : Transaction) (w : World)
  : option error * World :=
  match execution_failure w tx with
  | Some e => (Some e, w)
  | None =>
      if gas_pool w <? Gas tx then
        (Some (GasLimitReachedTransitionApplicationError "gas limit reached"), w)
      else (None, with_gas (gas_pool w - Gas tx) (gas_used w + Gas tx) w)
  end.

#[global] Instance collaborators : Collaborators World := {|
  time_Now := Now;
  avail_GetBalance w := ((1000, None), w);
  avail_FindCallIndex w := ((mkCallIndex 29 1, None), w);
  availSender_SendAndWaitForStatus b status w := (send_result w, w);
  block_FromAvail blk appID callIdx w := extracted w;
  block_AssignExtraValidators h vs w :=
    (mkHeader (ParentHash h) (Number h) (Miner h) (Nonce h) (GasLimit h)
              (GasUsed h) (Timestamp h) (StateRoot h) (concat vs)
              (HeaderHash h),
     extra_result w);
  block_WriteSeal k h w := (h, seal_result w);
  consensus_BuildBlock h txns receipts := mkBlock h txns;
  Header_ComputeHash h := h;
  blockchain_Header := head;
  blockchain_WriteBlock := WriteBlock;
  blockchain_CalculateGasLimit n w := (gas_limit w, w);
  Transition := unit;
  executor_BeginTxn root h coinbase w :=
    ((tt, begin_result w), with_gas (GasLimit h) 0 w);
  transition_Write := Write;
  transition_Commit tr w := (ZeroHash, w);
  transition_TotalGas tr w := gas_used w;
  transition_Receipts tr w := [];
  txpool_Prepare w := with_pool (pool w ++ demoted w) [] w;
  txpool_Peek w := (List.head (pool w), w);
  txpool_Pop tx w := with_pool (remove tx (pool w)) (demoted w) w;
  txpool_Drop tx w := with_pool (remove tx (pool w)) (demoted w) w;
  txpool_Demote tx w := with_pool (remove tx (pool w)) (demoted w ++ [tx]) w;
  txpool_ResetWithHeaders h w := w;
  querier_Contains now a w := (staked w, w);
  querier_Get now w := (sequencers w, w);
  stakingNode_UnStake k w := (unstake_result w, w);
  fraudResolver_CheckAndSetFraudBlock bs w := w;
  fraudResolver_CheckAndSlash w := (slash_result w, w);
  waitForStakedSequencer a w := w
|}.

(** *** Concrete data *)

Definition addr (b : Byte.byte) : Address := repeat b 20.
Definition A : Address := addr Byte.x0a.
Definition B : Address := addr Byte.x0b.

Definition genesis : Header :=
  mkHeader ZeroHash 0 [] 0 100 0 1000 ZeroHash [] ZeroHash.

Definition tx (n gas : Z) : Transaction := mkTransaction ZeroHash n gas A.

(** A world where everything not named succeeds: the clock is a little
    past the genesis timestamp, the pool holds three transactions of gas
    50, 60 and 5, and the executor starts with 100 gas. *)
Definition scripted (extracted : list Block * option error)
    (write_result : option error) (slash_result : bool * option error)
    (staked : bool * option error)
    (sequencers : list Address * option error)
    (gas_limit : Z * option error) (send_result : Wait (option error))
  : World := {|
  clock := [time.mkTime 1000 200000000; time.mkTime 1000 300000000;
            time.mkTime 1000 400000000];
  extracted := extracted;
  write_result := write_result;
  slash_result := slash_result;
  staked := staked;
  sequencers := sequencers;
  gas_limit := gas_limit;
  extra_result := None;
  begin_result := None;
  seal_result := None;
  send_result := send_result;
  unstake_result := None;
  execution_failure := fun _ => None;
  head := genesis;
  chain := [];
  pool := [tx 0 50; tx 1 60; tx 2 5];
  demoted := [];
  gas_pool := 100;
  gas_used := 0
|}.

(** Nothing to extract, nothing to slash, and the node leads the set. *)
Definition calm : World :=
  scripted ([], Some ErrNoExtrinsicFound) None (false, None) (true, None)
           ([A; B], None) (100, None) (Returns None).

(** The gas-limit calculation fails. *)
Definition no_gas_limit : World :=
  scripted ([], Some ErrNoExtrinsicFound) None (false, None) (true, None)
           ([A; B], None) (0, Some (errorString "no gas limit"))
           (Returns None).

(** The staked-status query fails while the active set is empty. *)
Definition registry_down : World :=
  scripted ([], Some ErrNoExtrinsicFound) None (false, None)
           (false, Some (errorString "registry unreachable"))
           ([], None) (100, None) (Returns None).

(** The DA block carries a payload that does not decode. *)
Definition malformed : World :=
  scripted ([], Some (errorString "malformed payload")) None (false, None)
           (true, None) ([A; B], None) (100, None) (Returns None).

(** The node is staked but the active set comes back empty. *)
Definition empty_set : World :=
  scripted ([], Some ErrNoExtrinsicFound) None (false, None) (true, None)
           ([], None) (100, None) (Returns None).

(** The slashing transaction cannot be submitted. *)
Definition slash_down : World :=
  scripted ([], Some ErrNoExtrinsicFound) None
           (false, Some (errorString "slash not submitted")) (true, None)
           ([A; B], None) (100, None) (Returns None).

Definition block1 : Block :=
  mkBlock (mkHeader ZeroHash 1 [] 0 100 0 1001 ZeroHash [] ZeroHash) [].
Definition block2 : Block :=
  mkBlock (mkHeader ZeroHash 2 [] 0 100 0 1002 ZeroHash [] ZeroHash) [].

(** Two blocks are extracted next to a decode error, the chain storage
    refuses every write, and another node leads. *)
Definition partial : World :=
  scripted ([block1; block2], Some (errorString "malformed payload"))
           (Some (errorString "disk full")) (false, None) (true, None)
           ([B; A], None) (100, None) (Returns None).

Definition sw : SequencerWorker :=
  mkSequencerWorker 1 [] A Sequencer (2 * time.Second).

(** The same worker with a minimum block interval of half a second. *)
Definition sw_half : SequencerWorker :=
  mkSequencerWorker 1 [] A Sequencer (500 * time.Millisecond).

Definition account : Account := mkAccount A.
Definition key : Key := mkKey [].
Definition callIdx : CallIndex := mkCallIndex 29 1.

Definition start (w : World) : State World := mkState w 0.

Definition transitions : transitionInterface World unit :=
  @Transition_transitionInterface World collaborators.

(** The selector on the pool of three, with block gas limit 100. *)
Abbreviation selected fuel :=
  (writeTransactions (TI:=transitions) fuel 100 tt (start calm)).

(** One tick on DA block 7. *)
Abbreviation ticked w :=
  (tick 10 sw account key callIdx (mkSignedBlock 7 []) (start w)).

(** Block production on top of the genesis header. *)
Abbreviation produced worker w :=
  (writeBlock 10 worker account key genesis (start w)).


(** The whole of [Run] on a schedule. *)
Abbreviation ran w sched := (Run 10 sw account key sched (start w)).

End Fake.

(** ** Vocabulary for statements about traces *)

(** The transactions popped from the pool, in order. *)
Definition popped (tr : list Event) : list Transaction :=
  flat_map (fun ev => match ev with EvPop tx => [tx] | _ => [] end) tr.

(** The transactions dropped from the pool, in order. *)
Definition dropped (tr : list Event) : list Transaction :=
  flat_map (fun ev => match ev with EvDrop tx => [tx] | _ => [] end) tr.

(** What follows a step of the selector that goes on to the next
    transaction: the next peek, unless the fuel of the model ends there. *)
Definition goes_on {A} (rest : list Event) (o : Outcome A) : Prop :=
  (rest = [] /\ o = OutOfFuel) \/ (exists next rest', rest = EvPeek next :: rest').

Definition found_msg : string := "found transaction from txpool".
Definition full_msg : string := "transaction reached gas limit during excution".
Definition recoverable_msg : string := "transaction caused application error".
Definition unknown_msg : string := "transaction caused unknown error".

(** The shape of every run of the selector loop started with [acc] already
    included: one clause per way through the body of the loop. *)
Inductive selection (gasLimit : Z)
  : list Transaction -> list Event -> Outcome (list Transaction) -> Prop :=
| sel_fuel acc :
    selection gasLimit acc [] OutOfFuel
| sel_empty acc :
    selection gasLimit acc [EvPeek None] (Done acc)
| sel_oversize acc tx tr o :
    ExceedsBlockGasLimit tx gasLimit = true ->
    selection gasLimit acc tr o ->
    selection gasLimit acc
      (EvPeek (Some tx) :: EvLog LvlDebug found_msg :: EvDrop tx :: tr) o
| sel_full acc tx msg :
    ExceedsBlockGasLimit tx gasLimit = false ->
    selection gasLimit acc
      [EvPeek (Some tx); EvLog LvlDebug found_msg;
       EvWrite tx (Some (GasLimitReachedTransitionApplicationError msg));
       EvLog LvlWarn full_msg] (Done acc)
| sel_demote acc tx msg tr o :
    ExceedsBlockGasLimit tx gasLimit = false ->
    selection gasLimit acc tr o ->
    selection gasLimit acc
      (EvPeek (Some tx) :: EvLog LvlDebug found_msg
       :: EvWrite tx (Some (TransitionApplicationError true msg))
       :: EvLog LvlWarn recoverable_msg :: EvDemote tx :: tr) o
| sel_drop acc tx e tr o :
    ExceedsBlockGasLimit tx gasLimit = false ->
    (forall msg, e <> GasLimitReachedTransitionApplicationError msg) ->
    (forall msg, e <> TransitionApplicationError true msg) ->
    selection gasLimit acc tr o ->
    selection gasLimit acc
      (EvPeek (Some tx) :: EvLog LvlDebug found_msg :: EvWrite tx (Some e)
       :: EvLog LvlError unknown_msg :: EvDrop tx :: tr) o
| sel_pop acc tx tr o :
    ExceedsBlockGasLimit tx gasLimit = false ->
    selection gasLimit (acc ++ [tx]) tr o ->
    selection gasLimit acc
      (EvPeek (Some tx) :: EvLog LvlDebug found_msg :: EvWrite tx None
       :: EvPop tx :: tr) o.

(** The events the selector can emit. *)
Definition selector_event (ev : Event) : bool :=
  match ev with
  | EvLog _ _ | EvPrepare | EvPeek _ | EvPop _ | EvDrop _ | EvDemote _
  | EvWrite _ _ => true
  | _ => false
  end.

(** How the loop treats the result of an execution attempt. *)
Definition handled (before : list Transaction) (tx : Transaction)
    (res : option error) (post : list Event)
    (o : Outcome (list Transaction)) : Prop :=
  match res with
  | Some (GasLimitReachedTransitionApplicationError _) =>
      post = [EvLog LvlWarn full_msg] /\ o = Done before
  | Some (TransitionApplicationError true _) =>
      exists rest,
        post = EvLog LvlWarn recoverable_msg :: EvDemote tx :: rest /\
        goes_on rest o /\
        (forall l, o = Done l -> l = before ++ popped rest)
  | Some _ =>
      exists rest,
        post = EvLog LvlError unknown_msg :: EvDrop tx :: rest /\
        goes_on rest o /\
        (forall l, o = Done l -> l = before ++ popped rest)
  | None =>
      exists rest,
        post = EvPop tx :: rest /\
        goes_on rest o /\
        (forall l, o = Done l -> l = before ++ tx :: popped rest)
  end.

(** Local commits: the chain write and the pool reset that follows it. *)
Definition is_local_commit (ev : Event) : bool :=
  match ev with
  | EvWriteBlock _ _ _ | EvResetWithHeaders _ => true
  | _ => false
  end.

(** The error of a step of block production that failed before the block
    was handed to the DA chain. *)
Definition failure_before_inclusion (ev : Event) : option error :=
  match ev with
  | EvCalculateGasLimit _ (_, Some e) => Some e
  | EvAssignExtraValidators _ _ (_, Some e) => Some e
  | EvBeginTxn _ _ _ (Some e) => Some e
  | EvWriteSeal _ (_, Some e) => Some e
  | _ => None
  end.

(** The events that matter for the order of DA publication and local
    commit. *)
Definition commit_relevant (ev : Event) : bool :=
  match ev with
  | EvSendAndWaitForStatus _ _ _ | EvWriteBlock _ _ _
  | EvResetWithHeaders _ => true
  | _ => bool_decide (failure_before_inclusion ev ≠ None)
  end.

(** The runs of [writeBlock], seen through [commit_relevant]. *)
Inductive production (source : string)
  : list Event -> Outcome (option error) -> Prop :=
| prod_gas_limit n g e :
    production source [EvCalculateGasLimit n (g, Some e)] (Done (Some e))
| prod_extra h vs h' e :
    production source [EvAssignExtraValidators h vs (h', Some e)]
               (Done (Some e))
| prod_begin root h coinbase e :
    production source [EvBeginTxn root h coinbase (Some e)] (Done (Some e))
| prod_selector_fuel :
    production source [] OutOfFuel
| prod_seal h h' e :
    production source [EvWriteSeal h (h', Some e)] (Done (Some e))
| prod_never_included b :
    production source [EvSendAndWaitForStatus b InBlock NeverReturns] Hang
| prod_not_included b e :
    production source [EvSendAndWaitForStatus b InBlock (Returns (Some e))]
               (Done (Some e))
| prod_write_failed b e :
    production source
      [EvSendAndWaitForStatus b InBlock (Returns None);
       EvWriteBlock b source (Some e)] (Done (Some e))
| prod_committed b :
    production source
      [EvSendAndWaitForStatus b InBlock (Returns None);
       EvWriteBlock b source None;
       EvResetWithHeaders (BlockHeader b)] (Done None).

(** The events [writeBlock] can emit. *)
Definition producer_event (ev : Event) : bool :=
  match ev with
  | EvNow _ | EvCalculateGasLimit _ _ | EvAssignExtraValidators _ _ _
  | EvBeginTxn _ _ _ _ | EvCommit _ | EvBuildBlock _ | EvWriteSeal _ _
  | EvSendAndWaitForStatus _ _ _ | EvWriteBlock _ _ _
  | EvResetWithHeaders _ => true
  | _ => selector_event ev
  end.

(** The events that fix the timestamp of the header under construction:
    the clock readings, and the header as it is handed to
    [AssignExtraValidators] right after [header.Timestamp] is set. *)
Definition stamping (ev : Event) : bool :=
  match ev with
  | EvNow _ | EvAssignExtraValidators _ _ _ => true
  | _ => false
  end.

(** The clock readings of a trace, in order. *)
Definition readings (tr : list Event) : list time.Time :=
  flat_map (fun ev => match ev with EvNow now => [now] | _ => [] end) tr.

(** A clock that gives well-formed instants and never runs backwards. *)
Definition clock_sane (tr : list Event) : Prop :=
  Forall time.wf (readings tr) /\ StronglySorted time.le (readings tr).

(** The runs of [writeBlock], seen through [stamping]. *)
Inductive stamped (parent : Header) (interval : time.Duration)
  : list Event -> Prop :=
| stamped_no_header now0 :
    stamped parent interval [EvNow now0]
| stamped_interval now0 now1 h vs res :
    time.Before
      (time.Add (time.Unix (wrap_int64 (Timestamp parent)) 0) interval)
      now1 = false ->
    Timestamp h =
      wrap_uint64 (time.Time_Unix
        (time.Add (time.Unix (wrap_int64 (Timestamp parent)) 0) interval)) ->
    stamped parent interval
      [EvNow now0; EvNow now1; EvAssignExtraValidators h vs res]
| stamped_clock now0 now1 now2 h vs res :
    time.Before
      (time.Add (time.Unix (wrap_int64 (Timestamp parent)) 0) interval)
      now1 = true ->
    Timestamp h = wrap_uint64 (time.Time_Unix now2) ->
    stamped parent interval
      [EvNow now0; EvNow now1; EvNow now2; EvAssignExtraValidators h vs res].

(** ** The shape of one tick *)

Definition extract_msg : string := "cannot extract Edge block from Avail block".
Definition staked_query_msg : string :=
  "failed to check if my account is among active staked sequencers; cannot continue".
Definition not_staked_msg : string :=
  "my account is not among active staked sequencers; cannot continue".
Definition set_query_msg : string :=
  "querying staked sequencers failed; quitting".
Definition my_turn_msg : string := "it's my turn; producing a block".
Definition not_my_turn_msg : string := "it's not my turn; skippin' a round".
Definition mine_failed_msg : string := "failed to mine block".

(** What the leader branch does with the result of [writeBlock]. *)
Definition mined (o : Outcome (option error)) : list Event * Outcome unit :=
  match o with
  | Done (Some _) => ([EvLog LvlError mine_failed_msg], Done tt)
  | Done None => ([], Done tt)
  | Panic msg => ([], Panic msg)
  | Hang => ([], Hang)
  | OutOfFuel => ([], OutOfFuel)
  end.

(** The runs of the staking check and leader determination. *)
Inductive election (sw : SequencerWorker) : list Event -> Outcome unit -> Prop :=
| el_staked_query_failed flag e :
    election sw
      [EvContains (nodeAddr sw) (flag, Some e); EvLog LvlError staked_query_msg]
      (Done tt)
| el_not_staked :
    election sw
      [EvContains (nodeAddr sw) (false, None); EvLog LvlError not_staked_msg]
      (Done tt)
| el_set_query_failed l e :
    election sw
      [EvContains (nodeAddr sw) (true, None); EvGet (l, Some e);
       EvLog LvlError set_query_msg]
      (Done tt)
| el_empty_set :
    election sw
      [EvContains (nodeAddr sw) (true, None); EvGet ([], None)]
      (Panic "no staked sequencers")
| el_follow first others :
    bytes_Equal (Bytes first) (Bytes (nodeAddr sw)) = false ->
    election sw
      [EvContains (nodeAddr sw) (true, None); EvGet (first :: others, None);
       EvLog LvlInfo not_my_turn_msg]
      (Done tt)
| el_lead first others h produced o :
    bytes_Equal (Bytes first) (Bytes (nodeAddr sw)) = true ->
    Forall (fun ev => producer_event ev = true) produced ->
    production (String (nodeType sw))
               (List.filter commit_relevant produced) o ->
    election sw
      ([EvContains (nodeAddr sw) (true, None); EvGet (first :: others, None);
        EvHeader h; EvLog LvlInfo my_turn_msg] ++ produced ++ (mined o).1)
      (mined o).2.

(** The events of a tick up to the fraud resolver: the clock update, the
    extraction, its error log if any, and one chain write per extracted
    block, whatever each write returns. *)
Definition extraction (sw : SequencerWorker) (blk : SignedBlock)
    (edgeBlks : list Block) (err : option error)
    (results : list (option error)) : list Event :=
  EvStore (wrap_int64 (BlockNumber blk))
  :: EvFromAvail blk (edgeBlks, err)
  :: (if (length edgeBlks =? 0)%nat && bool_decide (err ≠ None)
      then [EvLog LvlError extract_msg] else [])
  ++ zip_with (fun b res => EvWriteBlock b (String (nodeType sw)) res)
              edgeBlks results.

(** Extraction gave no block and an error other than not-found. *)
Definition extraction_failed (edgeBlks : list Block) (err : option error) : Prop :=
  edgeBlks = [] /\ err <> None /\ err <> Some ErrNoExtrinsicFound.

(** The runs of one iteration of the stream branch of [Run]. *)
Inductive tick_run (sw : SequencerWorker) (blk : SignedBlock)
    (edgeBlks : list Block) (err : option error)
  : list Event -> Outcome unit -> Prop :=
| tick_extraction_failed :
    extraction_failed edgeBlks err ->
    tick_run sw blk edgeBlks err
      [EvStore (wrap_int64 (BlockNumber blk)); EvFromAvail blk (edgeBlks, err);
       EvLog LvlError extract_msg]
      (Done tt)
| tick_slash_failed results flag e :
    ~ extraction_failed edgeBlks err ->
    length results = length edgeBlks ->
    tick_run sw blk edgeBlks err
      (extraction sw blk edgeBlks err results
       ++ [EvCheckAndSetFraudBlock edgeBlks; EvCheckAndSlash (flag, Some e)])
      (Done tt)
| tick_elected results flag elected o :
    ~ extraction_failed edgeBlks err ->
    length results = length edgeBlks ->
    election sw elected o ->
    tick_run sw blk edgeBlks err
      (extraction sw blk edgeBlks err results
       ++ [EvCheckAndSetFraudBlock edgeBlks; EvCheckAndSlash (flag, None)]
       ++ elected)
      o.

(** The queries of the leader check, and the read of the chain head that
    opens block production. *)
Definition leader_check (ev : Event) : bool :=
  match ev with
  | EvContains _ _ | EvGet _ | EvHeader _ => true
  | _ => false
  end.

(** The node takes its turn: it reads the chain head to build on. *)
Definition produces (tr : list Event) : Prop := exists h, In (EvHeader h) tr.

(** The calls whose results can cut a tick short before the staking check. *)
Definition gate (ev : Event) : bool :=
  match ev with
  | EvFromAvail _ _ | EvCheckAndSlash _ | EvContains _ _ => true
  | _ => false
  end.

(** A computation that leaves the atomic [t] as it is, however it ends. *)
Definition keeps_t {Env A : Type} (m : M Env A) : Prop :=
  forall s, t_value (final (m s)) = t_value s.

(** The largest of a list of block numbers. *)
Definition max_seen (numbers : list Z) : Z := foldr Z.max 0 numbers.

(** A tick seen through [leader_check]. *)
Inductive leader_view (sw : SequencerWorker)
  : list Event -> Outcome unit -> Prop :=
| lv_cut_short :
    leader_view sw [] (Done tt)
| lv_staked_query_failed flag e :
    leader_view sw [EvContains (nodeAddr sw) (flag, Some e)] (Done tt)
| lv_not_staked :
    leader_view sw [EvContains (nodeAddr sw) (false, None)] (Done tt)
| lv_set_query_failed l e :
    leader_view sw
      [EvContains (nodeAddr sw) (true, None); EvGet (l, Some e)] (Done tt)
| lv_empty_set :
    leader_view sw
      [EvContains (nodeAddr sw) (true, None); EvGet ([], None)]
      (Panic "no staked sequencers")
| lv_follow first others :
    bytes_Equal (Bytes first) (Bytes (nodeAddr sw)) = false ->
    leader_view sw
      [EvContains (nodeAddr sw) (true, None); EvGet (first :: others, None)]
      (Done tt)
| lv_lead first others h o :
    bytes_Equal (Bytes first) (Bytes (nodeAddr sw)) = true ->
    (forall msg, o <> Panic msg) ->
    leader_view sw
      [EvContains (nodeAddr sw) (true, None); EvGet (first :: others, None);
       EvHeader h] o.

(** A tick seen through [gate]: what the filter leaves of the trace, and
    how the tick ended when it was cut short. *)
Inductive gate_view (sw : SequencerWorker) (blk : SignedBlock)
    (edgeBlks : list Block) (err : option error)
    (tr : list Event) (o : Outcome unit) : Prop :=
| gv_extraction_failed :
    extraction_failed edgeBlks err ->
    List.filter gate tr = [EvFromAvail blk (edgeBlks, err)] ->
    o = Done tt ->
    gate_view sw blk edgeBlks err tr o
| gv_slash_failed flag e pre :
    ~ extraction_failed edgeBlks err ->
    List.filter gate tr =
      [EvFromAvail blk (edgeBlks, err); EvCheckAndSlash (flag, Some e)] ->
    tr = pre ++ [EvCheckAndSlash (flag, Some e)] ->
    o = Done tt ->
    gate_view sw blk edgeBlks err tr o
| gv_staking_checked flag res :
    ~ extraction_failed edgeBlks err ->
    List.filter gate tr =
      [EvFromAvail blk (edgeBlks, err); EvCheckAndSlash (flag, None);
       EvContains (nodeAddr sw) res] ->
    gate_view sw blk edgeBlks err tr o.

(** The gas of the transactions popped so far. *)
Definition included_gas (tr : list Event) : Z :=
  foldr (fun tx total => Gas tx + total) 0 (popped tr).

(** ** [ParseMechanismConfigTypes] and the values of a decoded configuration

    The argument is an [interface{}]; the function asserts its dynamic
    type, and that of each element, without the comma-ok form, so a value
    of another type is a run-time panic.  [any] lists the dynamic types a
    decoded configuration value can have. *)

#[warnings="-register-all"]
Inductive any : Type :=
| any_nil                                   (* the nil interface *)
| any_bool (b : bool)
| any_int (n : Z)
| any_string (s : string)
| any_slice (elems : list any)              (* []interface{} *)
| any_map (entries : list (string * any)).  (* map[string]interface{} *)

(** The name the run time prints for the dynamic type. *)
Definition type_of (v : any) : string :=
  match v with
  | any_nil => "nil"
  | any_bool _ => "bool"
  | any_int _ => "int"
  | any_string _ => "string"
  | any_slice _ => "[]interface {}"
  | any_map _ => "map[string]interface {}"
  end.

(** The message of the panic of a failed assertion [v.(wanted)]. *)
Definition interface_conversion (v : any) (wanted : string) : string :=
  "interface conversion: interface {} is " ++ type_of v ++ ", not " ++ wanted.

(** [for _, i := range mi { ... }], with [toReturn] as built so far.  A
    nil slice and an empty one are both the empty list. *)
Fixpoint ParseMechanismConfigTypes_range (mi : list any)
    (toReturn : list MechanismType)
  : Outcome (list MechanismType * option error) :=
  match mi with
  | [] => Done (toReturn, None)
  | i :: rest =>
      match i with
      | any_string s =>
          match ParseType s with
          | (_, Some err) => Done ([], Some err)         (* return nil, err *)
          | (m, None) =>
              ParseMechanismConfigTypes_range rest (toReturn ++ [m])
          end
      | _ => Panic (interface_conversion i "string")
      end
  end.

Definition ParseMechanismConfigTypes (mechanisms : any)
  : Outcome (list MechanismType * option error) :=
  match mechanisms with
  | any_slice mi => ParseMechanismConfigTypes_range mi []
  | _ => Panic (interface_conversion mechanisms "[]interface {}")
  end.

(** ** [NewSequencer] and the close channel

    [closeCh] is the one field of [SequencerWorker] that is a channel.
    The constructor takes the collaborators (here the environment), the
    data fields and a receive-only channel. *)

(** A channel value: nil, or a channel that was made. *)
Inductive chan : Type :=
| chan_nil
| chan_made (id : nat).

(** The struct as the constructor leaves it: the data fields and the
    channel field. *)
Record Constructed : Type := mkConstructed {
  worker : SequencerWorker;
  closeCh : chan
}.

(** The struct literal of [NewSequencer] names every field but [closeCh],
    which keeps its zero value; the error returned is always nil. *)
Definition NewSequencer (availAppID : Z) (nodeSignKey : PrivateKey)
    (nodeAddr : Address) (nodeType : MechanismType) (closeCh : chan)
    (blockTime : time.Duration) : Constructed * option error :=
  (mkConstructed
     (mkSequencerWorker availAppID nodeSignKey nodeAddr nodeType blockTime)
     chan_nil,
   None).

(** What the [select] of [Run] can receive: a receive from a nil channel
    never proceeds, so with a nil [closeCh] the close branch is never
    taken. *)
Definition deliverable (closeCh : chan) (sched : list Select) : Prop :=
  closeCh = chan_nil -> ~ In RecvClose sched.

(** ** What justifies a removal from the pool

    [pre] is the trace of the selector up to the removal [ev]. *)
Definition justified (gasLimit : Z) (pre : list Event) (ev : Event) : Prop :=
  match ev with
  | EvPop tx =>
      Gas tx <= gasLimit /\
      exists pre',
        pre = pre' ++ [EvPeek (Some tx); EvLog LvlDebug found_msg;
                       EvWrite tx None]
  | EvDemote tx =>
      Gas tx <= gasLimit /\
      exists pre' msg,
        pre = pre' ++ [EvPeek (Some tx); EvLog LvlDebug found_msg;
                       EvWrite tx (Some (TransitionApplicationError true msg));
                       EvLog LvlWarn recoverable_msg]
  | EvDrop tx =>
      (gasLimit < Gas tx /\
       exists pre',
         pre = pre' ++ [EvPeek (Some tx); EvLog LvlDebug found_msg]) \/
      (Gas tx <= gasLimit /\
       exists pre' e,
         pre = pre' ++ [EvPeek (Some tx); EvLog LvlDebug found_msg;
                        EvWrite tx (Some e); EvLog LvlError unknown_msg] /\
         (forall msg, e <> GasLimitReachedTransitionApplicationError msg) /\
         (forall msg, e <> TransitionApplicationError true msg))
  | _ => True
  end.

(** ** Vocabulary for statements about whole runs *)

(** A computation all of whose events satisfy [P], however it ends. *)
Definition emits {Env A : Type} (P : Event -> Prop) (m : M Env A) : Prop :=
  forall s, Forall P (trace (m s)).

(** The events of the stream branch of the loop: everything but the
    startup calls, the opening and closing of the block stream, and the
    unstaking of the close branch. *)
Definition tick_event (ev : Event) : bool :=
  match ev with
  | EvGetBalance _ | EvFindCallIndex _ | EvWaitForStakedSequencer _
  | EvNewBlockStream | EvStreamClose | EvUnStake _ => false
  | _ => true
  end.

(** The events of a tick after the extraction. *)
Definition settle_event (ev : Event) : bool :=
  match ev with
  | EvStore _ | EvFromAvail _ _ => false
  | _ => tick_event ev
  end.

(** The events of the loop of [Run]. *)
Definition loop_event (ev : Event) : bool :=
  match ev with
  | EvUnStake _ => true
  | _ => tick_event ev
  end.

(** The events that fix what a new block is built on: the read of the
    chain head, and the steps of [writeBlock] that take the header under
    construction. *)
Definition builder_event (ev : Event) : bool :=
  match ev with
  | EvHeader _ | EvCalculateGasLimit _ _ | EvAssignExtraValidators _ _ _
  | EvBeginTxn _ _ _ _ => true
  | _ => false
  end.

(** The DA blocks a trace extracts settlement blocks from, in order. *)
Definition extracted_from (tr : list Event) : list SignedBlock :=
  flat_map (fun ev => match ev with EvFromAvail blk _ => [blk] | _ => [] end)
           tr.

(** The DA blocks a schedule delivers before its first close signal. *)
Fixpoint delivered (sched : list Select) : list SignedBlock :=
  match sched with
  | RecvBlock blk :: rest => blk :: delivered rest
  | _ => []
  end.

(** What the close branch leaves in the trace after the unstaking. *)
Definition unstake_log (res : option error) : list Event :=
  match res with
  | Some _ => [EvLog LvlError "failed to unstake the node"]
  | None => []
  end.

(** What the deferred [Close] of the block stream adds when the loop ends
    with outcome [o]: it runs when [Run] returns or panics. *)
Definition stream_closing {A} (o : Outcome (option A)) : list Event :=
  match o with
  | Done (Some _) | Panic _ => [EvStreamClose]
  | _ => []
  end.

(** A trace whose last event is [x]. *)
Definition ends_with (x : Event) (tr : list Event) : Prop :=
  exists pre, tr = pre ++ [x].

(** The two ways a run stops other than by returning, and what the trace
    ends with in each: the panic on an empty active set, right after the
    registry returned it; the wait for DA inclusion that never returns. *)
Definition abnormal_end {A} (o : Outcome A) (tr : list Event) : Prop :=
  match o with
  | Panic msg =>
      msg = "no staked sequencers" /\ ends_with (EvGet ([], None)) tr
  | Hang =>
      exists b, ends_with (EvSendAndWaitForStatus b InBlock NeverReturns) tr
  | _ => True
  end.


(** The trace of a startup of [Run] that reached the loop. *)
Definition started (sw : SequencerWorker) (balance : Z) (callIdx : CallIndex)
  : list Event :=
  [EvGetBalance (balance, None);
   EvLog LvlInfo "Current avail account";
   EvFindCallIndex (callIdx, None);
   EvWaitForStakedSequencer (nodeAddr sw);
   EvNewBlockStream;
   EvLog LvlInfo "Block stream successfully started."].

(** * Theorems *)

(** ** Machine integers and the mechanism table *)

Lemma wrap_int64_small z : - 2 ^ 63 <= z < 2 ^ 63 -> wrap_int64 z = z.
Proof. intros Hz. unfold wrap_int64. rewrite Z.mod_small; lia. Qed.

Lemma wrap_uint64_small z : 0 <= z < 2 ^ 64 -> wrap_uint64 z = z.
Proof. intros Hz. unfold wrap_uint64. rewrite Z.mod_small; lia. Qed.

Lemma lookup_mechanismTypes (s : string) :
  Mechanism.mechanismTypes !! s =
  if bool_decide (s ∈ Mechanism.valid_names) then Some s else None.
Proof.
  unfold mechanismTypes, valid_names, BootstrapSequencer, Sequencer,
    Validator, WatchTower.
  destruct (decide (s = "bootstrap-sequencer")) as [->|H1].
  { rewrite lookup_insert_eq, bool_decide_eq_true_2; [done|].
    rewrite !elem_of_cons. tauto. }
  rewrite lookup_insert_ne by (intros E; apply H1; symmetry; exact E).
  destruct (decide (s = "sequencer")) as [->|H2].
  { rewrite lookup_insert_eq, bool_decide_eq_true_2; [done|].
    rewrite !elem_of_cons. tauto. }
  rewrite lookup_insert_ne by (intros E; apply H2; symmetry; exact E).
  destruct (decide (s = "validator")) as [->|H3].
  { rewrite lookup_insert_eq, bool_decide_eq_true_2; [done|].
    rewrite !elem_of_cons. tauto. }
  rewrite lookup_insert_ne by (intros E; apply H3; symmetry; exact E).
  destruct (decide (s = "watchtower")) as [->|H4].
  { rewrite lookup_insert_eq, bool_decide_eq_true_2; [done|].
    rewrite !elem_of_cons. tauto. }
  rewrite lookup_insert_ne by (intros E; apply H4; symmetry; exact E).
  rewrite lookup_empty.
  rewrite bool_decide_eq_false_2; [reflexivity|].
  rewrite !elem_of_cons, elem_of_nil. tauto.
Qed.

Lemma MechanismExists_spec (m : Mechanism.MechanismType) :
  Mechanism.MechanismExists m = true <-> m ∈ Mechanism.valid_names.
Proof.
  unfold Mechanism.MechanismExists. rewrite existsb_exists. split.
  - intros [[k v] [Hin Heq]].
    apply bool_decide_eq_true_1 in Heq. simpl in Heq. subst v.
    apply list_elem_of_In, elem_of_map_to_list in Hin.
    rewrite lookup_mechanismTypes in Hin.
    case_bool_decide as Hk; [|discriminate].
    injection Hin as ->. exact Hk.
  - intros Hm. exists (m, m). split.
    + apply (proj1 (list_elem_of_In
                      (map_to_list Mechanism.mechanismTypes) (m, m))).
      apply (proj2 (elem_of_map_to_list Mechanism.mechanismTypes m m)).
      rewrite lookup_mechanismTypes, bool_decide_eq_true_2; auto.
    + apply bool_decide_eq_true_2. reflexivity.
Qed.

Ltac unfold_m :=
  unfold mbind, M_bind, mret, M_ret, call, exec, read, query, emit, panic,
    hang, out_of_fuel, t_Load, t_Store, outcome, final, trace in *.

Section SelectorFacts.
Context {Env : Type} {C : Collaborators Env}.
Context {T : Type} {TI : transitionInterface Env T}.

Lemma writeTransactions_loop_selection (fuel : nat) :
  forall (gasLimit : Z) (transition : T) (acc : list Transaction)
         (s : State Env),
    selection gasLimit acc
      (trace (writeTransactions_loop fuel gasLimit transition acc s))
      (outcome (writeTransactions_loop fuel gasLimit transition acc s)).
Proof.
  induction fuel as [|fuel IH]; intros gasLimit transition acc s.
  - apply sel_fuel.
  - cbn [writeTransactions_loop]. unfold_m.
    destruct (txpool_Peek (env s)) as [[tx|] e1]; cbn; [|apply sel_empty].
    destruct (ExceedsBlockGasLimit tx gasLimit) eqn:Hx; cbn.
    + specialize (IH gasLimit transition acc
                     (mkState (txpool_Drop tx e1) (t_value s))).
      destruct (writeTransactions_loop fuel _ _ _ _) as [[o s2] tr].
      destruct o; cbn in *; by apply sel_oversize.
    + destruct (Write transition tx e1) as [[e|] e2]; cbn.
      * destruct e as [|msg|[|] msg|msg]; cbn.
        -- specialize (IH gasLimit transition acc
                         (mkState (txpool_Drop tx e2) (t_value s))).
           destruct (writeTransactions_loop fuel _ _ _ _) as [[o s3] tr].
           destruct o; cbn in *; by apply sel_drop.
        -- by apply sel_full.
        -- specialize (IH gasLimit transition acc
                         (mkState (txpool_Demote tx e2) (t_value s))).
           destruct (writeTransactions_loop fuel _ _ _ _) as [[o s3] tr].
           destruct o; cbn in *; by apply sel_demote.
        -- specialize (IH gasLimit transition acc
                         (mkState (txpool_Drop tx e2) (t_value s))).
           destruct (writeTransactions_loop fuel _ _ _ _) as [[o s3] tr].
           destruct o; cbn in *; by apply sel_drop.
        -- specialize (IH gasLimit transition acc
                         (mkState (txpool_Drop tx e2) (t_value s))).
           destruct (writeTransactions_loop fuel _ _ _ _) as [[o s3] tr].
           destruct o; cbn in *; by apply sel_drop.
      * specialize (IH gasLimit transition (acc ++ [tx])
                       (mkState (txpool_Pop tx e2) (t_value s))).
        destruct (writeTransactions_loop fuel _ _ _ _) as [[o s3] tr].
        destruct o; cbn in *; by apply sel_pop.
Qed.

End SelectorFacts.

Lemma split_cons {A} (x y : A) (l pre post : list A) :
  x :: l = pre ++ y :: post ->
  (pre = [] /\ x = y /\ l = post) \/
  (exists pre', pre = x :: pre' /\ l = pre' ++ y :: post).
Proof.
  destruct pre as [|z pre]; cbn; intros H; injection H as -> ->; eauto.
Qed.

(** Peel the head of a trace off a decomposition [H] around one event. *)
Ltac split_head H :=
  let pre' := fresh "pre" in
  let Heq := fresh "Heq" in
  let Hpost := fresh "Hpost" in
  apply split_cons in H as [(-> & Heq & Hpost) | (pre' & -> & H)];
  [ try discriminate Heq;
    lazymatch type of Hpost with _ = ?p => try (is_var p; subst p) end
  | try (exfalso; exact (app_cons_not_nil _ _ _ H)) ].

Section SelectionFacts.
Variable gasLimit : Z.

Lemma selection_result acc tr o :
  selection gasLimit acc tr o ->
  forall l, o = Done l -> l = acc ++ popped tr.
Proof.
  induction 1 as [acc|acc|acc tx tr o Hx H IH|acc tx msg Hx
                 |acc tx msg tr o Hx H IH|acc tx e tr o Hx Hn1 Hn2 H IH
                 |acc tx tr o Hx H IH]; intros l Hl; cbn.
  - discriminate.
  - injection Hl as <-. by rewrite app_nil_r.
  - by apply IH.
  - injection Hl as <-. by rewrite app_nil_r.
  - by apply IH.
  - by apply IH.
  - rewrite (IH l Hl), <- app_assoc. reflexivity.
Qed.

Lemma selection_goes_on acc tr o :
  selection gasLimit acc tr o -> goes_on tr o.
Proof. destruct 1; try (right; eauto; fail). by left. Qed.

Lemma selection_events acc tr o :
  selection gasLimit acc tr o -> Forall (fun ev => selector_event ev = true) tr.
Proof. induction 1; repeat constructor; assumption. Qed.

Lemma selection_attempt acc tr o :
  selection gasLimit acc tr o ->
  forall pre tx res post,
    tr = pre ++ EvWrite tx res :: post ->
    handled (acc ++ popped pre) tx res post o.
Proof.
  induction 1 as [acc|acc|acc tx0 tr o Hx H IH|acc tx0 msg Hx
                 |acc tx0 msg tr o Hx H IH|acc tx0 e tr o Hx Hn1 Hn2 H IH
                 |acc tx0 tr o Hx H IH]; intros pre tx res post Hsplit.
  - by destruct pre.
  - split_head Hsplit.
  - do 3 split_head Hsplit. cbn. by apply IH.
  - do 2 split_head Hsplit.
    split_head Hsplit.
    + injection Heq as <- <-. cbn. by rewrite app_nil_r.
    + split_head Hsplit.
  - do 2 split_head Hsplit.
    split_head Hsplit.
    + injection Heq as <- <-. cbn. rewrite app_nil_r.
      eexists; split; [reflexivity|]. split.
      * eapply selection_goes_on; eassumption.
      * eapply selection_result; eassumption.
    + do 2 split_head Hsplit. cbn. by apply IH.
  - do 2 split_head Hsplit.
    split_head Hsplit.
    + injection Heq as <- <-. cbn. rewrite app_nil_r.
      assert (Hrest : exists rest,
                 EvLog LvlError unknown_msg :: EvDrop tx0 :: tr =
                 EvLog LvlError unknown_msg :: EvDrop tx0 :: rest /\
                 goes_on rest o /\
                 (forall l, o = Done l -> l = acc ++ popped rest)).
      { eexists; split; [reflexivity|]. split.
        - eapply selection_goes_on; eassumption.
        - eapply selection_result; eassumption. }
      destruct e as [|msg|[|] msg|msg]; try exact Hrest.
      * by destruct (Hn1 msg).
      * by destruct (Hn2 msg).
    + do 2 split_head Hsplit. cbn. by apply IH.
  - do 2 split_head Hsplit.
    split_head Hsplit.
    + injection Heq as <- <-. cbn. rewrite app_nil_r.
      eexists; split; [reflexivity|]. split.
      * eapply selection_goes_on; eassumption.
      * intros l Hl. rewrite (selection_result _ _ _ H l Hl), <- app_assoc.
        reflexivity.
    + split_head Hsplit. specialize (IH _ _ _ _ Hsplit).
      rewrite <- app_assoc in IH. exact IH.
Qed.

Lemma selection_peek acc tr o :
  selection gasLimit acc tr o ->
  forall pre tx post,
    tr = pre ++ EvPeek (Some tx) :: post ->
    (ExceedsBlockGasLimit tx gasLimit = true /\
     exists rest, post = EvLog LvlDebug found_msg :: EvDrop tx :: rest /\
                  goes_on rest o) \/
    (ExceedsBlockGasLimit tx gasLimit = false /\
     exists res rest, post = EvLog LvlDebug found_msg :: EvWrite tx res :: rest).
Proof.
  induction 1 as [acc|acc|acc tx0 tr o Hx H IH|acc tx0 msg Hx
                 |acc tx0 msg tr o Hx H IH|acc tx0 e tr o Hx Hn1 Hn2 H IH
                 |acc tx0 tr o Hx H IH]; intros pre tx post Hsplit.
  - by destruct pre.
  - split_head Hsplit.
  - split_head Hsplit.
    + injection Heq as <-. left. split; [assumption|].
      eexists; split; [reflexivity|]. eapply selection_goes_on; eassumption.
    + do 2 split_head Hsplit. exact (IH _ _ _ Hsplit).
  - split_head Hsplit.
    + injection Heq as <-. right. eauto.
    + do 3 split_head Hsplit.
  - split_head Hsplit.
    + injection Heq as <-. right. eauto.
    + do 4 split_head Hsplit. exact (IH _ _ _ Hsplit).
  - split_head Hsplit.
    + injection Heq as <-. right. eauto.
    + do 4 split_head Hsplit. exact (IH _ _ _ Hsplit).
  - split_head Hsplit.
    + injection Heq as <-. right. eauto.
    + do 3 split_head Hsplit. exact (IH _ _ _ Hsplit).
Qed.

End SelectionFacts.

Section SelectorTheorems.
Context {Env : Type} {C : Collaborators Env}.
Context {T : Type} {TI : transitionInterface Env T}.

Lemma writeTransactions_trace (fuel : nat) (gasLimit : Z) (transition : T)
    (s : State Env) :
  exists tr,
    trace (writeTransactions fuel gasLimit transition s) = EvPrepare :: tr /\
    selection gasLimit [] tr
      (outcome (writeTransactions fuel gasLimit transition s)).
Proof.
  pose proof (writeTransactions_loop_selection fuel gasLimit transition []
                (mkState (txpool_Prepare (env s)) (t_value s))) as H.
  unfold writeTransactions. unfold_m. cbn.
  destruct (writeTransactions_loop fuel _ _ _ _) as [[o s1] tr].
  exists tr. by destruct o.
Qed.

(** C4.  Every execution attempt the selector makes is followed by exactly
    the action its result calls for.  Gas-limit-reached: one warning and
    the selection is over, returning what was popped before; the
    transaction is not popped, dropped or demoted.  Recoverable
    application error: the transaction is demoted and the loop goes on to
    the next peek.  Any other error: it is dropped and the loop goes on.
    Success: it is popped, appended to the included list, and the loop
    goes on. *)
Theorem selector_classifies_execution_results
    (fuel : nat) (gasLimit : Z) (transition : T) (s : State Env)
    (pre : list Event) (tx : Transaction) (res : option error)
    (post : list Event) :
  trace (writeTransactions fuel gasLimit transition s)
    = pre ++ EvWrite tx res :: post ->
  let o := outcome (writeTransactions fuel gasLimit transition s) in
  match res with
  | Some (GasLimitReachedTransitionApplicationError _) =>
      post = [EvLog LvlWarn full_msg] /\ o = Done (popped pre)
  | Some (TransitionApplicationError true _) =>
      exists rest,
        post = EvLog LvlWarn recoverable_msg :: EvDemote tx :: rest /\
        goes_on rest o /\
        (forall l, o = Done l -> l = popped pre ++ popped rest)
  | Some _ =>
      exists rest,
        post = EvLog LvlError unknown_msg :: EvDrop tx :: rest /\
        goes_on rest o /\
        (forall l, o = Done l -> l = popped pre ++ popped rest)
  | None =>
      exists rest,
        post = EvPop tx :: rest /\
        goes_on rest o /\
        (forall l, o = Done l -> l = popped pre ++ tx :: popped rest)
  end.
Proof.
  intros Hsplit o.
  destruct (writeTransactions_trace fuel gasLimit transition s)
    as (tr & Htr & Hsel).
  rewrite Htr in Hsplit. split_head Hsplit.
  exact (selection_attempt gasLimit [] tr o Hsel _ tx res post Hsplit).
Qed.

(** The part of C3 that holds of every pool and executor: a peeked
    transaction is dropped without an execution attempt exactly when its
    gas exceeds the block gas limit handed to the selector. *)
Lemma selector_peek_cases
    (fuel : nat) (gasLimit : Z) (transition : T) (s : State Env)
    (pre : list Event) (tx : Transaction) (post : list Event) :
  trace (writeTransactions fuel gasLimit transition s)
    = pre ++ EvPeek (Some tx) :: post ->
  let o := outcome (writeTransactions fuel gasLimit transition s) in
  ((exists rest, post = EvLog LvlDebug found_msg :: EvDrop tx :: rest)
     <-> gasLimit < Gas tx) /\
  (gasLimit < Gas tx ->
     exists rest, post = EvLog LvlDebug found_msg :: EvDrop tx :: rest /\
                  goes_on rest o) /\
  (Gas tx <= gasLimit ->
     exists res rest,
       post = EvLog LvlDebug found_msg :: EvWrite tx res :: rest).
Proof.
  intros Hsplit o.
  destruct (writeTransactions_trace fuel gasLimit transition s)
    as (tr & Htr & Hsel).
  rewrite Htr in Hsplit. split_head Hsplit.
  destruct (selection_peek gasLimit [] tr o Hsel _ tx post Hsplit)
    as [(Hx & rest & -> & Hgo) | (Hx & res & rest & ->)];
    unfold ExceedsBlockGasLimit in Hx.
  - apply Z.ltb_lt in Hx. repeat split; eauto; lia.
  - apply Z.ltb_ge in Hx. repeat split.
    + intros (rest' & Heq). discriminate Heq.
    + lia.
    + lia.
    + eauto.
Qed.

End SelectorTheorems.

(** ** Traces seen through a filter *)

Section Views.
Variable p : Event -> bool.

Lemma view_split (tr pre post : list Event) (y : Event) :
  tr = pre ++ y :: post -> p y = true ->
  List.filter p tr = List.filter p pre ++ y :: List.filter p post.
Proof. intros -> Hy. rewrite List.filter_app. cbn. by rewrite Hy. Qed.

Lemma view_In (x : Event) (tr : list Event) :
  In x (List.filter p tr) -> In x tr.
Proof. intros H. by apply List.filter_In in H as [H _]. Qed.

Lemma In_view (x : Event) (tr : list Event) :
  In x tr -> p x = true -> In x (List.filter p tr).
Proof. intros H Hx. apply List.filter_In. by split. Qed.

Lemma view_none (tr : list Event) :
  Forall (fun ev => p ev = false) tr -> List.filter p tr = [].
Proof.
  induction 1 as [|x l Hx _ IH]; [reflexivity|]. cbn. by rewrite Hx.
Qed.

Lemma Forall_view (P : Event -> Prop) (tr : list Event) :
  (forall ev, p ev = false -> P ev) ->
  Forall P (List.filter p tr) -> Forall P tr.
Proof.
  intros Hp H. apply List.Forall_forall. intros x Hx.
  destruct (p x) eqn:Hpx; [|by apply Hp].
  eapply List.Forall_forall in H; [exact H|]. by apply In_view.
Qed.

End Views.

Lemma selector_not_commit_relevant (tr : list Event) :
  Forall (fun ev => selector_event ev = true) tr ->
  Forall (fun ev => commit_relevant ev = false) tr.
Proof.
  intros H. eapply Forall_impl; [exact H|].
  intros ev Hev. by destruct ev.
Qed.

Section ProducerFacts.
Context {Env : Type} {C : Collaborators Env}.

Lemma writeTransactions_view (fuel : nat) (gasLimit : Z)
    (transition : Transition) (s : State Env) :
  List.filter commit_relevant
    (trace (writeTransactions fuel gasLimit transition s)) = [] /\
  (outcome (writeTransactions fuel gasLimit transition s) = OutOfFuel \/
   exists l, outcome (writeTransactions fuel gasLimit transition s) = Done l).
Proof.
  destruct (writeTransactions_trace fuel gasLimit transition s)
    as (tr & -> & Hsel). split.
  - cbn. apply view_none, selector_not_commit_relevant.
    eapply selection_events; eassumption.
  - clear -Hsel. induction Hsel; eauto.
Qed.

Arguments writeTransactions : simpl never.
Arguments set_GasLimit : simpl never.
Arguments set_Timestamp : simpl never.
Arguments set_StateRoot : simpl never.
Arguments set_GasUsed : simpl never.
Arguments ZeroHash : simpl never.
Arguments wrap_uint64 : simpl never.
Arguments wrap_int64 : simpl never.
Arguments time.Unix : simpl never.
Arguments time.Add : simpl never.
Arguments time.Before : simpl never.

(** Symbolic execution of the producer: case on the next collaborator
    result, and use [writeTransactions_view] at the selector. *)
Ltac run_producer :=
  repeat first
    [ progress cbn
    | lazymatch goal with
      | |- context [writeTransactions ?f ?g ?t ?s] =>
          let Hv := fresh "Hview" in
          let Ho := fresh "Hout" in
          destruct (writeTransactions_view f g t s) as [Hv Ho];
          destruct (writeTransactions f g t s) as [[[] ?] ?];
          cbn in Hv, Ho; destruct Ho as [Ho | [? Ho]]; try discriminate Ho
      | |- _ =>
          match goal with
          | |- context [match ?x with _ => _ end] =>
              lazymatch x with
              | context [match _ with _ => _ end] => fail
              | _ => destruct x eqn:?
              end
          end
      end ].

Lemma writeBlock_production (fuel : nat) (sw : SequencerWorker)
    (myAccount : Account) (signKey : Key) (parent : Header) (s : State Env) :
  production (String (nodeType sw))
    (List.filter commit_relevant
       (trace (writeBlock fuel sw myAccount signKey parent s)))
    (outcome (writeBlock fuel sw myAccount signKey parent s)).
Proof.
  unfold writeBlock. unfold_m.
  run_producer.
  all: rewrite ?List.filter_app, ?Hview; cbn.
  all: constructor.
Qed.

Lemma failure_commit_relevant (ev : Event) (e : error) :
  failure_before_inclusion ev = Some e -> commit_relevant ev = true.
Proof.
  intros H. destruct ev; try discriminate H; try reflexivity;
    unfold commit_relevant; rewrite H; reflexivity.
Qed.

Lemma not_relevant_not_commit (ev : Event) :
  commit_relevant ev = false -> is_local_commit ev = false.
Proof. by destruct ev. Qed.

(** C1.  In every run of [writeBlock]: a [WriteBlock] on the chain storage
    happens only after [SendAndWaitForStatus], asked for the in-block
    status, has returned success for that very block, and the pool reset
    only after that write succeeded; when the gas-limit calculation, the
    extra-data assignment, [BeginTxn] or the sealing fails, [writeBlock]
    returns that error and the trace has neither a chain write nor a pool
    reset; the same holds when the DA wait fails or never returns. *)
Theorem writeBlock_commits_only_after_inclusion
    (fuel : nat) (sw : SequencerWorker) (myAccount : Account)
    (signKey : Key) (parent : Header) (s : State Env) :
  let r := writeBlock fuel sw myAccount signKey parent s in
  (forall pre b source res post,
      trace r = pre ++ EvWriteBlock b source res :: post ->
      In (EvSendAndWaitForStatus b InBlock (Returns None)) pre) /\
  (forall pre h post,
      trace r = pre ++ EvResetWithHeaders h :: post ->
      exists b,
        h = BlockHeader b /\
        In (EvSendAndWaitForStatus b InBlock (Returns None)) pre /\
        In (EvWriteBlock b (String (nodeType sw)) None) pre) /\
  (forall ev e,
      In ev (trace r) -> failure_before_inclusion ev = Some e ->
      outcome r = Done (Some e) /\
      Forall (fun ev => is_local_commit ev = false) (trace r)) /\
  (forall b status res,
      In (EvSendAndWaitForStatus b status res) (trace r) ->
      res <> Returns None ->
      match res with
      | Returns (Some e) => outcome r = Done (Some e)
      | _ => outcome r = Hang
      end /\
      Forall (fun ev => is_local_commit ev = false) (trace r)).
Proof.
  intros r.
  pose proof (writeBlock_production fuel sw myAccount signKey parent s)
    as Hprod.
  fold r in Hprod.
  assert (Hquiet :
    Forall (fun ev => is_local_commit ev = false)
           (List.filter commit_relevant (trace r)) ->
    Forall (fun ev => is_local_commit ev = false) (trace r)).
  { apply Forall_view, not_relevant_not_commit. }
  repeat split.
  - intros pre b source res post Hsplit.
    apply (view_split commit_relevant) in Hsplit; [|reflexivity].
    apply (view_In commit_relevant).
    revert Hsplit. generalize (List.filter commit_relevant pre) as vpre.
    intros vpre Hsplit.
    destruct Hprod; repeat split_head Hsplit;
      try (exfalso; exact (app_cons_not_nil _ _ _ Hsplit)).
    all: match goal with
      | H : EvWriteBlock _ _ _ = EvWriteBlock _ _ _ |- _ =>
          injection H as <- _ _; by left
      end.
  - intros pre h post Hsplit.
    apply (view_split commit_relevant) in Hsplit; [|reflexivity].
    assert (Hin : exists b, h = BlockHeader b /\
      In (EvSendAndWaitForStatus b InBlock (Returns None))
         (List.filter commit_relevant pre) /\
      In (EvWriteBlock b (String (nodeType sw)) None)
         (List.filter commit_relevant pre)).
    { revert Hsplit. generalize (List.filter commit_relevant pre) as vpre.
      intros vpre Hsplit.
      destruct Hprod; repeat split_head Hsplit;
        try (exfalso; exact (app_cons_not_nil _ _ _ Hsplit)).
      match goal with
      | H : EvResetWithHeaders _ = EvResetWithHeaders _ |- _ =>
          injection H as <-
      end.
      exists b. cbn. auto. }
    destruct Hin as (b & -> & H1 & H2).
    exists b. eauto using view_In.
  - pose proof (In_view commit_relevant ev (trace r) H
                  (failure_commit_relevant ev e H0)) as Hin.
    destruct Hprod; cbn in Hin; intuition subst; cbn in *; congruence.
  - apply Hquiet.
    pose proof (In_view commit_relevant ev (trace r) H
                  (failure_commit_relevant ev e H0)) as Hin.
    destruct Hprod; cbn in Hin; intuition subst; cbn in *;
      try discriminate; repeat constructor.
  - pose proof (In_view commit_relevant _ (trace r) H eq_refl) as Hin.
    destruct Hprod; cbn in Hin; intuition idtac; simplify_eq/=;
      try done; try congruence.
  - apply Hquiet.
    pose proof (In_view commit_relevant _ (trace r) H eq_refl) as Hin.
    destruct Hprod; cbn in Hin; intuition idtac; simplify_eq/=;
      try done; try congruence; repeat constructor.
Qed.

Lemma selector_producer_event (tr : list Event) :
  Forall (fun ev => selector_event ev = true) tr ->
  Forall (fun ev => producer_event ev = true) tr.
Proof.
  intros H. eapply Forall_impl; [exact H|].
  intros ev Hev. by destruct ev.
Qed.

Lemma selector_not_stamping (tr : list Event) :
  Forall (fun ev => selector_event ev = true) tr ->
  Forall (fun ev => stamping ev = false) tr.
Proof.
  intros H. eapply Forall_impl; [exact H|].
  intros ev Hev. by destruct ev.
Qed.

Lemma writeTransactions_events (fuel : nat) (gasLimit : Z)
    (transition : Transition) (s : State Env) :
  Forall (fun ev => selector_event ev = true)
    (trace (writeTransactions fuel gasLimit transition s)).
Proof.
  destruct (writeTransactions_trace fuel gasLimit transition s)
    as (tr & -> & Hsel).
  constructor; [reflexivity|]. eapply selection_events; eassumption.
Qed.

(** Symbolic execution that keeps the selector's trace abstract. *)
Ltac run_producer_events :=
  repeat first
    [ progress cbn
    | lazymatch goal with
      | |- context [writeTransactions ?f ?g ?t ?s] =>
          let Hev := fresh "Hev" in
          pose proof (writeTransactions_events f g t s) as Hev;
          destruct (writeTransactions f g t s) as [[[] ?] ?];
          cbn in Hev
      | |- _ =>
          match goal with
          | |- context [match ?x with _ => _ end] =>
              lazymatch x with
              | context [match _ with _ => _ end] => fail
              | _ => destruct x eqn:?
              end
          end
      end ].

Lemma writeBlock_events (fuel : nat) (sw : SequencerWorker)
    (myAccount : Account) (signKey : Key) (parent : Header) (s : State Env) :
  Forall (fun ev => producer_event ev = true)
    (trace (writeBlock fuel sw myAccount signKey parent s)).
Proof.
  unfold writeBlock. unfold_m. run_producer_events.
  all: repeat first
    [ by apply selector_producer_event
    | apply Forall_app_2
    | constructor; [reflexivity|]
    | constructor ].
Qed.

Lemma writeBlock_stamped (fuel : nat) (sw : SequencerWorker)
    (myAccount : Account) (signKey : Key) (parent : Header) (s : State Env) :
  stamped parent (blockTime sw)
    (List.filter stamping
       (trace (writeBlock fuel sw myAccount signKey parent s))).
Proof.
  unfold writeBlock. unfold_m. run_producer_events.
  all: rewrite ?List.filter_app; cbn.
  all: repeat match goal with
       | H : Forall (fun ev => selector_event ev = true) ?l |- _ =>
           rewrite (view_none stamping l (selector_not_stamping l H));
           clear H
       end; cbn.
  all: first [ by apply stamped_no_header
             | by apply stamped_interval
             | by apply stamped_clock ].
Qed.

Lemma readings_view (tr : list Event) :
  readings (List.filter stamping tr) = readings tr.
Proof.
  unfold readings. induction tr as [|ev tr IH]; [reflexivity|].
  destruct ev; cbn; rewrite ?IH; reflexivity.
Qed.

Lemma header_time (ts interval : Z) :
  0 <= ts < 2 ^ 62 -> 0 <= interval ->
  time.Add (time.Unix (wrap_int64 ts) 0) interval =
  time.mkTime (ts + interval / time.Second) (interval mod time.Second).
Proof.
  intros Hts Hi. rewrite wrap_int64_small by lia.
  unfold time.Unix, time.Add, time.Second. cbn [time.sec time.nsec].
  rewrite Z.quot_div_nonneg, Z.rem_mod_nonneg by lia.
  pose proof (Z.mod_pos_bound interval 1000000000 ltac:(lia)) as Hm.
  replace (0 <? 0) with false by reflexivity.
  replace (1000000000 <=? 0) with false by reflexivity.
  cbn [orb time.sec time.nsec]. rewrite Z.add_0_l.
  destruct (1000000000 <=? interval mod 1000000000) eqn:H1;
    [apply Z.leb_le in H1; lia|].
  destruct (interval mod 1000000000 <? 0) eqn:H2;
    [apply Z.ltb_lt in H2; lia|].
  rewrite ?Z.quot_div_nonneg by lia. reflexivity.
Qed.

(** C7, as the code has it.  For a parent timestamp below [2 ^ 62], an
    interval that is a non-negative int64 and a clock that gives
    well-formed instants and does not run backwards, the header the
    producer stamps has, in whole seconds, the timestamp
    max(current time, parent timestamp + interval), the current time
    being one of the clock readings of the run; it is strictly greater
    than the parent's timestamp whenever the interval is at least one
    second. *)
Theorem writeBlock_timestamp
    (fuel : nat) (sw : SequencerWorker) (myAccount : Account)
    (signKey : Key) (parent : Header) (s : State Env)
    (h : Header) (vs : list Address) (res : Header * option error) :
  let r := writeBlock fuel sw myAccount signKey parent s in
  In (EvAssignExtraValidators h vs res) (trace r) ->
  0 <= Timestamp parent < 2 ^ 62 ->
  0 <= blockTime sw < 2 ^ 63 ->
  clock_sane (trace r) ->
  exists now,
    In (EvNow now) (trace r) /\
    Timestamp h =
      Z.max (time.Time_Unix now)
            (Timestamp parent + blockTime sw / time.Second) /\
    (time.Second <= blockTime sw -> Timestamp parent < Timestamp h).
Proof.
  intros r Hin Hts Hbt [Hwf Hsorted].
  pose proof (writeBlock_stamped fuel sw myAccount signKey parent s)
    as Hst. fold r in Hst.
  apply (In_view stamping) in Hin; [|reflexivity].
  rewrite <- readings_view in Hwf, Hsorted.
  assert (Hq : 0 <= blockTime sw / time.Second < 2 ^ 34).
  { unfold time.Second. split.
    - apply Z.div_pos; lia.
    - apply Z.div_lt_upper_bound; lia. }
  assert (Hq1 : time.Second <= blockTime sw ->
                1 <= blockTime sw / time.Second).
  { unfold time.Second. intros H1.
    apply Z.div_le_lower_bound; lia. }
  pose proof (fun x => view_In stamping x (trace r)) as Hback.
  revert Hback Hin Hwf Hsorted.
  destruct Hst as [now0|now0 now1 h0 vs0 res0 Hbefore Hstamp
                  |now0 now1 now2 h0 vs0 res0 Hbefore Hstamp];
    intros Hback Hin Hwf Hsorted; cbn in Hin.
  - intuition discriminate.
  - destruct Hin as [Hin|[Hin|[Hin|[]]]]; try discriminate Hin.
    injection Hin as -> _ _.
    rewrite header_time in Hbefore, Hstamp by lia.
    unfold time.Time_Unix in *. cbn [time.sec time.nsec] in *.
    rewrite wrap_uint64_small in Hstamp by lia.
    unfold time.Before in Hbefore. cbn [time.sec time.nsec] in Hbefore.
    apply orb_false_elim in Hbefore as [Hlt _].
    apply Z.ltb_ge in Hlt.
    exists now1. split; [|split].
    + apply Hback. cbn. tauto.
    + lia.
    + intros H1. specialize (Hq1 H1). lia.
  - destruct Hin as [Hin|[Hin|[Hin|[Hin|[]]]]]; try discriminate Hin.
    injection Hin as -> _ _.
    rewrite header_time in Hbefore by lia.
    cbn in Hwf, Hsorted.
    apply Forall_cons in Hwf as [_ Hwf].
    apply Forall_cons in Hwf as [_ Hwf].
    apply Forall_cons in Hwf as [[Hsec _] _].
    apply StronglySorted_inv in Hsorted as [Hsorted _].
    apply StronglySorted_inv in Hsorted as [_ Hle].
    apply Forall_cons in Hle as [Hle _].
    unfold time.Time_Unix in *.
    rewrite wrap_uint64_small in Hstamp by lia.
    unfold time.Before in Hbefore. cbn [time.sec time.nsec] in Hbefore.
    assert (Hh : Timestamp parent + blockTime sw / time.Second
                 <= time.sec now1).
    { apply orb_true_iff in Hbefore as [Hb|Hb].
      - apply Z.ltb_lt in Hb. lia.
      - apply andb_true_iff in Hb as [Hb _]. apply Z.eqb_eq in Hb. lia. }
    assert (Hn : time.sec now1 <= time.sec now2).
    { destruct Hle as [Hle|[Hle _]]; lia. }
    exists now2. split; [|split].
    + apply Hback. cbn. tauto.
    + lia.
    + intros H1. specialize (Hq1 H1). lia.
Qed.

End ProducerFacts.

(** ** One tick *)

Section TickFacts.
Context {Env : Type} {C : Collaborators Env}.

Arguments writeBlock : simpl never.
Arguments settle : simpl never.

Lemma elect_election (fuel : nat) (sw : SequencerWorker) (account : Account)
    (key : Key) (s : State Env) :
  election sw (trace (elect fuel sw account key s))
              (outcome (elect fuel sw account key s)).
Proof.
  unfold elect. unfold_m. cbn.
  destruct (querier_Contains _ _ _) as [[staked [e|]] e1]; cbn.
  { apply el_staked_query_failed. }
  destruct staked; cbn; [|apply el_not_staked].
  destruct (querier_Get _ _) as [[sequencers [e|]] e2]; cbn.
  { apply el_set_query_failed. }
  destruct sequencers as [|first others]; cbn; [apply el_empty_set|].
  destruct (bytes_Equal _ _) eqn:Hturn; cbn; [|by apply el_follow].
  pose proof (writeBlock_events fuel sw account key (blockchain_Header e2)
                (mkState e2 (t_value s))) as Hev.
  pose proof (writeBlock_production fuel sw account key
                (blockchain_Header e2) (mkState e2 (t_value s))) as Hprod.
  destruct (writeBlock _ _ _ _ _ _) as [[o s3] produced]. cbn in Hev, Hprod.
  pose proof (el_lead sw first others (blockchain_Header e2) produced o
                Hturn Hev Hprod) as Hlead.
  destruct o as [[e|]| | |]; cbn in *; rewrite ?app_nil_r in *; exact Hlead.
Qed.

Lemma write_extracted_run (sw : SequencerWorker) (edgeBlks : list Block) :
  forall s : State Env,
  exists results,
    length results = length edgeBlks /\
    outcome (write_extracted sw edgeBlks s) = Done tt /\
    t_value (final (write_extracted sw edgeBlks s)) = t_value s /\
    trace (write_extracted sw edgeBlks s) =
      zip_with (fun b res => EvWriteBlock b (String (nodeType sw)) res)
               edgeBlks results.
Proof.
  induction edgeBlks as [|b rest IH]; intros s.
  - exists []. by cbn.
  - cbn [write_extracted]. unfold_m.
    destruct (blockchain_WriteBlock _ _ _) as [res e1]. cbn.
    destruct (IH (mkState e1 (t_value s))) as (results & Hlen & Ho & Ht & Htr).
    unfold_m.
    destruct (write_extracted sw rest _) as [[o s2] tr]. cbn in *.
    subst o tr. exists (res :: results). cbn. by rewrite Hlen.
Qed.

Lemma settle_shape (fuel : nat) (sw : SequencerWorker) (account : Account)
    (key : Key) (edgeBlks : list Block) (s : State Env) :
  exists results flag,
    length results = length edgeBlks /\
    ((exists e,
        trace (settle fuel sw account key edgeBlks s) =
          zip_with (fun b res => EvWriteBlock b (String (nodeType sw)) res)
                   edgeBlks results
          ++ [EvCheckAndSetFraudBlock edgeBlks;
              EvCheckAndSlash (flag, Some e)] /\
        outcome (settle fuel sw account key edgeBlks s) = Done tt) \/
     (exists elected,
        trace (settle fuel sw account key edgeBlks s) =
          zip_with (fun b res => EvWriteBlock b (String (nodeType sw)) res)
                   edgeBlks results
          ++ [EvCheckAndSetFraudBlock edgeBlks;
              EvCheckAndSlash (flag, None)] ++ elected /\
        election sw elected
          (outcome (settle fuel sw account key edgeBlks s)))).
Proof.
  unfold settle. unfold_m.
  destruct (write_extracted_run sw edgeBlks s)
    as (results & Hlen & Ho & _ & Htr).
  unfold_m.
  destruct (write_extracted sw edgeBlks s) as [[o s2] tr]. cbn in *.
  subst o tr. cbn.
  destruct (fraudResolver_CheckAndSlash _) as [[flag [e|]] e3]; cbn.
  - exists results, flag. split; [assumption|]. left. exists e. by cbn.
  - exists results, flag. split; [assumption|]. right.
    pose proof (elect_election fuel sw account key
                  (mkState e3 (t_value s2))) as Hel.
    unfold_m.
    destruct (elect _ _ _ _ _) as [[o s4] elected]. cbn in *.
    exists elected. split; [reflexivity|assumption].
Qed.

Lemma tick_shape (fuel : nat) (sw : SequencerWorker) (account : Account)
    (key : Key) (callIdx : CallIndex) (blk : SignedBlock) (s : State Env) :
  let extracted := block_FromAvail blk (availAppID sw) callIdx (env s) in
  tick_run sw blk extracted.1 extracted.2
    (trace (tick fuel sw account key callIdx blk s))
    (outcome (tick fuel sw account key callIdx blk s)).
Proof.
  cbn zeta. unfold tick. unfold_m. cbn.
  destruct (block_FromAvail _ _ _ _) as [edgeBlks err]. cbn.
  assert (Hgo : forall (s1 : State Env) (logged : list Event),
    ~ extraction_failed edgeBlks err ->
    logged = (if (length edgeBlks =? 0)%nat && bool_decide (err ≠ None)
              then [EvLog LvlError extract_msg] else []) ->
    tick_run sw blk edgeBlks err
      (EvStore (wrap_int64 (BlockNumber blk))
       :: EvFromAvail blk (edgeBlks, err)
       :: logged ++ trace (settle fuel sw account key edgeBlks s1))
      (outcome (settle fuel sw account key edgeBlks s1))).
  { intros s1 logged Hok ->.
    destruct (settle_shape fuel sw account key edgeBlks s1)
      as (results & flag & Hlen & [(e & -> & ->) | (elected & -> & Hel)]).
    - pose proof (tick_slash_failed sw blk edgeBlks err results flag e
                    Hok Hlen) as H.
      unfold extraction in H. cbn in H. rewrite <- app_assoc in H. exact H.
    - pose proof (tick_elected sw blk edgeBlks err results flag elected _
                    Hok Hlen Hel) as H.
      unfold extraction in H. cbn in H. rewrite <- app_assoc in H. exact H. }
  destruct edgeBlks as [|b rest]; cbn [length Nat.eqb andb].
  - destruct err as [e|]; cbn.
    + destruct (decide (e = ErrNoExtrinsicFound)) as [->|Hne]; cbn.
      * rewrite bool_decide_eq_false_2 by (intros H; by apply H).
        specialize (Hgo (mkState (env s) (wrap_int64 (BlockNumber blk)))
                        [EvLog LvlError extract_msg]).
        destruct (settle _ _ _ _ _ _) as [[o s2] tr]. destruct o; cbn in *;
          apply Hgo; try reflexivity; intros (_ & _ & H); by apply H.
      * rewrite bool_decide_eq_true_2 by congruence. cbn.
        apply tick_extraction_failed. repeat split; congruence.
    + specialize (Hgo (mkState (env s) (wrap_int64 (BlockNumber blk))) []).
      destruct (settle _ _ _ _ _ _) as [[o s2] tr]. destruct o; cbn in *;
        apply Hgo; try reflexivity; intros (_ & H & _); by apply H.
  - specialize (Hgo (mkState (env s) (wrap_int64 (BlockNumber blk))) []).
    destruct (settle _ _ _ _ _ _) as [[o s2] tr]. destruct o; cbn in *;
      apply Hgo; try reflexivity; intros (H & _); discriminate H.
Qed.

(** *** What a tick's trace is made of *)

Lemma extraction_view (p : Event -> bool) (sw : SequencerWorker)
    (blk : SignedBlock) (edgeBlks : list Block) (err : option error)
    (results : list (option error)) :
  (forall lvl msg, p (EvLog lvl msg) = false) ->
  (forall b source res, p (EvWriteBlock b source res) = false) ->
  List.filter p (extraction sw blk edgeBlks err results) =
  List.filter p [EvStore (wrap_int64 (BlockNumber blk));
                 EvFromAvail blk (edgeBlks, err)].
Proof.
  intros Hlog Hwrite. unfold extraction.
  change (?a :: ?b :: ?l) with ([a; b] ++ l).
  rewrite List.filter_app, List.filter_app.
  rewrite (view_none p (zip_with _ _ _)).
  - destruct (_ && _); cbn; rewrite ?Hlog, ?app_nil_r; reflexivity.
  - revert results. induction edgeBlks as [|b rest IH]; intros [|res results];
      cbn; constructor; [apply Hwrite|apply IH].
Qed.

(** After a tick that ran to its end, the loop takes the next item. *)
Lemma Run_loop_next (fuel : nat) (sw : SequencerWorker) (account : Account)
    (key : Key) (callIdx : CallIndex) (blk : SignedBlock)
    (more : list Select) (s : State Env) :
  let r := tick fuel sw account key callIdx blk s in
  let after := Run_loop fuel sw account key callIdx more (final r) in
  outcome r = Done tt ->
  trace (Run_loop fuel sw account key callIdx (RecvBlock blk :: more) s)
    = trace r ++ trace after /\
  outcome (Run_loop fuel sw account key callIdx (RecvBlock blk :: more) s)
    = outcome after /\
  final (Run_loop fuel sw account key callIdx (RecvBlock blk :: more) s)
    = final after.
Proof.
  cbn zeta. cbn [Run_loop]. unfold_m.
  destruct (tick _ _ _ _ _ _ _) as [[o s1] tr]. cbn. intros ->.
  destruct (Run_loop _ _ _ _ _ _ _) as [[o2 s2] tr2]. by cbn.
Qed.

(** C9.  Whenever extraction yields at least one settlement block,
    whatever error comes with it, the tick writes every extracted block
    to the chain storage, in order and whatever each write returns, and
    only then calls [CheckAndSetFraudBlock] and [CheckAndSlash]. *)
Theorem tick_writes_extracted_blocks_first
    (fuel : nat) (sw : SequencerWorker) (account : Account) (key : Key)
    (callIdx : CallIndex) (blk : SignedBlock) (s : State Env)
    (edgeBlks : list Block) (err : option error) :
  block_FromAvail blk (availAppID sw) callIdx (env s) = (edgeBlks, err) ->
  edgeBlks <> [] ->
  exists results slashed rest,
    length results = length edgeBlks /\
    trace (tick fuel sw account key callIdx blk s) =
      EvStore (wrap_int64 (BlockNumber blk))
      :: EvFromAvail blk (edgeBlks, err)
      :: zip_with (fun b res => EvWriteBlock b (String (nodeType sw)) res)
                  edgeBlks results
      ++ EvCheckAndSetFraudBlock edgeBlks
      :: EvCheckAndSlash slashed :: rest.
Proof.
  intros Hext Hne.
  pose proof (tick_shape fuel sw account key callIdx blk s) as Hshape.
  cbn zeta in Hshape. rewrite Hext in Hshape. cbn [fst snd] in Hshape.
  assert (Hlen : (length edgeBlks =? 0)%nat = false).
  { destruct edgeBlks; [done|reflexivity]. }
  destruct Hshape as [(Hnil & _)|results flag e _ Hres
                     |results flag elected o _ Hres _]; [done| |].
  - exists results, (flag, Some e), []. split; [assumption|].
    unfold extraction. rewrite Hlen. reflexivity.
  - exists results, (flag, None), elected. split; [assumption|].
    unfold extraction. rewrite Hlen. reflexivity.
Qed.

(** C5, as the code has it.  When extraction yields no block and the
    not-found condition, the tick logs the extraction error at error
    severity, writes no block, and goes on with the fraud resolver and,
    if [CheckAndSlash] succeeds, with the leader check; when the tick runs
    to its end the loop takes the next DA block. *)
Theorem tick_not_found_logs_and_goes_on
    (fuel : nat) (sw : SequencerWorker) (account : Account) (key : Key)
    (callIdx : CallIndex) (blk : SignedBlock) (s : State Env) :
  block_FromAvail blk (availAppID sw) callIdx (env s)
    = ([], Some ErrNoExtrinsicFound) ->
  let r := tick fuel sw account key callIdx blk s in
  (exists slashed rest,
     trace r =
       [EvStore (wrap_int64 (BlockNumber blk));
        EvFromAvail blk ([], Some ErrNoExtrinsicFound);
        EvLog LvlError extract_msg;
        EvCheckAndSetFraudBlock [];
        EvCheckAndSlash slashed] ++ rest /\
     match slashed.2 with
     | Some _ => rest = [] /\ outcome r = Done tt
     | None => election sw rest (outcome r)
     end) /\
  (forall more,
     outcome r = Done tt ->
     trace (Run_loop fuel sw account key callIdx (RecvBlock blk :: more) s)
       = trace r
         ++ trace (Run_loop fuel sw account key callIdx more (final r))).
Proof.
  intros Hext r. split.
  - pose proof (tick_shape fuel sw account key callIdx blk s) as Hshape.
    cbn zeta in Hshape. rewrite Hext in Hshape. cbn [fst snd] in Hshape.
    fold r in Hshape.
    destruct Hshape as [(_ & _ & Hnf)|results flag e _ Hres
                       |results flag elected o _ Hres Hel]; [done| |].
    + destruct results; [|discriminate Hres].
      exists (flag, Some e), []. by cbn.
    + destruct results; [|discriminate Hres].
      exists (flag, None), elected. by cbn.
  - intros more Hdone.
    by destruct (Run_loop_next fuel sw account key callIdx blk more s Hdone)
      as (Htr & _).
Qed.

Lemma producer_not_leader_check (tr : list Event) :
  Forall (fun ev => producer_event ev = true) tr ->
  Forall (fun ev => leader_check ev = false) tr.
Proof.
  intros H. eapply Forall_impl; [exact H|].
  intros ev Hev. by destruct ev.
Qed.

Lemma producer_not_gate (tr : list Event) :
  Forall (fun ev => producer_event ev = true) tr ->
  Forall (fun ev => gate ev = false) tr.
Proof.
  intros H. eapply Forall_impl; [exact H|].
  intros ev Hev. by destruct ev.
Qed.

Lemma mined_view (p : Event -> bool) (o : Outcome (option error)) :
  (forall lvl msg, p (EvLog lvl msg) = false) ->
  List.filter p (mined o).1 = [].
Proof. intros Hlog. destruct o as [[e|]| | |]; cbn; by rewrite ?Hlog. Qed.

Lemma mined_no_panic (source : string) (view : list Event)
    (o : Outcome (option error)) :
  production source view o -> forall msg, (mined o).2 <> Panic msg.
Proof. destruct 1; discriminate. Qed.

Lemma tick_leader_view (fuel : nat) (sw : SequencerWorker)
    (account : Account) (key : Key) (callIdx : CallIndex)
    (blk : SignedBlock) (s : State Env) :
  leader_view sw
    (List.filter leader_check (trace (tick fuel sw account key callIdx blk s)))
    (outcome (tick fuel sw account key callIdx blk s)).
Proof.
  pose proof (tick_shape fuel sw account key callIdx blk s) as Hshape.
  cbn zeta in Hshape.
  destruct Hshape as [Hfail|results flag e Hok Hres
                     |results flag elected o Hok Hres Hel].
  - apply lv_cut_short.
  - rewrite List.filter_app, extraction_view by done. apply lv_cut_short.
  - rewrite !List.filter_app, extraction_view by done. cbn.
    destruct Hel as [flag' e| |l e| |first others Hturn
                    |first others h produced o Hturn Hev Hprod].
    + apply lv_staked_query_failed.
    + apply lv_not_staked.
    + apply lv_set_query_failed.
    + apply lv_empty_set.
    + by apply lv_follow.
    + cbn. rewrite List.filter_app, mined_view by done.
      rewrite (view_none leader_check produced)
        by (by apply producer_not_leader_check).
      apply lv_lead; [assumption|]. eapply mined_no_panic; eassumption.
Qed.

Lemma tick_gate_view (fuel : nat) (sw : SequencerWorker)
    (account : Account) (key : Key) (callIdx : CallIndex)
    (blk : SignedBlock) (s : State Env) :
  let extracted := block_FromAvail blk (availAppID sw) callIdx (env s) in
  gate_view sw blk extracted.1 extracted.2
    (trace (tick fuel sw account key callIdx blk s))
    (outcome (tick fuel sw account key callIdx blk s)).
Proof.
  pose proof (tick_shape fuel sw account key callIdx blk s) as Hshape.
  cbn zeta in *.
  destruct (block_FromAvail _ _ _ _) as [edgeBlks err]. cbn [fst snd] in *.
  destruct Hshape as [Hfail|results flag e Hok Hres
                     |results flag elected o Hok Hres Hel].
  - by apply gv_extraction_failed.
  - apply (gv_slash_failed _ _ _ _ _ _ flag e
             (extraction sw blk edgeBlks err results
              ++ [EvCheckAndSetFraudBlock edgeBlks])); try done.
    + by rewrite List.filter_app, extraction_view.
    + by rewrite <- app_assoc.
  - assert (Hview : exists res,
              List.filter gate elected = [EvContains (nodeAddr sw) res]).
    { destruct Hel as [flag' e| |l e| |first others Hturn
                      |first others h produced o Hturn Hev Hprod];
        try (eexists; reflexivity).
      cbn. rewrite List.filter_app, mined_view by done.
      rewrite (view_none gate produced) by (by apply producer_not_gate).
      eexists; reflexivity. }
    destruct Hview as [res Hview].
    apply (gv_staking_checked _ _ _ _ _ _ flag res); [assumption|].
    rewrite !List.filter_app, extraction_view, Hview by done. reflexivity.
Qed.

(** C6, as the code has it.  When [CheckAndSlash] returns an error the
    tick ends there: nothing else of the tick runs and the loop takes the
    next DA block.  The staking check is skipped in exactly two cases:
    that one, and an extraction that gave no block and an error other
    than not-found. *)
Theorem tick_short_circuits
    (fuel : nat) (sw : SequencerWorker) (account : Account) (key : Key)
    (callIdx : CallIndex) (blk : SignedBlock) (s : State Env) :
  let r := tick fuel sw account key callIdx blk s in
  (forall flag e,
      In (EvCheckAndSlash (flag, Some e)) (trace r) ->
      outcome r = Done tt /\
      (exists pre, trace r = pre ++ [EvCheckAndSlash (flag, Some e)]) /\
      (forall more,
         trace (Run_loop fuel sw account key callIdx
                         (RecvBlock blk :: more) s)
         = trace r
           ++ trace (Run_loop fuel sw account key callIdx more (final r))))
  /\
  ((forall a res, ~ In (EvContains a res) (trace r)) <->
   (exists flag e, In (EvCheckAndSlash (flag, Some e)) (trace r)) \/
   (exists e, e <> ErrNoExtrinsicFound /\
              In (EvFromAvail blk ([], Some e)) (trace r))).
Proof.
  intros r.
  pose proof (tick_gate_view fuel sw account key callIdx blk s) as Hview.
  cbn zeta in Hview. fold r in Hview.
  destruct (block_FromAvail _ _ _ _) as [edgeBlks err]. cbn [fst snd] in *.
  assert (Hin : forall ev, gate ev = true ->
                In ev (trace r) <-> In ev (List.filter gate (trace r))).
  { intros ev Hev. split; [intros H; by apply In_view|apply view_In]. }
  split.
  - intros flag e Hslash. apply Hin in Hslash; [|reflexivity].
    destruct Hview as [Hfail Hv Ho|flag' e' pre Hok Hv Htr Ho|flag' res Hok Hv];
      rewrite Hv in Hslash; cbn in Hslash.
    + intuition discriminate.
    + destruct Hslash as [H|[H|[]]]; [discriminate H|].
      injection H as -> ->. split; [assumption|]. split; [eauto|].
      intros more.
      by destruct (Run_loop_next fuel sw account key callIdx blk more s Ho).
    + intuition discriminate.
  - split.
    + intros Hnone.
      destruct Hview as [Hfail Hv Ho|flag' e' pre Hok Hv Htr Ho|flag' res Hok Hv].
      * right. destruct Hfail as (-> & Hsome & Hnf).
        destruct err as [e|]; [|done]. exists e. split; [congruence|].
        apply Hin; [reflexivity|]. rewrite Hv. by left.
      * left. exists flag', e'. apply Hin; [reflexivity|].
        rewrite Hv. cbn. tauto.
      * exfalso. apply (Hnone (nodeAddr sw) res).
        apply Hin; [reflexivity|]. rewrite Hv. cbn. tauto.
    + intros Hcut a res Hc. apply Hin in Hc; [|reflexivity].
      destruct Hview as [Hfail Hv Ho|flag' e' pre Hok Hv Htr Ho|flag' res' Hok Hv];
        rewrite Hv in Hc; cbn in Hc; try (intuition discriminate).
      destruct Hcut as [(flag & e & Hs)|(e & Hne & Hf)].
      * apply Hin in Hs; [|reflexivity]. rewrite Hv in Hs. cbn in Hs.
        intuition discriminate.
      * apply Hin in Hf; [|reflexivity]. rewrite Hv in Hf. cbn in Hf.
        destruct Hf as [Hf|[Hf|[Hf|[]]]]; try discriminate Hf.
        injection Hf as -> ->. apply Hok. repeat split; congruence.
Qed.

Lemma leader_view_order (sw : SequencerWorker) (v : list Event)
    (o : Outcome unit) :
  leader_view sw v o ->
  (forall a flag e,
      In (EvContains a (flag, Some e)) v ->
      o = Done tt /\ (forall res, ~ In (EvGet res) v) /\
      ~ (exists h, In (EvHeader h) v)) /\
  (forall a,
      In (EvContains a (false, None)) v ->
      o = Done tt /\ (forall res, ~ In (EvGet res) v) /\
      ~ (exists h, In (EvHeader h) v)) /\
  (forall vpre res vpost,
      v = vpre ++ EvGet res :: vpost ->
      In (EvContains (nodeAddr sw) (true, None)) vpre) /\
  (forall l e,
      In (EvGet (l, Some e)) v ->
      o = Done tt /\ ~ (exists h, In (EvHeader h) v)) /\
  (In (EvGet ([], None)) v ->
      o = Panic "no staked sequencers" /\ ~ (exists h, In (EvHeader h) v)) /\
  (forall msg, o = Panic msg -> In (EvGet ([], None)) v) /\
  (forall first others,
      In (EvGet (first :: others, None)) v ->
      ((exists h, In (EvHeader h) v) <-> Bytes first = Bytes (nodeAddr sw))).
Proof.
  intros Hview. repeat split.
  7: { intros vpre res vpost Hs.
       destruct Hview; repeat split_head Hs;
         try (exfalso; exact (app_cons_not_nil _ _ _ Hs)); by left. }
  all: unfold not; intros;
    repeat match goal with H : exists _, _ |- _ => destruct H end;
    destruct Hview; cbn in *;
    repeat match goal with
           | H : _ \/ _ |- _ => destruct H
           | H : False |- _ => destruct H
           end;
    simplify_eq; try done; try (left; done); try (right; left; done);
    try (exfalso;
         match goal with
         | H : forall m, Panic ?x <> Panic m |- _ => exact (H x eq_refl)
         end).
  all: unfold bytes_Equal in *.
  - by apply (bool_decide_eq_true_1 _).
  - exfalso.
    match goal with
    | H : bool_decide _ = false |- _ =>
        rewrite bool_decide_eq_true_2 in H by done; discriminate H
    end.
  - exists h. cbn. tauto.
Qed.

(** C2, as the code has it.  The leader check of a tick runs in this
    order.  First the staked-status query: when it fails, the tick is
    skipped; when the node is not staked, production is skipped; in both
    cases the active set is not even queried.  Then the active-set query,
    made only once the node was found staked: when it fails, the tick is
    skipped; when the set is empty, the process panics, and that is the
    only panic of a tick.  Otherwise the node produces a block if and
    only if the first address of the set is its own. *)
Theorem tick_leader_check_order
    (fuel : nat) (sw : SequencerWorker) (account : Account) (key : Key)
    (callIdx : CallIndex) (blk : SignedBlock) (s : State Env) :
  let r := tick fuel sw account key callIdx blk s in
  (forall a flag e,
      In (EvContains a (flag, Some e)) (trace r) ->
      outcome r = Done tt /\ (forall res, ~ In (EvGet res) (trace r)) /\
      ~ produces (trace r)) /\
  (forall a,
      In (EvContains a (false, None)) (trace r) ->
      outcome r = Done tt /\ (forall res, ~ In (EvGet res) (trace r)) /\
      ~ produces (trace r)) /\
  (forall pre res post,
      trace r = pre ++ EvGet res :: post ->
      In (EvContains (nodeAddr sw) (true, None)) pre) /\
  (forall l e,
      In (EvGet (l, Some e)) (trace r) ->
      outcome r = Done tt /\ ~ produces (trace r)) /\
  (In (EvGet ([], None)) (trace r) ->
      outcome r = Panic "no staked sequencers" /\ ~ produces (trace r)) /\
  (forall msg, outcome r = Panic msg -> In (EvGet ([], None)) (trace r)) /\
  (forall first others,
      In (EvGet (first :: others, None)) (trace r) ->
      (produces (trace r) <-> Bytes first = Bytes (nodeAddr sw))).
Proof.
  intros r.
  pose proof (leader_view_order sw _ _
                (tick_leader_view fuel sw account key callIdx blk s))
    as (H1 & H2 & H3 & H4 & H5 & H6 & H7).
  fold r in H1, H2, H3, H4, H5, H6, H7.
  assert (Hin : forall ev, leader_check ev = true ->
            In ev (trace r) -> In ev (List.filter leader_check (trace r))).
  { intros ev Hev H. by apply In_view. }
  assert (Hget : forall res, ~ In (EvGet res)
                               (List.filter leader_check (trace r)) ->
                             ~ In (EvGet res) (trace r)).
  { intros res Hn H. apply Hn. by apply Hin. }
  assert (Hprod : produces (trace r) <->
            exists h, In (EvHeader h) (List.filter leader_check (trace r))).
  { unfold produces. split; intros [h H]; exists h.
    - by apply Hin.
    - by apply (view_In leader_check). }
  repeat split.
  - by apply (H1 a flag e), Hin.
  - intros res. by apply Hget, (H1 a flag e), Hin.
  - rewrite Hprod. by apply (H1 a flag e), Hin.
  - by apply (H2 a), Hin.
  - intros res. by apply Hget, (H2 a), Hin.
  - rewrite Hprod. by apply (H2 a), Hin.
  - intros pre res post Hs. apply (view_In leader_check).
    apply (H3 _ res (List.filter leader_check post)).
    by apply view_split.
  - by apply (H4 l e), Hin.
  - rewrite Hprod. by apply (H4 l e), Hin.
  - by apply H5, Hin.
  - rewrite Hprod. by apply H5, Hin.
  - intros msg Hmsg. apply (view_In leader_check). by apply (H6 msg).
  - rewrite Hprod. by apply (H7 first others), Hin.
  - rewrite Hprod. by apply (H7 first others), Hin.
Qed.

End TickFacts.

(** ** The recorded tick *)

Section TickValue.
Context {Env : Type} {C : Collaborators Env}.

Lemma keeps_ret {A} (a : A) : keeps_t (mret a : M Env A).
Proof. by intros s. Qed.

Lemma keeps_bind {A B} (m : M Env A) (f : A -> M Env B) :
  keeps_t m -> (forall a, keeps_t (f a)) -> keeps_t (m ≫= f).
Proof.
  intros Hm Hf s. specialize (Hm s). unfold_m.
  destruct (m s) as [[[a| | |] s1] tr1]; cbn in *; try assumption.
  specialize (Hf a s1). unfold_m.
  destruct (f a s1) as [[o s2] tr2]. cbn in *. congruence.
Qed.

Lemma keeps_call {R} (op : Env -> R * Env) (ev : R -> Event) :
  keeps_t (call op ev).
Proof. intros s. unfold_m. by destruct (op (env s)). Qed.

Lemma keeps_exec (op : Env -> Env) (ev : Event) : keeps_t (exec op ev).
Proof. by intros s. Qed.

Lemma keeps_read {R} (f : Env -> R) : keeps_t (read f).
Proof. by intros s. Qed.

Lemma keeps_query {R} (f : Env -> R) (ev : R -> Event) : keeps_t (query f ev).
Proof. by intros s. Qed.

Lemma keeps_emit (ev : Event) : keeps_t (emit (Env:=Env) ev).
Proof. by intros s. Qed.

Lemma keeps_panic {A} (msg : string) : keeps_t (panic msg : M Env A).
Proof. by intros s. Qed.

Lemma keeps_hang {A} : keeps_t (hang : M Env A).
Proof. by intros s. Qed.

Lemma keeps_out_of_fuel {A} : keeps_t (out_of_fuel : M Env A).
Proof. by intros s. Qed.

Lemma keeps_t_Load : keeps_t (t_Load (Env:=Env)).
Proof. by intros s. Qed.

(** Decompose a computation along its binds and case distinctions. *)
Ltac keeps_with known :=
  repeat first
    [ known
    | apply keeps_ret | apply keeps_call | apply keeps_exec
    | apply keeps_read | apply keeps_query | apply keeps_emit
    | apply keeps_panic | apply keeps_hang | apply keeps_out_of_fuel
    | apply keeps_t_Load
    | assumption
    | apply keeps_bind; [|intros ?]
    | progress cbv zeta
    | match goal with
      | |- keeps_t (match ?x with _ => _ end) => destruct x
      end ].

Ltac keeps := keeps_with fail.

Lemma keeps_writeTransactions_loop {T} {TI : transitionInterface Env T}
    (fuel : nat) :
  forall (gasLimit : Z) (transition : T) (acc : list Transaction),
    keeps_t (writeTransactions_loop fuel gasLimit transition acc).
Proof.
  induction fuel as [|fuel IH]; intros gasLimit transition acc;
    cbn [writeTransactions_loop]; keeps_with ltac:(apply IH).
Qed.

Lemma keeps_writeBlock (fuel : nat) (sw : SequencerWorker)
    (myAccount : Account) (signKey : Key) (parent : Header) :
  keeps_t (writeBlock fuel sw myAccount signKey parent).
Proof.
  unfold writeBlock, writeTransactions.
  keeps_with ltac:(apply keeps_writeTransactions_loop).
Qed.

Lemma keeps_elect (fuel : nat) (sw : SequencerWorker) (account : Account)
    (key : Key) : keeps_t (elect fuel sw account key).
Proof. unfold elect. keeps_with ltac:(apply keeps_writeBlock). Qed.

Lemma keeps_settle (fuel : nat) (sw : SequencerWorker) (account : Account)
    (key : Key) (edgeBlks : list Block) :
  keeps_t (settle fuel sw account key edgeBlks).
Proof.
  assert (Hwrite : keeps_t (write_extracted sw edgeBlks)).
  { induction edgeBlks as [|b rest IH]; cbn [write_extracted]; keeps. }
  unfold settle. keeps_with ltac:(apply keeps_elect).
Qed.

Lemma store_then {A} (v : Z) (f : unit -> M Env A) (s : State Env) :
  (forall u, keeps_t (f u)) ->
  t_value (final ((t_Store v ≫= f) s)) = v.
Proof.
  intros Hf. unfold_m. specialize (Hf tt (mkState (env s) v)). unfold_m.
  destruct (f tt _) as [[o s1] tr]. exact Hf.
Qed.

Lemma tick_stores_number (fuel : nat) (sw : SequencerWorker)
    (account : Account) (key : Key) (callIdx : CallIndex)
    (blk : SignedBlock) (s : State Env) :
  t_value (final (tick fuel sw account key callIdx blk s))
    = wrap_int64 (BlockNumber blk).
Proof.
  unfold tick. apply store_then. intros _.
  keeps_with ltac:(apply keeps_settle).
Qed.

(** The loop over a schedule of DA blocks only. *)
Lemma Run_loop_blocks_last (fuel : nat) (sw : SequencerWorker)
    (account : Account) (key : Key) (callIdx : CallIndex)
    (blks : list SignedBlock) (blk : SignedBlock) :
  forall s : State Env,
    outcome (Run_loop fuel sw account key callIdx (map RecvBlock blks) s)
      = Done None ->
    t_value (final (Run_loop fuel sw account key callIdx
                             (map RecvBlock (blks ++ [blk])) s))
      = wrap_int64 (BlockNumber blk).
Proof.
  induction blks as [|b rest IH]; intros s Hrun.
  - cbn [map app Run_loop].
    pose proof (tick_stores_number fuel sw account key callIdx blk s) as Ht.
    unfold_m. destruct (tick _ _ _ _ _ _ _) as [[[[]| | |] s1] tr]; exact Ht.
  - cbn [map app Run_loop] in *. unfold_m.
    destruct (tick fuel sw account key callIdx b s) as [[[[]| | |] s1] tr];
      try discriminate Hrun.
    specialize (IH s1). unfold_m.
    destruct (Run_loop fuel sw account key callIdx (map RecvBlock rest) s1)
      as [[o2 s2] tr2]; cbn in Hrun.
    specialize (IH Hrun).
    destruct (Run_loop fuel sw account key callIdx
                (map RecvBlock (rest ++ [blk])) s1) as [[o3 s3] tr3].
    exact IH.
Qed.

Lemma max_seen_last (numbers : list Z) (n : Z) :
  0 <= n -> StronglySorted Z.lt (numbers ++ [n]) ->
  max_seen (numbers ++ [n]) = n.
Proof.
  intros Hn Hs. unfold max_seen.
  induction numbers as [|m rest IH]; cbn.
  - lia.
  - cbn in Hs. apply StronglySorted_inv in Hs as [Hs Hm].
    rewrite (IH Hs).
    assert (m < n); [|lia].
    eapply Forall_forall in Hm; [exact Hm|].
    apply elem_of_app. right. by left.
Qed.

(** C8.  Take any strictly increasing sequence of DA block numbers (each
    a uint32) that the worker consumes.  After the block that ends the
    sequence has been processed, whatever the tick did, the recorded
    value of [t] is that block's number, and it is the largest number
    seen so far. *)
Theorem Run_loop_records_latest_tick
    (fuel : nat) (sw : SequencerWorker) (account : Account) (key : Key)
    (callIdx : CallIndex) (blks : list SignedBlock) (blk : SignedBlock)
    (s : State Env) :
  Forall is_uint32 (map BlockNumber (blks ++ [blk])) ->
  StronglySorted Z.lt (map BlockNumber (blks ++ [blk])) ->
  outcome (Run_loop fuel sw account key callIdx (map RecvBlock blks) s)
    = Done None ->
  let after := final (Run_loop fuel sw account key callIdx
                               (map RecvBlock (blks ++ [blk])) s) in
  t_value after = BlockNumber blk /\
  t_value after = max_seen (map BlockNumber (blks ++ [blk])).
Proof.
  intros Hrange Hsorted Hrun after.
  assert (Hn : is_uint32 (BlockNumber blk)).
  { eapply Forall_forall in Hrange; [exact Hrange|].
    rewrite map_app. apply elem_of_app. right. by left. }
  unfold is_uint32 in Hn.
  assert (Ht : t_value after = BlockNumber blk).
  { subst after. rewrite Run_loop_blocks_last by assumption.
    apply wrap_int64_small. lia. }
  split; [exact Ht|].
  rewrite Ht, map_app in *. cbn [map] in *.
  symmetry. apply max_seen_last; [lia|assumption].
Qed.

End TickValue.

(** ** Mechanism types *)

(** C10.  [ParseType] succeeds exactly on the four mechanism names; it
    undoes [String] on every mechanism type that exists; on any other
    string it returns the empty mechanism type and an error. *)
Theorem ParseType_inverts_String :
  (forall s : string,
      (exists m, Mechanism.ParseType s = (m, None)) <->
      s = "bootstrap-sequencer" \/ s = "sequencer" \/ s = "validator"
      \/ s = "watchtower") /\
  (forall m : Mechanism.MechanismType,
      Mechanism.MechanismExists m = true ->
      Mechanism.ParseType (Mechanism.String m) = (m, None)) /\
  (forall s : string,
      ~ (s = "bootstrap-sequencer" \/ s = "sequencer" \/ s = "validator"
         \/ s = "watchtower") ->
      Mechanism.ParseType s =
        (EmptyString,
         Some (errorString ("invalid avail mechanism type " ++ s)))).
Proof.
  assert (Hnames : forall s : string,
            s ∈ Mechanism.valid_names <->
            s = "bootstrap-sequencer" \/ s = "sequencer" \/ s = "validator"
            \/ s = "watchtower").
  { intros s. unfold Mechanism.valid_names.
    rewrite !elem_of_cons, elem_of_nil. tauto. }
  repeat split.
  - intros [m Hm]. apply Hnames. unfold Mechanism.ParseType in Hm.
    rewrite lookup_mechanismTypes in Hm.
    case_bool_decide as Hs; [assumption|discriminate Hm].
  - intros Hs. apply Hnames in Hs. exists s. unfold Mechanism.ParseType.
    rewrite lookup_mechanismTypes.
    by rewrite bool_decide_eq_true_2.
  - intros m Hm. apply MechanismExists_spec in Hm.
    unfold Mechanism.ParseType, Mechanism.String.
    rewrite lookup_mechanismTypes.
    by rewrite bool_decide_eq_true_2.
  - intros s Hs. unfold Mechanism.ParseType.
    rewrite lookup_mechanismTypes.
    rewrite bool_decide_eq_false_2; [reflexivity|].
    intros Hin. by apply Hs, Hnames.
Qed.

Lemma ParseType_inverts_String_witness :
  Mechanism.MechanismExists Mechanism.Validator = true /\
  Mechanism.ParseType (Mechanism.String Mechanism.Validator)
    = (Mechanism.Validator, None).
Proof.
  assert (H : Mechanism.MechanismExists Mechanism.Validator = true).
  { vm_compute. reflexivity. }
  split; [exact H|].
  exact (proj1 (proj2 ParseType_inverts_String) Mechanism.Validator H).
Defined.

(** ** The selector on concrete pools *)

(** C3, as the code has it.  A peeked transaction is dropped without an
    execution attempt exactly when its gas exceeds the block gas limit
    handed to the selector, whatever has been included before, and the
    loop goes on; otherwise its execution is attempted.  For the pool
    [50, 60, 5] with limit 100 and an executor that reports
    gas-limit-reached when a transaction does not fit in the gas left, the
    selector includes the transaction of 50, drops nothing, and leaves 60
    and 5 in the pool. *)
Theorem selector_drops_unattempted_over_block_limit :
  (forall (Env : Type) (C : Collaborators Env) (T : Type)
          (TI : transitionInterface Env T)
          (fuel : nat) (gasLimit : Z) (transition : T) (s : State Env)
          (pre : list Event) (tx : Transaction) (post : list Event),
      trace (writeTransactions fuel gasLimit transition s)
        = pre ++ EvPeek (Some tx) :: post ->
      ((exists rest, post = EvLog LvlDebug found_msg :: EvDrop tx :: rest)
         <-> gasLimit < Gas tx) /\
      (gasLimit < Gas tx ->
         exists rest,
           post = EvLog LvlDebug found_msg :: EvDrop tx :: rest /\
           goes_on rest (outcome (writeTransactions fuel gasLimit transition s))) /\
      (Gas tx <= gasLimit ->
         exists res rest,
           post = EvLog LvlDebug found_msg :: EvWrite tx res :: rest)) /\
  (forall fuel : nat,
      (2 <= fuel)%nat ->
      outcome (Fake.selected fuel) = Done [Fake.tx 0 50] /\
      dropped (trace (Fake.selected fuel)) = [] /\
      Fake.pool (env (final (Fake.selected fuel)))
        = [Fake.tx 1 60; Fake.tx 2 5]).
Proof.
  split.
  - intros Env C T TI fuel gasLimit transition s pre tx post Hsplit.
    exact (selector_peek_cases fuel gasLimit transition s pre tx post Hsplit).
  - intros [|[|fuel]] Hfuel; [lia|lia|].
    repeat split; vm_compute; reflexivity.
Qed.

Lemma selector_drops_unattempted_over_block_limit_witness :
  trace (Fake.selected 10)
    = [EvPrepare; EvPeek (Some (Fake.tx 0 50)); EvLog LvlDebug found_msg;
       EvWrite (Fake.tx 0 50) None; EvPop (Fake.tx 0 50)]
      ++ EvPeek (Some (Fake.tx 1 60))
      :: [EvLog LvlDebug found_msg;
          EvWrite (Fake.tx 1 60)
            (Some (GasLimitReachedTransitionApplicationError
                     "gas limit reached"));
          EvLog LvlWarn full_msg] /\
  Gas (Fake.tx 1 60) <= 100 /\
  exists res rest,
    [EvLog LvlDebug found_msg;
     EvWrite (Fake.tx 1 60)
       (Some (GasLimitReachedTransitionApplicationError "gas limit reached"));
     EvLog LvlWarn full_msg]
    = EvLog LvlDebug found_msg :: EvWrite (Fake.tx 1 60) res :: rest.
Proof.
  assert (Htrace : trace (Fake.selected 10)
    = [EvPrepare; EvPeek (Some (Fake.tx 0 50)); EvLog LvlDebug found_msg;
       EvWrite (Fake.tx 0 50) None; EvPop (Fake.tx 0 50)]
      ++ EvPeek (Some (Fake.tx 1 60))
      :: [EvLog LvlDebug found_msg;
          EvWrite (Fake.tx 1 60)
            (Some (GasLimitReachedTransitionApplicationError
                     "gas limit reached"));
          EvLog LvlWarn full_msg]).
  { vm_compute. reflexivity. }
  assert (Hgas : Gas (Fake.tx 1 60) <= 100).
  { cbn. lia. }
  split; [exact Htrace|]. split; [exact Hgas|].
  exact (proj2 (proj2 (proj1 selector_drops_unattempted_over_block_limit
           Fake.World Fake.collaborators unit Fake.transitions
           10%nat 100 tt (Fake.start Fake.calm) _ _ _ Htrace)) Hgas).
Defined.

(** The scenario of C3 on the code: when the transaction of 60 is peeked,
    50 of the 100 gas are taken, so it exceeds what remains; the selector
    does not drop it but attempts it, the executor reports the block full,
    and the selection ends with only the first transaction included. *)
Lemma selector_scenario_counterexample :
  exists pre post,
    trace (Fake.selected 10) = pre ++ EvPeek (Some (Fake.tx 1 60)) :: post /\
    100 - included_gas pre < Gas (Fake.tx 1 60) /\
    (forall rest,
        post <> EvLog LvlDebug found_msg :: EvDrop (Fake.tx 1 60) :: rest) /\
    In (EvWrite (Fake.tx 1 60)
          (Some (GasLimitReachedTransitionApplicationError "gas limit reached")))
       post /\
    dropped (trace (Fake.selected 10)) = [] /\
    outcome (Fake.selected 10) = Done [Fake.tx 0 50] /\
    outcome (Fake.selected 10) <> Done [Fake.tx 0 50; Fake.tx 2 5].
Proof.
  exists [EvPrepare; EvPeek (Some (Fake.tx 0 50)); EvLog LvlDebug found_msg;
          EvWrite (Fake.tx 0 50) None; EvPop (Fake.tx 0 50)],
         [EvLog LvlDebug found_msg;
          EvWrite (Fake.tx 1 60)
            (Some (GasLimitReachedTransitionApplicationError
                     "gas limit reached"));
          EvLog LvlWarn full_msg].
  split_and!.
  - vm_compute. reflexivity.
  - vm_compute. reflexivity.
  - intros rest H. discriminate H.
  - cbn. tauto.
  - vm_compute. reflexivity.
  - vm_compute. reflexivity.
  - vm_compute. intros H. discriminate H.
Qed.

(** ** Runs on the scripted environment *)

Lemma selector_classifies_execution_results_witness :
  trace (Fake.selected 10)
    = [EvPrepare; EvPeek (Some (Fake.tx 0 50)); EvLog LvlDebug found_msg;
       EvWrite (Fake.tx 0 50) None; EvPop (Fake.tx 0 50);
       EvPeek (Some (Fake.tx 1 60)); EvLog LvlDebug found_msg]
      ++ EvWrite (Fake.tx 1 60)
           (Some (GasLimitReachedTransitionApplicationError "gas limit reached"))
      :: [EvLog LvlWarn full_msg] /\
  [EvLog LvlWarn full_msg] = [EvLog LvlWarn full_msg] /\
  outcome (Fake.selected 10) = Done [Fake.tx 0 50].
Proof.
  assert (Htrace : trace (Fake.selected 10)
    = [EvPrepare; EvPeek (Some (Fake.tx 0 50)); EvLog LvlDebug found_msg;
       EvWrite (Fake.tx 0 50) None; EvPop (Fake.tx 0 50);
       EvPeek (Some (Fake.tx 1 60)); EvLog LvlDebug found_msg]
      ++ EvWrite (Fake.tx 1 60)
           (Some (GasLimitReachedTransitionApplicationError "gas limit reached"))
      :: [EvLog LvlWarn full_msg]).
  { vm_compute. reflexivity. }
  split; [exact Htrace|].
  exact (selector_classifies_execution_results (TI:=Fake.transitions)
           10%nat 100 tt (Fake.start Fake.calm) _ _ _ _ Htrace).
Defined.

Lemma writeBlock_commits_only_after_inclusion_witness :
  In (EvCalculateGasLimit 1 (0, Some (errorString "no gas limit")))
     (trace (Fake.produced Fake.sw Fake.no_gas_limit)) /\
  failure_before_inclusion
    (EvCalculateGasLimit 1 (0, Some (errorString "no gas limit")))
    = Some (errorString "no gas limit") /\
  outcome (Fake.produced Fake.sw Fake.no_gas_limit)
    = Done (Some (errorString "no gas limit")) /\
  Forall (fun ev => is_local_commit ev = false)
         (trace (Fake.produced Fake.sw Fake.no_gas_limit)).
Proof.
  assert (Hin : In (EvCalculateGasLimit 1 (0, Some (errorString "no gas limit")))
                   (trace (Fake.produced Fake.sw Fake.no_gas_limit))).
  { vm_compute. right. left. reflexivity. }
  split; [exact Hin|]. split; [reflexivity|].
  exact (proj1 (proj2 (proj2
           (writeBlock_commits_only_after_inclusion 10%nat Fake.sw
              Fake.account Fake.key Fake.genesis
              (Fake.start Fake.no_gas_limit))))
           _ _ Hin eq_refl).
Defined.

Lemma calm_clock_sane (sw : SequencerWorker) :
  blockTime sw = 2 * time.Second \/ blockTime sw = 500 * time.Millisecond ->
  clock_sane (trace (Fake.produced sw Fake.calm)).
Proof.
  intros Hbt. unfold clock_sane.
  assert (Hr : readings (trace (Fake.produced sw Fake.calm))
               = [time.mkTime 1000 200000000; time.mkTime 1000 300000000]).
  { destruct sw as [a k n ty bt]. cbn in Hbt.
    destruct Hbt as [-> | ->]; vm_compute; reflexivity. }
  rewrite Hr. split.
  - repeat constructor; cbn; lia.
  - apply SSorted_cons.
    + apply SSorted_cons; constructor.
    + constructor; [|constructor]. right. cbn. lia.
Qed.

Lemma writeBlock_timestamp_witness :
  exists h vs res,
    In (EvAssignExtraValidators h vs res)
       (trace (Fake.produced Fake.sw Fake.calm)) /\
    0 <= Timestamp Fake.genesis < 2 ^ 62 /\
    0 <= blockTime Fake.sw < 2 ^ 63 /\
    clock_sane (trace (Fake.produced Fake.sw Fake.calm)) /\
    exists now,
      In (EvNow now) (trace (Fake.produced Fake.sw Fake.calm)) /\
      Timestamp h =
        Z.max (time.Time_Unix now)
              (Timestamp Fake.genesis + blockTime Fake.sw / time.Second) /\
      (time.Second <= blockTime Fake.sw ->
       Timestamp Fake.genesis < Timestamp h).
Proof.
  assert (Hin : exists h vs res,
            In (EvAssignExtraValidators h vs res)
               (trace (Fake.produced Fake.sw Fake.calm))).
  { vm_compute. do 3 eexists. do 3 right. left. reflexivity. }
  destruct Hin as (h & vs & res & Hin).
  assert (Hts : 0 <= Timestamp Fake.genesis < 2 ^ 62).
  { cbv [Fake.genesis Timestamp]. lia. }
  assert (Hbt : 0 <= blockTime Fake.sw < 2 ^ 63).
  { cbv [Fake.sw blockTime time.Second]. lia. }
  assert (Hclock : clock_sane (trace (Fake.produced Fake.sw Fake.calm))).
  { apply calm_clock_sane. by left. }
  exists h, vs, res. split; [exact Hin|]. split; [exact Hts|].
  split; [exact Hbt|]. split; [exact Hclock|].
  exact (@writeBlock_timestamp Fake.World Fake.collaborators 10%nat Fake.sw Fake.account Fake.key
           Fake.genesis (Fake.start Fake.calm) h vs res Hin Hts Hbt Hclock).
Defined.

(** C7 as stated fails for a positive interval below one second: with an
    interval of half a second, a parent stamped 1000 and a clock at 1000.3,
    the header gets timestamp 1000, the parent's own. *)
Lemma writeBlock_timestamp_counterexample :
  0 < blockTime Fake.sw_half /\
  0 <= Timestamp Fake.genesis < 2 ^ 62 /\
  clock_sane (trace (Fake.produced Fake.sw_half Fake.calm)) /\
  exists h vs res,
    In (EvAssignExtraValidators h vs res)
       (trace (Fake.produced Fake.sw_half Fake.calm)) /\
    Timestamp h = Timestamp Fake.genesis /\
    ~ Timestamp Fake.genesis < Timestamp h.
Proof.
  split; [reflexivity|].
  split; [cbv [Fake.genesis Timestamp]; lia|].
  split; [apply calm_clock_sane; by right|].
  assert (Hin : exists h vs res,
            In (EvAssignExtraValidators h vs res)
               (trace (Fake.produced Fake.sw_half Fake.calm)) /\
            Timestamp h = 1000).
  { vm_compute. do 3 eexists. split; [do 3 right; left; reflexivity|].
    reflexivity. }
  destruct Hin as (h & vs & res & Hin & Hts).
  exists h, vs, res. split; [exact Hin|]. rewrite Hts.
  cbv [Fake.genesis Timestamp]. lia.
Qed.

Lemma tick_writes_extracted_blocks_first_witness :
  block_FromAvail (mkSignedBlock 7 []) (availAppID Fake.sw) Fake.callIdx
                  (env (Fake.start Fake.partial))
    = ([Fake.block1; Fake.block2], Some (errorString "malformed payload")) /\
  [Fake.block1; Fake.block2] <> [] /\
  exists results slashed rest,
    length results = length [Fake.block1; Fake.block2] /\
    trace (Fake.ticked Fake.partial) =
      EvStore (wrap_int64 7)
      :: EvFromAvail (mkSignedBlock 7 [])
           ([Fake.block1; Fake.block2],
            Some (errorString "malformed payload"))
      :: zip_with (fun b res =>
                     EvWriteBlock b (Mechanism.String (nodeType Fake.sw)) res)
                  [Fake.block1; Fake.block2] results
      ++ EvCheckAndSetFraudBlock [Fake.block1; Fake.block2]
      :: EvCheckAndSlash slashed :: rest.
Proof.
  assert (Hext : block_FromAvail (mkSignedBlock 7 []) (availAppID Fake.sw)
                   Fake.callIdx (env (Fake.start Fake.partial))
                 = ([Fake.block1; Fake.block2],
                    Some (errorString "malformed payload"))).
  { reflexivity. }
  assert (Hne : [Fake.block1; Fake.block2] <> []).
  { discriminate. }
  split; [exact Hext|]. split; [exact Hne|].
  exact (tick_writes_extracted_blocks_first 10%nat Fake.sw Fake.account
           Fake.key Fake.callIdx (mkSignedBlock 7 [])
           (Fake.start Fake.partial) _ _ Hext Hne).
Defined.

Lemma tick_not_found_logs_and_goes_on_witness :
  block_FromAvail (mkSignedBlock 7 []) (availAppID Fake.sw) Fake.callIdx
                  (env (Fake.start Fake.calm))
    = ([], Some ErrNoExtrinsicFound) /\
  exists slashed rest,
    trace (Fake.ticked Fake.calm) =
      [EvStore (wrap_int64 7);
       EvFromAvail (mkSignedBlock 7 []) ([], Some ErrNoExtrinsicFound);
       EvLog LvlError extract_msg;
       EvCheckAndSetFraudBlock [];
       EvCheckAndSlash slashed] ++ rest /\
    match slashed.2 with
    | Some _ => rest = [] /\ outcome (Fake.ticked Fake.calm) = Done tt
    | None => election Fake.sw rest (outcome (Fake.ticked Fake.calm))
    end.
Proof.
  assert (Hext : block_FromAvail (mkSignedBlock 7 []) (availAppID Fake.sw)
                   Fake.callIdx (env (Fake.start Fake.calm))
                 = ([], Some ErrNoExtrinsicFound)).
  { reflexivity. }
  split; [exact Hext|].
  exact (proj1 (tick_not_found_logs_and_goes_on 10%nat Fake.sw Fake.account
                  Fake.key Fake.callIdx (mkSignedBlock 7 [])
                  (Fake.start Fake.calm) Hext)).
Defined.

(** C5 as stated fails: on a DA block without a matching payload the tick
    does emit a log at error severity. *)
Lemma tick_not_found_counterexample :
  block_FromAvail (mkSignedBlock 7 []) (availAppID Fake.sw) Fake.callIdx
                  (env (Fake.start Fake.calm))
    = ([], Some ErrNoExtrinsicFound) /\
  In (EvLog LvlError "cannot extract Edge block from Avail block")
     (trace (Fake.ticked Fake.calm)).
Proof.
  split; [reflexivity|]. vm_compute. do 2 right. left. reflexivity.
Qed.

Lemma tick_short_circuits_witness :
  In (EvCheckAndSlash (false, Some (errorString "slash not submitted")))
     (trace (Fake.ticked Fake.slash_down)) /\
  outcome (Fake.ticked Fake.slash_down) = Done tt /\
  exists pre,
    trace (Fake.ticked Fake.slash_down)
      = pre ++ [EvCheckAndSlash
                  (false, Some (errorString "slash not submitted"))].
Proof.
  assert (Hin : In (EvCheckAndSlash
                      (false, Some (errorString "slash not submitted")))
                   (trace (Fake.ticked Fake.slash_down))).
  { vm_compute. do 4 right. left. reflexivity. }
  split; [exact Hin|].
  destruct (proj1 (tick_short_circuits 10%nat Fake.sw Fake.account Fake.key
                     Fake.callIdx (mkSignedBlock 7 [])
                     (Fake.start Fake.slash_down)) _ _ Hin)
    as (Ho & Hpre & _).
  split; [exact Ho|exact Hpre].
Defined.

(** C6 as stated fails in its last part: a payload that does not decode
    ends the tick at once.  [CheckAndSlash] is not even called, so it
    returned no error, and still the staking check, the leader
    determination and block production are all skipped. *)
Lemma tick_short_circuits_counterexample :
  trace (Fake.ticked Fake.malformed) =
    [EvStore 7;
     EvFromAvail (mkSignedBlock 7 [])
       ([], Some (errorString "malformed payload"));
     EvLog LvlError extract_msg] /\
  outcome (Fake.ticked Fake.malformed) = Done tt /\
  (forall res, ~ In (EvCheckAndSlash res) (trace (Fake.ticked Fake.malformed))) /\
  (forall a res, ~ In (EvContains a res) (trace (Fake.ticked Fake.malformed))) /\
  (forall res, ~ In (EvGet res) (trace (Fake.ticked Fake.malformed))) /\
  ~ produces (trace (Fake.ticked Fake.malformed)).
Proof.
  assert (Htrace : trace (Fake.ticked Fake.malformed) =
    [EvStore 7;
     EvFromAvail (mkSignedBlock 7 [])
       ([], Some (errorString "malformed payload"));
     EvLog LvlError extract_msg]).
  { vm_compute. reflexivity. }
  unfold produces. rewrite Htrace. split_and!.
  - reflexivity.
  - vm_compute. reflexivity.
  - intros res H. cbn in H. intuition discriminate.
  - intros a res H. cbn in H. intuition discriminate.
  - intros res H. cbn in H. intuition discriminate.
  - intros [h H]. cbn in H. intuition discriminate.
Qed.

Lemma tick_leader_check_order_witness :
  In (EvGet ([], None)) (trace (Fake.ticked Fake.empty_set)) /\
  outcome (Fake.ticked Fake.empty_set) = Panic "no staked sequencers" /\
  ~ produces (trace (Fake.ticked Fake.empty_set)).
Proof.
  assert (Hin : In (EvGet ([], None)) (trace (Fake.ticked Fake.empty_set))).
  { vm_compute. do 6 right. left. reflexivity. }
  split; [exact Hin|].
  exact (proj1 (proj2 (proj2 (proj2 (proj2
           (tick_leader_check_order 10%nat Fake.sw Fake.account Fake.key
              Fake.callIdx (mkSignedBlock 7 [])
              (Fake.start Fake.empty_set)))))) Hin).
Defined.

(** C2 as stated fails in its order: with an empty active set and a failing
    staked-status query, the claim has the process abort first; the code
    asks for the staked status first, skips the tick on the failure, and
    never looks at the set. *)
Lemma tick_leader_check_order_counterexample :
  querier_Get 7 Fake.registry_down = (([], None), Fake.registry_down) /\
  In (EvContains Fake.A (false, Some (errorString "registry unreachable")))
     (trace (Fake.ticked Fake.registry_down)) /\
  outcome (Fake.ticked Fake.registry_down) = Done tt /\
  (forall msg, outcome (Fake.ticked Fake.registry_down) <> Panic msg) /\
  (forall res, ~ In (EvGet res) (trace (Fake.ticked Fake.registry_down))).
Proof.
  assert (Hin : In (EvContains Fake.A
                      (false, Some (errorString "registry unreachable")))
                   (trace (Fake.ticked Fake.registry_down))).
  { vm_compute. do 5 right. left. reflexivity. }
  assert (Ho : outcome (Fake.ticked Fake.registry_down) = Done tt).
  { vm_compute. reflexivity. }
  split_and!.
  - reflexivity.
  - exact Hin.
  - exact Ho.
  - intros msg. rewrite Ho. discriminate.
  - intros res H.
    assert (Htrace : List.filter leader_check
                       (trace (Fake.ticked Fake.registry_down))
                     = [EvContains Fake.A
                          (false, Some (errorString "registry unreachable"))]).
    { vm_compute. reflexivity. }
    apply (In_view leader_check) in H; [|reflexivity].
    rewrite Htrace in H. cbn in H. intuition discriminate.
Qed.

Lemma Run_loop_records_latest_tick_witness :
  Forall is_uint32 (map BlockNumber
    ([mkSignedBlock 5 []; mkSignedBlock 6 []] ++ [mkSignedBlock 9 []])) /\
  StronglySorted Z.lt (map BlockNumber
    ([mkSignedBlock 5 []; mkSignedBlock 6 []] ++ [mkSignedBlock 9 []])) /\
  outcome (Run_loop 10 Fake.sw Fake.account Fake.key Fake.callIdx
             (map RecvBlock [mkSignedBlock 5 []; mkSignedBlock 6 []])
             (Fake.start Fake.calm)) = Done None /\
  t_value (final (Run_loop 10 Fake.sw Fake.account Fake.key Fake.callIdx
             (map RecvBlock
                ([mkSignedBlock 5 []; mkSignedBlock 6 []]
                 ++ [mkSignedBlock 9 []]))
             (Fake.start Fake.calm))) = 9.
Proof.
  assert (Hrange : Forall is_uint32 (map BlockNumber
            ([mkSignedBlock 5 []; mkSignedBlock 6 []]
             ++ [mkSignedBlock 9 []]))).
  { repeat constructor; cbn; lia. }
  assert (Hsorted : StronglySorted Z.lt (map BlockNumber
            ([mkSignedBlock 5 []; mkSignedBlock 6 []]
             ++ [mkSignedBlock 9 []]))).
  { repeat constructor; cbn; lia. }
  assert (Hrun : outcome (Run_loop 10 Fake.sw Fake.account Fake.key
                    Fake.callIdx
                    (map RecvBlock [mkSignedBlock 5 []; mkSignedBlock 6 []])
                    (Fake.start Fake.calm)) = Done None).
  { vm_compute. reflexivity. }
  split; [exact Hrange|]. split; [exact Hsorted|]. split; [exact Hrun|].
  exact (proj1 (Run_loop_records_latest_tick 10%nat Fake.sw Fake.account
                  Fake.key Fake.callIdx
                  [mkSignedBlock 5 []; mkSignedBlock 6 []]
                  (mkSignedBlock 9 []) (Fake.start Fake.calm)
                  Hrange Hsorted Hrun)).
Defined.

(** ** The selector ends on the scripted pool

    With the list pool every iteration either stops or takes the peeked
    transaction out of the queue, so fuel beyond the length of the queue
    is never used up. *)

Lemma remove_head_length (tx : Transaction) (rest : list Transaction) :
  (length (Fake.remove tx (tx :: rest)) <= length rest)%nat.
Proof.
  unfold Fake.remove. rewrite filter_cons_False by (intros H; by apply H).
  apply length_filter.
Qed.

Lemma scripted_selector_terminates (fuel : nat) :
  forall (w : Fake.World) (t : Z) (gasLimit : Z) (acc : list Transaction),
    (length (Fake.pool w) < fuel)%nat ->
    outcome (writeTransactions_loop (TI:=Fake.transitions) fuel gasLimit tt acc
               (mkState w t)) <> OutOfFuel.
Proof.
  induction fuel as [|fuel IH]; intros w t gasLimit acc Hfuel; [lia|].
  cbn [writeTransactions_loop]. unfold_m. cbn.
  destruct (Fake.pool w) as [|tx rest] eqn:Hpool; cbn; [discriminate|].
  pose proof (remove_head_length tx rest) as Hlen. cbn [length] in Hfuel.
  assert (Hnext : forall (a : list Transaction) (s : State Fake.World),
            Fake.pool (env s) = Fake.remove tx (tx :: rest) ->
            forall r, r = writeTransactions_loop (TI:=Fake.transitions)
                            fuel gasLimit tt a s ->
            r.1.1 <> OutOfFuel).
  { intros a [w' t'] Hw r ->. apply IH. cbn [env] in Hw. rewrite Hw. lia. }
  destruct (ExceedsBlockGasLimit tx gasLimit); cbn.
  - match goal with
    | |- context [writeTransactions_loop ?f ?g tt ?a ?s] =>
        specialize (Hnext a s ltac:(cbn [env Fake.pool Fake.with_pool Fake.with_gas];
                                      by rewrite Hpool) _ eq_refl);
        destruct (writeTransactions_loop f g tt a s) as [[[]] ?]
    end; cbn in Hnext |- *; congruence.
  - unfold Fake.Write. destruct (Fake.execution_failure w tx) as [e|]; cbn.
    + destruct e as [|msg|[|] msg|msg]; cbn; try discriminate.
      all: match goal with
        | |- context [writeTransactions_loop ?f ?g tt ?a ?s] =>
            specialize (Hnext a s ltac:(cbn [env Fake.pool Fake.with_pool Fake.with_gas];
                                      by rewrite Hpool) _ eq_refl);
            destruct (writeTransactions_loop f g tt a s) as [[[]] ?]
        end; cbn in Hnext |- *; congruence.
    + destruct (Fake.gas_pool w <? Gas tx); cbn; [discriminate|].
      match goal with
      | |- context [writeTransactions_loop ?f ?g tt ?a ?s] =>
          specialize (Hnext a s ltac:(cbn [env Fake.pool Fake.with_pool Fake.with_gas];
                                      by rewrite Hpool) _ eq_refl);
          destruct (writeTransactions_loop f g tt a s) as [[[]] ?]
      end; cbn in Hnext |- *; congruence.
Qed.

Lemma writeTransactions_outcome {Env : Type} {C : Collaborators Env}
    {T : Type} {TI : transitionInterface Env T}
    (fuel : nat) (gasLimit : Z) (transition : T) (s : State Env) :
  outcome (writeTransactions fuel gasLimit transition s) =
  outcome (writeTransactions_loop fuel gasLimit transition []
             (mkState (txpool_Prepare (env s)) (t_value s))).
Proof.
  unfold writeTransactions. unfold_m. cbn.
  by destruct (writeTransactions_loop _ _ _ _ _) as [[[]] ?].
Qed.

Lemma selection_outcome (gasLimit : Z) (acc : list Transaction)
    (tr : list Event) (o : Outcome (list Transaction)) :
  selection gasLimit acc tr o -> o = OutOfFuel \/ exists l, o = Done l.
Proof. induction 1; eauto. Qed.

(** Enough fuel gives the selector's result, whatever the scripted pool
    holds. *)
Lemma scripted_selector_returns (w : Fake.World) (t gasLimit : Z) :
  exists included,
    outcome (writeTransactions (TI:=Fake.transitions)
               (S (length (Fake.pool w ++ Fake.demoted w))) gasLimit tt
               (mkState w t)) = Done included.
Proof.
  remember (S (length (Fake.pool w ++ Fake.demoted w))) as fuel eqn:Hfuel.
  destruct (writeTransactions_trace (TI:=Fake.transitions) fuel gasLimit tt
              (mkState w t)) as (tr & _ & Hsel).
  apply selection_outcome in Hsel as [Hout|Hdone]; [|exact Hdone].
  exfalso. rewrite writeTransactions_outcome in Hout. revert Hout.
  apply scripted_selector_terminates. cbn. lia.
Qed.

(** * Further properties of the two files *)

(** ** Mechanism types *)

Lemma valid_names_cases (s : string) :
  s ∈ Mechanism.valid_names <->
  s = "bootstrap-sequencer" \/ s = "sequencer" \/ s = "validator"
  \/ s = "watchtower".
Proof.
  unfold Mechanism.valid_names. rewrite !elem_of_cons, elem_of_nil. tauto.
Qed.

Lemma ParseType_valid (s : string) :
  s ∈ Mechanism.valid_names -> ParseType s = (s, None).
Proof.
  intros Hs. unfold ParseType.
  by rewrite lookup_mechanismTypes, bool_decide_eq_true_2.
Qed.

Lemma ParseType_invalid (s : string) :
  s ∉ Mechanism.valid_names ->
  ParseType s =
    (EmptyString, Some (errorString ("invalid avail mechanism type " ++ s))).
Proof.
  intros Hs. unfold ParseType.
  by rewrite lookup_mechanismTypes, bool_decide_eq_false_2.
Qed.

Lemma MechanismExists_false (m : MechanismType) :
  MechanismExists m = false <-> m ∉ Mechanism.valid_names.
Proof.
  rewrite <- MechanismExists_spec. by destruct (MechanismExists m).
Qed.



(** X2.  [MechanismExists] and [ParseType] agree: a mechanism type exists
    exactly when parsing its name returns it with no error, it does not
    exist exactly when parsing fails, and the type [ParseType] returns
    exists exactly when its argument does, the zero value of a failed
    parse being no mechanism. *)
Theorem MechanismExists_agrees_with_ParseType (m : MechanismType) :
  (MechanismExists m = true <-> ParseType (String m) = (m, None)) /\
  (MechanismExists m = false <-> exists e, (ParseType (String m)).2 = Some e) /\
  MechanismExists (ParseType (String m)).1 = MechanismExists m.
Proof.
  unfold String.
  destruct (decide (m ∈ Mechanism.valid_names)) as [Hm|Hm].
  - rewrite (ParseType_valid m Hm). cbn [fst snd].
    rewrite (proj2 (MechanismExists_spec m) Hm). clear Hm.
    split; [split; reflexivity|]. split; [|reflexivity].
    split; [intros H; discriminate H|]. intros [e H]. discriminate H.
  - rewrite (ParseType_invalid m Hm). cbn [fst snd].
    rewrite (proj2 (MechanismExists_false m) Hm). clear Hm.
    split; [split; intros H; discriminate H|]. split.
    + split; [eauto|reflexivity].
    + apply MechanismExists_false. rewrite valid_names_cases.
      intros [H|[H|[H|H]]]; discriminate H.
Qed.

(** The loop of [ParseMechanismConfigTypes], for any list built so far. *)
Lemma ParseMechanismConfigTypes_range_accepts (mi : list any) :
  forall (acc types : list MechanismType),
    ParseMechanismConfigTypes_range mi acc = Done (types, None) <->
    exists names,
      mi = map any_string names /\
      Forall (fun m => MechanismExists m = true) names /\
      types = acc ++ names.
Proof.
  induction mi as [|i rest IH]; intros acc types; cbn.
  - split.
    + intros H. injection H as <-. exists []. by rewrite app_nil_r.
    + intros ([|n names] & Hmap & _ & ->); [|discriminate Hmap].
      by rewrite app_nil_r.
  - split.
    + destruct i as [|b|n|s|elems|entries]; try discriminate.
      destruct (decide (s ∈ Mechanism.valid_names)) as [Hs|Hs].
      * rewrite (ParseType_valid s Hs). intros H.
        apply IH in H as (names & -> & Hall & ->).
        exists (s :: names). split_and!.
        -- reflexivity.
        -- constructor; [by apply MechanismExists_spec|assumption].
        -- by rewrite <- app_assoc.
      * rewrite (ParseType_invalid s Hs). discriminate.
    + intros ([|n names] & Hmap & Hall & ->); [discriminate Hmap|].
      cbn in Hmap. injection Hmap as -> ->.
      apply List.Forall_cons_iff in Hall as [Hn Hall].
      apply MechanismExists_spec in Hn.
      rewrite (ParseType_valid n Hn). apply IH.
      exists names. split_and!; try reflexivity; try assumption.
      by rewrite <- app_assoc.
Qed.

Lemma ParseMechanismConfigTypes_range_rejects (mi : list any) :
  forall (acc types : list MechanismType) (err : error),
    ParseMechanismConfigTypes_range mi acc = Done (types, Some err) <->
    exists good bad rest,
      mi = map any_string good ++ any_string bad :: rest /\
      Forall (fun m => MechanismExists m = true) good /\
      MechanismExists bad = false /\
      types = [] /\
      err = errorString ("invalid avail mechanism type " ++ bad).
Proof.
  induction mi as [|i rest IH]; intros acc types err; cbn.
  - split; [discriminate|].
    intros ([|g good] & bad & rest & H & _); discriminate H.
  - split.
    + destruct i as [|b|n|s|elems|entries]; try discriminate.
      destruct (decide (s ∈ Mechanism.valid_names)) as [Hs|Hs].
      * rewrite (ParseType_valid s Hs). intros H.
        apply IH in H as (good & bad & rest' & -> & Hall & Hbad & -> & ->).
        exists (s :: good), bad, rest'.
        split_and!; try reflexivity; try assumption.
        constructor; [by apply MechanismExists_spec|assumption].
      * rewrite (ParseType_invalid s Hs). intros H. injection H as <- <-.
        exists [], s, rest.
        split_and!; try reflexivity; [constructor|].
        apply MechanismExists_false. exact Hs.
    + intros ([|g good] & bad & rest' & Hmi & Hall & Hbad & -> & ->);
        cbn in Hmi; injection Hmi as -> ->.
      * apply MechanismExists_false in Hbad.
        by rewrite (ParseType_invalid bad Hbad).
      * apply List.Forall_cons_iff in Hall as [Hg Hall].
        apply MechanismExists_spec in Hg.
        rewrite (ParseType_valid g Hg). apply IH.
        exists good, bad, rest'. split_and!; try reflexivity; assumption.
Qed.

Lemma ParseMechanismConfigTypes_range_panics (mi : list any) :
  forall (acc : list MechanismType) (msg : string),
    ParseMechanismConfigTypes_range mi acc = Panic msg <->
    exists good other rest,
      mi = map any_string good ++ other :: rest /\
      Forall (fun m => MechanismExists m = true) good /\
      (forall s, other <> any_string s) /\
      msg = interface_conversion other "string".
Proof.
  induction mi as [|i rest IH]; intros acc msg; cbn.
  - split; [discriminate|].
    intros ([|g good] & other & rest & H & _); discriminate H.
  - split.
    + destruct i as [|b|n|s|elems|entries].
      4: { destruct (decide (s ∈ Mechanism.valid_names)) as [Hs|Hs].
           - rewrite (ParseType_valid s Hs). intros H.
             apply IH in H as (good & other & rest' & -> & Hall & Ho & ->).
             exists (s :: good), other, rest'.
             split_and!; try reflexivity; try assumption.
             constructor; [by apply MechanismExists_spec|assumption].
           - rewrite (ParseType_invalid s Hs). discriminate. }
      all: intros H; injection H as <-;
        eexists [], _, rest;
        split_and!; try reflexivity; [constructor|intros s Hs; discriminate Hs].
    + intros ([|g good] & other & rest' & Hmi & Hall & Ho & ->);
        cbn in Hmi; injection Hmi as -> ->.
      * destruct other as [|b|n|s|elems|entries]; try reflexivity.
        by destruct (Ho s).
      * apply List.Forall_cons_iff in Hall as [Hg Hall].
        apply MechanismExists_spec in Hg.
        rewrite (ParseType_valid g Hg). apply IH.
        exists good, other, rest'. split_and!; try reflexivity; assumption.
Qed.

(** X3.  [ParseMechanismConfigTypes] returns a list with no error exactly
    when its argument is a slice whose elements are all strings naming
    mechanism types that exist; the list returned is then those names, in
    the order given.  The empty slice gives the empty list. *)
Theorem ParseMechanismConfigTypes_accepts
    (mechanisms : any) (types : list MechanismType) :
  ParseMechanismConfigTypes mechanisms = Done (types, None) <->
  mechanisms = any_slice (map any_string types) /\
  Forall (fun m => MechanismExists m = true) types.
Proof.
  unfold ParseMechanismConfigTypes. split.
  - destruct mechanisms as [|b|n|s|mi|entries]; try discriminate.
    intros H. apply ParseMechanismConfigTypes_range_accepts in H
      as (names & -> & Hall & ->). by cbn.
  - intros [-> Hall]. apply ParseMechanismConfigTypes_range_accepts.
    by exists types.
Qed.

(** X4.  [ParseMechanismConfigTypes] returns an error exactly when its
    argument is a slice in which the first element that does not name a
    mechanism type is a string, only names that exist coming before it.
    It then returns the nil list and the error of [ParseType] on that
    string, and does not look at the elements after it, of whatever type
    they are. *)
Theorem ParseMechanismConfigTypes_rejects
    (mechanisms : any) (types : list MechanismType) (err : error) :
  ParseMechanismConfigTypes mechanisms = Done (types, Some err) <->
  exists good bad rest,
    mechanisms = any_slice (map any_string good ++ any_string bad :: rest) /\
    Forall (fun m => MechanismExists m = true) good /\
    MechanismExists bad = false /\
    types = [] /\
    (ParseType bad).2 = Some err /\
    err = errorString ("invalid avail mechanism type " ++ bad).
Proof.
  unfold ParseMechanismConfigTypes. split.
  - destruct mechanisms as [|b|n|s|mi|entries]; try discriminate.
    intros H. apply ParseMechanismConfigTypes_range_rejects in H
      as (good & bad & rest & -> & Hall & Hbad & -> & ->).
    exists good, bad, rest. split_and!; try reflexivity; try assumption.
    apply MechanismExists_false in Hbad.
    by rewrite (ParseType_invalid bad Hbad).
  - intros (good & bad & rest & -> & Hall & Hbad & -> & _ & ->).
    apply ParseMechanismConfigTypes_range_rejects.
    exists good, bad, rest. split_and!; try reflexivity; assumption.
Qed.

(** X5.  [ParseMechanismConfigTypes] panics in exactly two cases, with
    the message of the failed type assertion: its argument is not a
    []interface{} (the nil interface included), or the slice holds an
    element that is not a string with only names that exist before it.
    A slice of strings never panics. *)
Theorem ParseMechanismConfigTypes_panics (mechanisms : any) (msg : string) :
  ParseMechanismConfigTypes mechanisms = Panic msg <->
  ((forall mi, mechanisms <> any_slice mi) /\
   msg = interface_conversion mechanisms "[]interface {}") \/
  (exists good other rest,
     mechanisms = any_slice (map any_string good ++ other :: rest) /\
     Forall (fun m => MechanismExists m = true) good /\
     (forall s, other <> any_string s) /\
     msg = interface_conversion other "string").
Proof.
  unfold ParseMechanismConfigTypes. split.
  - destruct mechanisms as [|b|n|s|mi|entries].
    5: { intros H. right.
         apply ParseMechanismConfigTypes_range_panics in H
           as (good & other & rest & -> & Hall & Ho & ->).
         exists good, other, rest. split_and!; try reflexivity; assumption. }
    all: intros H; injection H as <-; left;
      split; [intros mi Hm; discriminate Hm|reflexivity].
  - intros [[Hns ->]|(good & other & rest & -> & Hall & Ho & ->)].
    + destruct mechanisms as [|b|n|s|mi|entries]; try reflexivity.
      by destruct (Hns mi).
    + apply ParseMechanismConfigTypes_range_panics.
      exists good, other, rest. split_and!; try reflexivity; assumption.
Qed.

(** ** What a computation emits *)

Section Emits.
Context {Env : Type} {C : Collaborators Env}.
Variable P : Event -> Prop.

Lemma emits_ret {A} (a : A) : emits P (mret a : M Env A).
Proof. intros s. constructor. Qed.

Lemma emits_bind {A B} (m : M Env A) (f : A -> M Env B) :
  emits P m -> (forall a, emits P (f a)) -> emits P (m ≫= f).
Proof.
  intros Hm Hf s. specialize (Hm s). unfold_m.
  destruct (m s) as [[[a| | |] s1] tr1]; cbn in *; try assumption.
  specialize (Hf a s1). unfold_m.
  destruct (f a s1) as [[o s2] tr2]. cbn in *. by apply Forall_app_2.
Qed.

Lemma emits_call {R} (op : Env -> R * Env) (ev : R -> Event) :
  (forall r, P (ev r)) -> emits P (call op ev).
Proof.
  intros H s. unfold_m. destruct (op (env s)). cbn. by repeat constructor.
Qed.

Lemma emits_exec (op : Env -> Env) (ev : Event) : P ev -> emits P (exec op ev).
Proof. intros H s. by repeat constructor. Qed.

Lemma emits_read {R} (f : Env -> R) : emits P (read f).
Proof. intros s. constructor. Qed.

Lemma emits_query {R} (f : Env -> R) (ev : R -> Event) :
  (forall r, P (ev r)) -> emits P (query f ev).
Proof. intros H s. by repeat constructor. Qed.

Lemma emits_emit (ev : Event) : P ev -> emits P (emit (Env:=Env) ev).
Proof. intros H s. by repeat constructor. Qed.

Lemma emits_panic {A} (msg : string) : emits P (panic msg : M Env A).
Proof. intros s. constructor. Qed.

Lemma emits_hang {A} : emits P (hang : M Env A).
Proof. intros s. constructor. Qed.

Lemma emits_out_of_fuel {A} : emits P (out_of_fuel : M Env A).
Proof. intros s. constructor. Qed.

Lemma emits_t_Load : emits P (t_Load (Env:=Env)).
Proof. intros s. constructor. Qed.

Lemma emits_t_Store (v : Z) : P (EvStore v) -> emits P (t_Store (Env:=Env) v).
Proof. intros H s. by repeat constructor. Qed.

End Emits.

Lemma emits_weaken {Env A} (P Q : Event -> Prop) (m : M Env A) :
  (forall ev, P ev -> Q ev) -> emits P m -> emits Q m.
Proof. intros HPQ Hm s. eapply Forall_impl; [apply Hm|exact HPQ]. Qed.

(** Decompose a computation along its binds and case distinctions; the
    events themselves are checked by computation. *)
Ltac emits_with known :=
  repeat first
    [ known
    | apply emits_ret | apply emits_read | apply emits_panic
    | apply emits_hang | apply emits_out_of_fuel | apply emits_t_Load
    | apply emits_call; intros ?; reflexivity
    | apply emits_exec; reflexivity
    | apply emits_query; intros ?; reflexivity
    | apply emits_emit; reflexivity
    | apply emits_t_Store; reflexivity
    | assumption
    | apply emits_bind; [|intros ?]
    | progress cbv zeta
    | match goal with
      | |- emits _ (match ?x with _ => _ end) => destruct x
      end ].

Section LoopEvents.
Context {Env : Type} {C : Collaborators Env}.

Lemma emits_writeTransactions_loop {T} {TI : transitionInterface Env T}
    (fuel : nat) :
  forall (gasLimit : Z) (transition : T) (acc : list Transaction),
    emits (fun ev => settle_event ev = true)
          (writeTransactions_loop fuel gasLimit transition acc).
Proof.
  induction fuel as [|fuel IH]; intros gasLimit transition acc;
    cbn [writeTransactions_loop]; emits_with ltac:(apply IH).
Qed.

Lemma emits_writeBlock (fuel : nat) (sw : SequencerWorker)
    (myAccount : Account) (signKey : Key) (parent : Header) :
  emits (fun ev => settle_event ev = true)
        (writeBlock fuel sw myAccount signKey parent).
Proof.
  unfold writeBlock, writeTransactions.
  emits_with ltac:(apply emits_writeTransactions_loop).
Qed.

Lemma emits_elect (fuel : nat) (sw : SequencerWorker) (account : Account)
    (key : Key) :
  emits (fun ev => settle_event ev = true) (elect fuel sw account key).
Proof. unfold elect. emits_with ltac:(apply emits_writeBlock). Qed.

Lemma emits_settle (fuel : nat) (sw : SequencerWorker) (account : Account)
    (key : Key) (edgeBlks : list Block) :
  emits (fun ev => settle_event ev = true)
        (settle fuel sw account key edgeBlks).
Proof.
  assert (Hwrite : emits (fun ev => settle_event ev = true)
                         (write_extracted sw edgeBlks)).
  { induction edgeBlks as [|b rest IH]; cbn [write_extracted];
      emits_with fail. }
  unfold settle. emits_with ltac:(apply emits_elect).
Qed.

Lemma settle_tick_event (ev : Event) :
  settle_event ev = true -> tick_event ev = true.
Proof. by destruct ev. Qed.

Lemma tick_loop_event (ev : Event) :
  tick_event ev = true -> loop_event ev = true.
Proof. by destruct ev. Qed.

Lemma emits_tick (fuel : nat) (sw : SequencerWorker) (account : Account)
    (key : Key) (callIdx : CallIndex) (blk : SignedBlock) :
  emits (fun ev => tick_event ev = true)
        (tick fuel sw account key callIdx blk).
Proof.
  assert (Hsettle : forall edgeBlks,
            emits (fun ev => tick_event ev = true)
                  (settle fuel sw account key edgeBlks)).
  { intros edgeBlks. eapply emits_weaken; [|apply emits_settle].
    exact settle_tick_event. }
  unfold tick. emits_with ltac:(apply Hsettle).
Qed.

(** The loop step by step: the trace and the outcome of a schedule that
    starts with a DA block. *)
Lemma Run_loop_cons (fuel : nat) (sw : SequencerWorker) (account : Account)
    (key : Key) (callIdx : CallIndex) (blk : SignedBlock)
    (more : list Select) (s : State Env) :
  let r := tick fuel sw account key callIdx blk s in
  let after := Run_loop fuel sw account key callIdx more (final r) in
  let whole :=
    Run_loop fuel sw account key callIdx (RecvBlock blk :: more) s in
  match outcome r with
  | Done _ =>
      trace whole = trace r ++ trace after /\ outcome whole = outcome after
  | Panic msg => trace whole = trace r /\ outcome whole = Panic msg
  | Hang => trace whole = trace r /\ outcome whole = Hang
  | OutOfFuel => trace whole = trace r /\ outcome whole = OutOfFuel
  end.
Proof.
  cbn zeta. cbn [Run_loop]. unfold_m.
  destruct (tick _ _ _ _ _ _ _) as [[[[]| | |] s1] tr]; cbn; try done.
  by destruct (Run_loop _ _ _ _ _ _ _) as [[o2 s2] tr2].
Qed.

Lemma Run_loop_close (fuel : nat) (sw : SequencerWorker) (account : Account)
    (key : Key) (callIdx : CallIndex) (more : list Select) (s : State Env) :
  let whole := Run_loop fuel sw account key callIdx (RecvClose :: more) s in
  exists res,
    trace whole = EvUnStake res :: unstake_log res /\
    outcome whole = Done (Some res).
Proof.
  cbn zeta. cbn [Run_loop]. unfold_m.
  destruct (stakingNode_UnStake _ _) as [[e|] e1]; cbn;
    [exists (Some e)|exists None]; split; reflexivity.
Qed.

Lemma emits_Run_loop (fuel : nat) (sw : SequencerWorker) (account : Account)
    (key : Key) (callIdx : CallIndex) (sched : list Select) :
  emits (fun ev => loop_event ev = true)
        (Run_loop fuel sw account key callIdx sched).
Proof.
  induction sched as [|[blk|] rest IH]; cbn [Run_loop].
  - emits_with fail.
  - apply emits_bind; [|intros _; exact IH].
    eapply emits_weaken; [|apply emits_tick]. exact tick_loop_event.
  - emits_with fail.
Qed.

End LoopEvents.

(** ** The whole of [Run] *)

Section RunFacts.
Context {Env : Type} {C : Collaborators Env}.

(** The three ways [Run] can go: either startup query fails, or the loop
    is entered and the stream is closed when the loop ends by a return or
    a panic. *)
Lemma Run_shape (fuel : nat) (sw : SequencerWorker) (account : Account)
    (key : Key) (sched : list Select) (s : State Env) :
  let r := Run fuel sw account key sched s in
  (exists bal e,
      trace r = [EvGetBalance (bal, Some e)] /\
      outcome r = Done (Some (Some (errorString
        ("failed to discover account balance: " ++ error_Error e))))) \/
  (exists bal idx e,
      trace r = [EvGetBalance (bal, None);
                 EvLog LvlInfo "Current avail account";
                 EvFindCallIndex (idx, Some e)] /\
      outcome r = Done (Some (Some (errorString
        ("failed to discover avail call index: " ++ error_Error e))))) \/
  (exists bal idx s',
      trace r = started sw bal idx
                ++ trace (Run_loop fuel sw account key idx sched s')
                ++ stream_closing
                     (outcome (Run_loop fuel sw account key idx sched s')) /\
      outcome r = outcome (Run_loop fuel sw account key idx sched s')).
Proof.
  cbn zeta. unfold Run, deferred_Close. unfold_m.
  destruct (avail_GetBalance _) as [[bal [e|]] e1]; cbn.
  { left. by exists bal, e. }
  destruct (avail_FindCallIndex _) as [[idx [e|]] e2]; cbn.
  { right. left. by exists bal, idx, e. }
  right. right.
  exists bal, idx,
    (mkState (waitForStakedSequencer (nodeAddr sw) e2) (t_value s)).
  destruct (Run_loop _ _ _ _ _ _ _) as [[[[res|]|msg| |] s3] tr]; cbn;
    rewrite ?app_nil_r; by split.
Qed.

Lemma loop_event_not (tr : list Event) (ev : Event) :
  Forall (fun ev => loop_event ev = true) tr ->
  loop_event ev = false -> ~ In ev tr.
Proof.
  intros Hall Hev Hin. eapply List.Forall_forall in Hall; [|exact Hin].
  congruence.
Qed.

Lemma tick_event_not (tr : list Event) (ev : Event) :
  Forall (fun ev => tick_event ev = true) tr ->
  tick_event ev = false -> ~ In ev tr.
Proof.
  intros Hall Hev Hin. eapply List.Forall_forall in Hall; [|exact Hin].
  congruence.
Qed.

(** The close branch is the only place where the node unstakes, and the
    only way the loop returns. *)
Lemma Run_loop_unstake (fuel : nat) (sw : SequencerWorker) (account : Account)
    (key : Key) (callIdx : CallIndex) (sched : list Select) :
  forall s : State Env,
    let r := Run_loop fuel sw account key callIdx sched s in
    (forall res,
        In (EvUnStake res) (trace r) ->
        In RecvClose sched /\ outcome r = Done (Some res) /\
        exists pre,
          trace r = pre ++ EvUnStake res :: unstake_log res /\
          Forall (fun ev => tick_event ev = true) pre) /\
    (forall res, outcome r = Done (Some res) -> In (EvUnStake res) (trace r)).
Proof.
  induction sched as [|[blk|] rest IH]; intros s; cbn zeta.
  - cbn. split; [intros res []|intros res H; discriminate H].
  - pose proof (Run_loop_cons fuel sw account key callIdx blk rest s) as Hc.
    pose proof (emits_tick fuel sw account key callIdx blk s) as Hev.
    cbn zeta in Hc.
    destruct (outcome (tick fuel sw account key callIdx blk s)) eqn:Ho;
      destruct Hc as [Htr Hout]; rewrite Htr, Hout.
    + destruct (IH (final (tick fuel sw account key callIdx blk s)))
        as [IH1 IH2]. split.
      * intros res Hin. apply List.in_app_or in Hin as [Hin|Hin].
        { exfalso. exact (tick_event_not _ (EvUnStake res) Hev eq_refl Hin). }
        destruct (IH1 res Hin) as (Hclose & Hdone & pre & Hpre & Hall).
        split; [by right|]. split; [assumption|].
        exists (trace (tick fuel sw account key callIdx blk s) ++ pre).
        split; [by rewrite Hpre, app_assoc|by apply Forall_app_2].
      * intros res Hdone. apply List.in_or_app. right. by apply IH2.
    + split; [|intros res H; discriminate H].
      intros res Hin. exfalso.
      exact (tick_event_not _ (EvUnStake res) Hev eq_refl Hin).
    + split; [|intros res H; discriminate H].
      intros res Hin. exfalso.
      exact (tick_event_not _ (EvUnStake res) Hev eq_refl Hin).
    + split; [|intros res H; discriminate H].
      intros res Hin. exfalso.
      exact (tick_event_not _ (EvUnStake res) Hev eq_refl Hin).
  - destruct (Run_loop_close fuel sw account key callIdx rest s)
      as (res0 & Htr & Hout).
    rewrite Htr, Hout. split.
    + intros res [Hin|Hin].
      * injection Hin as <-. split; [by left|]. split; [reflexivity|].
        exists []. by split.
      * destruct res0; cbn in Hin; [|done].
        destruct Hin as [Hin|[]]. discriminate Hin.
    + intros res H. injection H as <-. by left.
Qed.

Lemma extracted_from_app (tr1 tr2 : list Event) :
  extracted_from (tr1 ++ tr2) = extracted_from tr1 ++ extracted_from tr2.
Proof. apply flat_map_app. Qed.

Lemma extracted_from_quiet (tr : list Event) :
  Forall (fun ev => forall blk res, ev <> EvFromAvail blk res) tr ->
  extracted_from tr = [].
Proof.
  induction 1 as [|ev tr Hev _ IH]; [reflexivity|].
  unfold extracted_from in *. cbn. rewrite IH.
  destruct ev; try reflexivity. by destruct (Hev blk res).
Qed.

Lemma tick_extracts (fuel : nat) (sw : SequencerWorker) (account : Account)
    (key : Key) (callIdx : CallIndex) (blk : SignedBlock) (s : State Env) :
  extracted_from (trace (tick fuel sw account key callIdx blk s)) = [blk].
Proof.
  assert (Hsettle : forall edgeBlks s1,
            extracted_from (trace (settle fuel sw account key edgeBlks s1))
            = []).
  { intros edgeBlks s1. apply extracted_from_quiet.
    eapply Forall_impl; [apply emits_settle|].
    intros ev Hev blk' res ->. discriminate Hev. }
  unfold tick. unfold_m. cbn.
  destruct (block_FromAvail _ _ _ _) as [edgeBlks err]. cbn.
  destruct ((length edgeBlks =? 0)%nat && bool_decide (err ≠ None)); cbn.
  - destruct (bool_decide (err ≠ Some ErrNoExtrinsicFound)); cbn;
      [reflexivity|].
    match goal with
    | |- context [settle ?f ?w ?a ?k ?b ?st] =>
        specialize (Hsettle b st); destruct (settle f w a k b st) as [[o s2] tr]
    end.
    cbn in *. unfold extracted_from in *. cbn. by rewrite Hsettle.
  - match goal with
    | |- context [settle ?f ?w ?a ?k ?b ?st] =>
        specialize (Hsettle b st); destruct (settle f w a k b st) as [[o s2] tr]
    end.
    cbn in *. unfold extracted_from in *. cbn. by rewrite Hsettle.
Qed.

Lemma Run_loop_extracts (fuel : nat) (sw : SequencerWorker)
    (account : Account) (key : Key) (callIdx : CallIndex)
    (sched : list Select) :
  forall s : State Env,
    let r := Run_loop fuel sw account key callIdx sched s in
    extracted_from (trace r) `prefix_of` delivered sched /\
    ((exists x, outcome r = Done x) ->
     extracted_from (trace r) = delivered sched).
Proof.
  induction sched as [|[blk|] rest IH]; intros s; cbn zeta.
  - cbn. split; [by exists []|done].
  - pose proof (Run_loop_cons fuel sw account key callIdx blk rest s) as Hc.
    pose proof (tick_extracts fuel sw account key callIdx blk s) as Hx.
    cbn zeta in Hc. cbn [delivered].
    destruct (outcome (tick fuel sw account key callIdx blk s)) eqn:Ho;
      destruct Hc as [Htr Hout]; rewrite Htr, Hout.
    + destruct (IH (final (tick fuel sw account key callIdx blk s)))
        as [IH1 IH2].
      rewrite extracted_from_app, Hx. cbn. split.
      * by apply prefix_cons.
      * intros Hdone. by rewrite IH2.
    + rewrite Hx. split; [|intros [x H]; discriminate H].
      exists (delivered rest). reflexivity.
    + rewrite Hx. split; [|intros [x H]; discriminate H].
      exists (delivered rest). reflexivity.
    + rewrite Hx. split; [|intros [x H]; discriminate H].
      exists (delivered rest). reflexivity.
  - destruct (Run_loop_close fuel sw account key callIdx rest s)
      as (res0 & Htr & Hout).
    rewrite Htr. cbn [delivered].
    assert (Hnone : extracted_from (EvUnStake res0 :: unstake_log res0) = []).
    { by destruct res0. }
    rewrite Hnone. split; [by exists []|done].
Qed.

Lemma started_In (sw : SequencerWorker) (bal : Z) (idx : CallIndex)
    (ev : Event) :
  In ev (started sw bal idx) ->
  ev = EvGetBalance (bal, None) \/
  ev = EvLog LvlInfo "Current avail account" \/
  ev = EvFindCallIndex (idx, None) \/
  ev = EvWaitForStakedSequencer (nodeAddr sw) \/
  ev = EvNewBlockStream \/
  ev = EvLog LvlInfo "Block stream successfully started.".
Proof. cbn. intuition auto. Qed.

End RunFacts.

Section RunTheorems.
Context {Env : Type} {C : Collaborators Env}.

Lemma closing_In {A} (o : Outcome (option A)) (ev : Event) :
  In ev (stream_closing o) ->
  ev = EvStreamClose /\
  ((exists res, o = Done (Some res)) \/ (exists msg, o = Panic msg)).
Proof.
  destruct o as [[res|]|msg| |]; cbn; intros H;
    try (destruct H; fail); destruct H as [<-|[]]; eauto.
Qed.

Lemma started_loop_event (sw : SequencerWorker) (bal : Z) (idx : CallIndex)
    (ev : Event) :
  In ev (started sw bal idx) ->
  ev <> EvStreamClose /\ forall res, ev <> EvUnStake res.
Proof.
  intros H. apply started_In in H.
  repeat destruct H as [->|H]; try subst ev; split; intros; discriminate.
Qed.

(** X6.  [Run] closes the block stream exactly when it opened one and
    then returned or panicked: the deferred [Close] is the last event of
    such a run and happens once; a run whose startup failed, or that is
    still in its loop, closes nothing.  The stream is opened at most
    once, and never after it was closed. *)
Theorem Run_closes_the_stream_it_opened
    (fuel : nat) (sw : SequencerWorker) (account : Account) (key : Key)
    (sched : list Select) (s : State Env) :
  let r := Run fuel sw account key sched s in
  (In EvStreamClose (trace r) <->
     In EvNewBlockStream (trace r) /\
     ((exists res, outcome r = Done (Some res)) \/
      (exists msg, outcome r = Panic msg))) /\
  (In EvStreamClose (trace r) ->
     exists pre,
       trace r = pre ++ [EvStreamClose] /\ ~ In EvStreamClose pre) /\
  (forall pre post,
     trace r = pre ++ EvNewBlockStream :: post ->
     ~ In EvNewBlockStream pre /\ ~ In EvNewBlockStream post /\
     ~ In EvStreamClose pre).
Proof.
  intros r.
  destruct (Run_shape fuel sw account key sched s)
    as [(bal & e & Htr & Hout)|[(bal & idx & e & Htr & Hout)
       |(bal & idx & s' & Htr & Hout)]]; fold r in Htr, Hout.
  - rewrite Htr. split_and!.
    + split; [intros [H|[]]; discriminate H|].
      intros [[H|[]] _]. discriminate H.
    + intros [H|[]]. discriminate H.
    + intros pre post H. do 2 split_head H.
  - rewrite Htr. split_and!.
    + split; [intros [H|[H|[H|[]]]]; discriminate H|].
      intros [[H|[H|[H|[]]]] _]; discriminate H.
    + intros [H|[H|[H|[]]]]; discriminate H.
    + intros pre post H. do 4 split_head H.
  - pose proof (emits_Run_loop fuel sw account key idx sched s') as Hev.
    set (loop := Run_loop fuel sw account key idx sched s') in *.
    assert (Hopen : In EvNewBlockStream (trace r)).
    { rewrite Htr. apply List.in_or_app. left. cbn. tauto. }
    assert (Hquiet : ~ In EvStreamClose (started sw bal idx ++ trace loop)).
    { intros H. apply List.in_app_or in H as [H|H].
      - by apply started_loop_event in H as [H _].
      - exact (loop_event_not _ EvStreamClose Hev eq_refl H). }
    assert (Hclosed : In EvStreamClose (trace r) ->
              stream_closing (outcome loop) = [EvStreamClose]).
    { rewrite Htr, app_assoc. intros H. apply List.in_app_or in H as [H|H].
      - by destruct (Hquiet H).
      - by destruct (outcome loop) as [[res|]|msg| |]. }
    split_and!.
    + split.
      * intros H. split; [assumption|]. rewrite Hout.
        apply Hclosed in H.
        by destruct (outcome loop) as [[res|]|msg| |]; eauto.
      * intros [_ H]. rewrite Htr, Hout in *.
        do 2 (apply List.in_or_app; right).
        destruct H as [[res ->]|[msg ->]]; cbn; tauto.
    + intros H. apply Hclosed in H.
      exists (started sw bal idx ++ trace loop).
      split; [by rewrite Htr, H, app_assoc|assumption].
    + intros pre post H. rewrite Htr in H.
      assert (Hrest : ~ In EvNewBlockStream
                        (trace loop ++ stream_closing (outcome loop))).
      { intros Hin. apply List.in_app_or in Hin as [Hin|Hin].
        - exact (loop_event_not _ EvNewBlockStream Hev eq_refl Hin).
        - apply closing_In in Hin as [Hin _]. discriminate Hin. }
      revert H Hrest. generalize (trace loop ++ stream_closing (outcome loop)).
      intros rest H Hrest. unfold started in H. cbn in H.
      do 4 split_head H. split_head H.
      * split_and!.
        -- intros [Hin|[Hin|[Hin|[Hin|[]]]]]; discriminate Hin.
        -- intros [Hin|Hin]; [discriminate Hin|by apply Hrest].
        -- intros [Hin|[Hin|[Hin|[Hin|[]]]]]; discriminate Hin.
      * exfalso.
        assert (Hin : In EvNewBlockStream
                  (EvLog LvlInfo "Block stream successfully started." :: rest)).
        { rewrite H. apply List.in_elt. }
        destruct Hin as [Hin|Hin]; [discriminate Hin|by apply Hrest].
Qed.


(** X8.  [Run] unstakes only in its close branch, and that is the only way
    its loop returns: an unstaking happens once, on a close signal, and
    [Run] returns what [UnStake] returned (the error as it is) having
    done nothing after it but log the failure and close the stream; a nil
    return means a successful unstaking, and a returned error is that of
    a failed unstaking or of a failed startup.  No failure inside an
    iteration makes [Run] return. *)
Theorem Run_returns_on_close_only
    (fuel : nat) (sw : SequencerWorker) (account : Account) (key : Key)
    (sched : list Select) (s : State Env) :
  let r := Run fuel sw account key sched s in
  (forall res,
      In (EvUnStake res) (trace r) ->
      In RecvClose sched /\ outcome r = Done (Some res) /\
      exists pre,
        trace r = pre ++ EvUnStake res :: unstake_log res ++ [EvStreamClose] /\
        forall res', ~ In (EvUnStake res') pre) /\
  (outcome r = Done (Some None) -> In (EvUnStake None) (trace r)) /\
  (forall e,
      outcome r = Done (Some (Some e)) ->
      In (EvUnStake (Some e)) (trace r) \/ ~ In EvNewBlockStream (trace r)).
Proof.
  intros r.
  destruct (Run_shape fuel sw account key sched s)
    as [(bal & e & Htr & Hout)|[(bal & idx & e & Htr & Hout)
       |(bal & idx & s' & Htr & Hout)]]; fold r in Htr, Hout.
  - rewrite Htr, Hout. split_and!.
    + intros res [H|[]]. discriminate H.
    + intros H. discriminate H.
    + intros e' _. right. intros [H|[]]. discriminate H.
  - rewrite Htr, Hout. split_and!.
    + intros res [H|[H|[H|[]]]]; discriminate H.
    + intros H. discriminate H.
    + intros e' _. right. intros [H|[H|[H|[]]]]; discriminate H.
  - destruct (Run_loop_unstake fuel sw account key idx sched s') as [H1 H2].
    set (loop := Run_loop fuel sw account key idx sched s') in *.
    rewrite Htr, Hout. split_and!.
    + intros res Hin.
      assert (Hloop : In (EvUnStake res) (trace loop)).
      { apply List.in_app_or in Hin as [Hin|Hin].
        - apply started_loop_event in Hin as [_ Hin]. by destruct (Hin res).
        - apply List.in_app_or in Hin as [Hin|Hin]; [assumption|].
          apply closing_In in Hin as [Hin _]. discriminate Hin. }
      destruct (H1 res Hloop) as (Hclose & Hdone & pre & Hpre & Hall).
      split; [assumption|]. split; [assumption|].
      exists (started sw bal idx ++ pre). split.
      * rewrite Hpre, Hdone. cbn [stream_closing].
        by rewrite <- !app_assoc.
      * intros res' Hin'. apply List.in_app_or in Hin' as [Hin'|Hin'].
        -- apply started_loop_event in Hin' as [_ Hin'].
           by destruct (Hin' res').
        -- exact (tick_event_not _ (EvUnStake res') Hall eq_refl Hin').
    + intros Hdone. apply List.in_or_app. right.
      apply List.in_or_app. left. by apply H2.
    + intros e Hdone. left. apply List.in_or_app. right.
      apply List.in_or_app. left. by apply H2.
Qed.

(** X9.  [Run] handles the DA blocks one at a time, in the order the
    stream delivers them: the blocks it extracts settlement blocks from
    are, in order and each once, the blocks delivered before the close
    signal, up to the iteration at which the run stopped; they are all of
    them when [Run] entered its loop and neither panicked nor hung. *)
Theorem Run_handles_blocks_in_order
    (fuel : nat) (sw : SequencerWorker) (account : Account) (key : Key)
    (sched : list Select) (s : State Env) :
  let r := Run fuel sw account key sched s in
  extracted_from (trace r) `prefix_of` delivered sched /\
  (In EvNewBlockStream (trace r) -> (exists x, outcome r = Done x) ->
   extracted_from (trace r) = delivered sched).
Proof.
  intros r.
  destruct (Run_shape fuel sw account key sched s)
    as [(bal & e & Htr & Hout)|[(bal & idx & e & Htr & Hout)
       |(bal & idx & s' & Htr & Hout)]]; fold r in Htr, Hout.
  - rewrite Htr. split; [by exists (delivered sched)|].
    intros [H|[]]. discriminate H.
  - rewrite Htr. split; [by exists (delivered sched)|].
    intros [H|[H|[H|[]]]]; discriminate H.
  - destruct (Run_loop_extracts fuel sw account key idx sched s') as [H1 H2].
    set (loop := Run_loop fuel sw account key idx sched s') in *.
    assert (Hx : extracted_from (trace r) = extracted_from (trace loop)).
    { rewrite Htr, !extracted_from_app.
      assert (Hc : extracted_from (stream_closing (outcome loop)) = []).
      { by destruct (outcome loop) as [[res|]|msg| |]. }
      rewrite Hc, app_nil_r. reflexivity. }
    rewrite Hx, Hout. split; [assumption|]. intros _. exact H2.
Qed.

(** X10.  A worker built by [NewSequencer] has a nil close channel,
    whatever channel the constructor was given, and the constructor never
    fails.  On every schedule its [select] can receive, [Run] on such a
    worker never unstakes and never returns nil: it returns only the error
    of a failed startup. *)
Theorem NewSequencer_drops_closeCh
    (availAppID : Z) (nodeSignKey : PrivateKey) (nodeAddr : Address)
    (nodeType : MechanismType) (ch : chan) (blockTime : time.Duration)
    (fuel : nat) (account : Account) (key : Key) (sched : list Select)
    (s : State Env) :
  let built :=
    NewSequencer availAppID nodeSignKey nodeAddr nodeType ch blockTime in
  let r := Run fuel (worker built.1) account key sched s in
  deliverable (closeCh built.1) sched ->
  built.2 = None /\
  closeCh built.1 = chan_nil /\
  (forall res, ~ In (EvUnStake res) (trace r)) /\
  outcome r <> Done (Some None) /\
  (forall e, outcome r = Done (Some (Some e)) ->
             ~ In EvNewBlockStream (trace r)).
Proof.
  intros built r Hsched.
  assert (Hnone : ~ In RecvClose sched) by (by apply Hsched).
  set (sw := worker built.1) in *.
  assert (Hquiet : forall res, ~ In (EvUnStake res) (trace r)).
  { intros res Hin.
    destruct (Run_shape fuel sw account key sched s)
      as [(bal & e & Htr & Hout)|[(bal & idx & e & Htr & Hout)
         |(bal & idx & s' & Htr & Hout)]]; fold r in Htr, Hout;
      rewrite Htr in Hin.
    - destruct Hin as [H|[]]. discriminate H.
    - destruct Hin as [H|[H|[H|[]]]]; discriminate H.
    - destruct (Run_loop_unstake fuel sw account key idx sched s') as [H1 _].
      apply List.in_app_or in Hin as [Hin|Hin].
      + apply started_loop_event in Hin as [_ Hin]. by destruct (Hin res).
      + apply List.in_app_or in Hin as [Hin|Hin].
        * by destruct (H1 res Hin) as (Hclose & _).
        * apply closing_In in Hin as [Hin _]. discriminate Hin. }
  assert (Hret : forall res, outcome r = Done (Some res) ->
                             ~ In EvNewBlockStream (trace r)).
  { intros res Hdone.
    destruct (Run_shape fuel sw account key sched s)
      as [(bal & e & Htr & Hout)|[(bal & idx & e & Htr & Hout)
         |(bal & idx & s' & Htr & Hout)]]; fold r in Htr, Hout.
    - rewrite Htr. intros [H|[]]. discriminate H.
    - rewrite Htr. intros [H|[H|[H|[]]]]; discriminate H.
    - exfalso.
      destruct (Run_loop_unstake fuel sw account key idx sched s') as [H1 H2].
      rewrite Hout in Hdone. apply H2 in Hdone.
      by destruct (H1 res Hdone) as (Hclose & _). }
  split_and!; try reflexivity; try assumption.
  - intros Hnil.
    destruct (Run_shape fuel sw account key sched s)
      as [(bal & e & Htr & Hout)|[(bal & idx & e & Htr & Hout)
         |(bal & idx & s' & Htr & Hout)]]; fold r in Htr, Hout.
    + rewrite Hout in Hnil. discriminate Hnil.
    + rewrite Hout in Hnil. discriminate Hnil.
    + apply (Hret None Hnil). rewrite Htr. apply List.in_or_app. left.
      cbn. tauto.
  - intros e He. exact (Hret (Some e) He).
Qed.

End RunTheorems.

(** ** The selector: what it returns and what it removes *)

Lemma justified_cons (gasLimit : Z) (x : Event) (pre : list Event)
    (ev : Event) :
  justified gasLimit pre ev -> justified gasLimit (x :: pre) ev.
Proof.
  destruct ev; cbn; try done.
  - intros (Hg & pre' & ->). split; [assumption|]. by exists (x :: pre').
  - intros [(Hg & pre' & ->)|(Hg & pre' & e & -> & Hn)].
    + left. split; [assumption|]. by exists (x :: pre').
    + right. split; [assumption|]. by exists (x :: pre'), e.
  - intros (Hg & pre' & msg & ->). split; [assumption|].
    by exists (x :: pre'), msg.
Qed.

Lemma selection_removal (gasLimit : Z) (acc : list Transaction)
    (tr : list Event) (o : Outcome (list Transaction)) :
  selection gasLimit acc tr o ->
  forall pre ev post, tr = pre ++ ev :: post -> justified gasLimit pre ev.
Proof.
  induction 1 as [acc|acc|acc tx0 tr o Hx H IH|acc tx0 msg Hx
                 |acc tx0 msg tr o Hx H IH|acc tx0 e tr o Hx Hn1 Hn2 H IH
                 |acc tx0 tr o Hx H IH]; intros pre ev post Hsplit;
    unfold ExceedsBlockGasLimit in *;
    try (apply Z.ltb_lt in Hx); try (apply Z.ltb_ge in Hx).
  - by destruct pre.
  - split_head Hsplit. by subst ev.
  - split_head Hsplit; [by subst ev|].
    split_head Hsplit; [by subst ev|].
    split_head Hsplit.
    { subst ev. left. split; [assumption|]. by exists []. }
    do 3 apply justified_cons. by eapply IH.
  - split_head Hsplit; [by subst ev|].
    split_head Hsplit; [by subst ev|].
    split_head Hsplit; [by subst ev|].
    split_head Hsplit. by subst ev.
  - split_head Hsplit; [by subst ev|].
    split_head Hsplit; [by subst ev|].
    split_head Hsplit; [by subst ev|].
    split_head Hsplit; [by subst ev|].
    split_head Hsplit.
    { subst ev. split; [assumption|]. by exists [], msg. }
    do 5 apply justified_cons. by eapply IH.
  - split_head Hsplit; [by subst ev|].
    split_head Hsplit; [by subst ev|].
    split_head Hsplit; [by subst ev|].
    split_head Hsplit; [by subst ev|].
    split_head Hsplit.
    { subst ev. right. split; [assumption|]. by exists [], e. }
    do 5 apply justified_cons. by eapply IH.
  - split_head Hsplit; [by subst ev|].
    split_head Hsplit; [by subst ev|].
    split_head Hsplit; [by subst ev|].
    split_head Hsplit.
    { subst ev. split; [assumption|]. by exists []. }
    do 4 apply justified_cons. by eapply IH.
Qed.

Lemma selection_within (gasLimit : Z) (acc : list Transaction)
    (tr : list Event) (o : Outcome (list Transaction)) :
  selection gasLimit acc tr o ->
  Forall (fun tx => Gas tx <= gasLimit) (popped tr).
Proof.
  induction 1 as [acc|acc|acc tx0 tr o Hx H IH|acc tx0 msg Hx
                 |acc tx0 msg tr o Hx H IH|acc tx0 e tr o Hx Hn1 Hn2 H IH
                 |acc tx0 tr o Hx H IH]; cbn; try assumption;
    try constructor; try assumption.
  unfold ExceedsBlockGasLimit in Hx. by apply Z.ltb_ge in Hx.
Qed.

Lemma selection_prepared (gasLimit : Z) (acc : list Transaction)
    (tr : list Event) (o : Outcome (list Transaction)) :
  selection gasLimit acc tr o -> ~ In EvPrepare tr.
Proof.
  induction 1; cbn; intros Hin;
    repeat destruct Hin as [Hin|Hin]; try discriminate Hin; tauto.
Qed.

Section SelectorSummary.
Context {Env : Type} {C : Collaborators Env}.
Context {T : Type} {TI : transitionInterface Env T}.

(** What the rest of block production needs to know of the selector. *)
Lemma writeTransactions_summary (fuel : nat) (gasLimit : Z) (transition : T)
    (s : State Env) :
  let r := writeTransactions fuel gasLimit transition s in
  Forall (fun ev => selector_event ev = true) (trace r) /\
  Forall (fun tx => Gas tx <= gasLimit) (popped (trace r)) /\
  (outcome r = OutOfFuel \/ outcome r = Done (popped (trace r))).
Proof.
  cbn zeta.
  destruct (writeTransactions_trace fuel gasLimit transition s)
    as (tr & -> & Hsel).
  split_and!.
  - constructor; [reflexivity|]. eapply selection_events; eassumption.
  - cbn. eapply selection_within; eassumption.
  - destruct (selection_outcome gasLimit [] tr _ Hsel) as [Ho|[l Ho]];
      [by left|right].
    rewrite Ho. f_equal. cbn.
    exact (selection_result gasLimit [] tr _ Hsel l Ho).
Qed.

(** X11.  [writeTransactions] returns exactly the transactions it popped
    from the pool, in the order it popped them; a transaction that was
    dropped, demoted or left in the pool is not returned.  Each of them
    has a gas allowance within the block gas limit the selector was
    given. *)
Theorem writeTransactions_returns_the_popped
    (fuel : nat) (gasLimit : Z) (transition : T) (s : State Env) :
  let r := writeTransactions fuel gasLimit transition s in
  (forall included, outcome r = Done included ->
                    included = popped (trace r)) /\
  Forall (fun tx => Gas tx <= gasLimit) (popped (trace r)).
Proof.
  intros r.
  destruct (writeTransactions_summary fuel gasLimit transition s)
    as (_ & Hgas & Ho). fold r in Hgas, Ho.
  split; [|assumption].
  intros included Hdone. destruct Ho as [Ho|Ho]; congruence.
Qed.

(** X12.  Every removal the selector makes from the pool is justified by
    what came just before it.  A transaction is popped only right after
    its own execution returned no error; it is demoted only right after
    its own execution returned a recoverable application error; it is
    dropped only right after it was peeked with a gas allowance above the
    block gas limit, or right after its own execution returned an error
    that is neither gas-limit-reached nor recoverable.  The transaction
    removed is always the one the latest [Peek] returned, and [Prepare]
    is called once, before everything else. *)
Theorem selector_removals_are_justified
    (fuel : nat) (gasLimit : Z) (transition : T) (s : State Env) :
  let r := writeTransactions fuel gasLimit transition s in
  (exists tr, trace r = EvPrepare :: tr /\ ~ In EvPrepare tr) /\
  (forall pre ev post,
      trace r = pre ++ ev :: post -> justified gasLimit pre ev).
Proof.
  intros r.
  destruct (writeTransactions_trace fuel gasLimit transition s)
    as (tr & Htr & Hsel). fold r in Htr, Hsel.
  split.
  - exists tr. split; [assumption|]. eapply selection_prepared; eassumption.
  - intros pre ev post Hsplit. rewrite Htr in Hsplit.
    split_head Hsplit; [by subst ev|].
    apply justified_cons.
    exact (selection_removal gasLimit [] tr _ Hsel _ ev post Hsplit).
Qed.

End SelectorSummary.

(** ** The selector returns when removals shrink the pool

    The loop of [writeTransactions] has no bound of its own.  It ends
    for every pool that has a size which no call of the selector makes
    larger and which every removal of the transaction on offer makes
    smaller. *)

Section SelectorReturns.
Context {Env : Type} {C : Collaborators Env}.
Context {T : Type} {TI : transitionInterface Env T}.

(** How many transactions the pool can still offer. *)
Variable size : Env -> nat.
(** The transaction the pool offers next. *)
Variable offered : Transaction -> Env -> Prop.

Hypothesis Peek_offers : forall e tx e',
  txpool_Peek e = (Some tx, e') -> offered tx e' /\ (size e' <= size e)%nat.
Hypothesis Write_keeps : forall (transition : T) tx e res e',
  Write transition tx e = (res, e') -> offered tx e ->
  offered tx e' /\ (size e' <= size e)%nat.
Hypothesis Pop_shrinks : forall tx e,
  offered tx e -> (size (txpool_Pop tx e) < size e)%nat.
Hypothesis Drop_shrinks : forall tx e,
  offered tx e -> (size (txpool_Drop tx e) < size e)%nat.
Hypothesis Demote_shrinks : forall tx e,
  offered tx e -> (size (txpool_Demote tx e) < size e)%nat.

Lemma writeTransactions_loop_returns (fuel : nat) :
  forall (gasLimit : Z) (transition : T) (acc : list Transaction)
         (s : State Env),
    (size (env s) < fuel)%nat ->
    outcome (writeTransactions_loop fuel gasLimit transition acc s)
    <> OutOfFuel.
Proof.
  induction fuel as [|fuel IH]; intros gasLimit transition acc s Hfuel;
    [lia|].
  cbn [writeTransactions_loop]. unfold_m.
  destruct (txpool_Peek (env s)) as [[tx|] e1] eqn:Hpeek; cbn;
    [|discriminate].
  destruct (Peek_offers _ _ _ Hpeek) as [Hoff Hsize].
  assert (Hnext : forall (a : list Transaction) (e : Env),
            (size e < size e1)%nat ->
            outcome (writeTransactions_loop fuel gasLimit transition a
                       (mkState e (t_value s))) <> OutOfFuel).
  { intros a e He. apply IH. cbn. lia. }
  destruct (ExceedsBlockGasLimit tx gasLimit); cbn.
  - specialize (Hnext acc (txpool_Drop tx e1) (Drop_shrinks _ _ Hoff)).
    destruct (writeTransactions_loop _ _ _ _ _) as [[[] ?] ?];
      cbn in *; congruence.
  - destruct (Write transition tx e1) as [res e2] eqn:Hwrite. cbn.
    destruct (Write_keeps _ _ _ _ _ Hwrite Hoff) as [Hoff2 Hsize2].
    assert (Hnext2 : forall (a : list Transaction) (e : Env),
              (size e < size e2)%nat ->
              outcome (writeTransactions_loop fuel gasLimit transition a
                         (mkState e (t_value s))) <> OutOfFuel).
    { intros a e He. apply Hnext. lia. }
    destruct res as [[|msg|[|] msg|msg]|]; cbn; try discriminate.
    + specialize (Hnext2 acc _ (Drop_shrinks _ _ Hoff2)).
      destruct (writeTransactions_loop _ _ _ _ _) as [[[] ?] ?];
        cbn in *; congruence.
    + specialize (Hnext2 acc _ (Demote_shrinks _ _ Hoff2)).
      destruct (writeTransactions_loop _ _ _ _ _) as [[[] ?] ?];
        cbn in *; congruence.
    + specialize (Hnext2 acc _ (Drop_shrinks _ _ Hoff2)).
      destruct (writeTransactions_loop _ _ _ _ _) as [[[] ?] ?];
        cbn in *; congruence.
    + specialize (Hnext2 acc _ (Drop_shrinks _ _ Hoff2)).
      destruct (writeTransactions_loop _ _ _ _ _) as [[[] ?] ?];
        cbn in *; congruence.
    + specialize (Hnext2 (acc ++ [tx]) _ (Pop_shrinks _ _ Hoff2)).
      destruct (writeTransactions_loop _ _ _ _ _) as [[[] ?] ?];
        cbn in *; congruence.
Qed.

(** X13.  [writeTransactions] returns.  For a pool with a size that
    [Peek] and the execution of the transaction on offer do not make
    larger, and that popping, dropping or demoting the transaction on
    offer makes smaller, the loop ends after at most as many iterations
    as the size of the pool after [Prepare], plus one: with that much
    fuel the selector returns its list of included transactions. *)
Theorem selector_returns_on_shrinking_pool
    (fuel : nat) (gasLimit : Z) (transition : T) (s : State Env) :
  (size (txpool_Prepare (env s)) < fuel)%nat ->
  exists included,
    outcome (writeTransactions fuel gasLimit transition s) = Done included /\
    included = popped (trace (writeTransactions fuel gasLimit transition s)).
Proof.
  intros Hfuel.
  destruct (writeTransactions_trace fuel gasLimit transition s)
    as (tr & Htr & Hsel).
  destruct (selection_outcome gasLimit [] tr _ Hsel) as [Hout|[l Hdone]].
  - exfalso. rewrite writeTransactions_outcome in Hout. revert Hout.
    by apply writeTransactions_loop_returns.
  - exists l. split; [assumption|]. rewrite Htr. cbn.
    exact (selection_result gasLimit [] tr _ Hsel l Hdone).
Qed.

End SelectorReturns.


(** ** Block production: what goes into the block *)

Section Assembly.
Context {Env : Type} {C : Collaborators Env}.

Arguments writeTransactions : simpl never.
Arguments set_GasLimit : simpl never.
Arguments set_Timestamp : simpl never.
Arguments set_StateRoot : simpl never.
Arguments set_GasUsed : simpl never.
Arguments ZeroHash : simpl never.
Arguments wrap_uint64 : simpl never.
Arguments wrap_int64 : simpl never.
Arguments time.Unix : simpl never.
Arguments time.Add : simpl never.
Arguments time.Before : simpl never.
Arguments popped : simpl never.

(** Symbolic execution of the producer: case on the next collaborator
    result, keeping of the selector what [writeTransactions_summary]
    says. *)
Ltac run_assembly :=
  repeat first
    [ progress cbn
    | lazymatch goal with
      | |- context [writeTransactions ?f ?g ?t ?s] =>
          let Hs := fresh "Hsel" in
          let Hg := fresh "Hgas" in
          let Ho := fresh "Hout" in
          destruct (writeTransactions_summary f g t s) as (Hs & Hg & Ho);
          destruct (writeTransactions f g t s) as [[[] ?] ?];
          cbn in Hs, Hg, Ho; destruct Ho as [Ho|Ho]; try discriminate Ho;
          try (injection Ho as ->)
      | |- _ =>
          match goal with
          | |- context [match ?x with _ => _ end] =>
              lazymatch x with
              | context [match _ with _ => _ end] => fail
              | _ => destruct x eqn:?
              end
          end
      end ].

(** Find an event in a trace that is laid out: case on where it is, and
    rule out the part the selector emitted. *)
Ltac hunt H :=
  repeat match type of H with
    | _ \/ _ => destruct H as [H|H]
    | False => destruct H
    | In _ [] => destruct H
    | In _ (_ :: _) => destruct H as [H|H]
    | In _ (_ ++ _) => apply List.in_app_or in H
    | In ?x ?l =>
        match goal with
        | Hs : Forall (fun ev => selector_event ev = true) l |- _ =>
            exfalso; eapply List.Forall_forall in Hs; [|exact H];
            discriminate Hs
        end
    | _ = _ => first [discriminate H | injection H as H; subst]
    end.

Lemma popped_selector_only (tr1 tr2 tr3 : list Event) :
  popped tr1 = [] -> popped tr3 = [] ->
  popped (tr1 ++ tr2 ++ tr3) = popped tr2.
Proof.
  unfold popped. intros H1 H3.
  by rewrite !flat_map_app, H1, H3, app_nil_r.
Qed.

Lemma writeBlock_header_fields (fuel : nat) (sw : SequencerWorker)
    (myAccount : Account) (signKey : Key) (parent : Header) (s : State Env) :
  let r := writeBlock fuel sw myAccount signKey parent s in
  forall h vs res,
    In (EvAssignExtraValidators h vs res) (trace r) ->
    ParentHash h = HeaderHash parent /\
    Number h = wrap_uint64 (Number parent + 1) /\
    Miner h = Bytes (AccountAddress myAccount) /\
    Nonce h = 0 /\ GasUsed h = 0 /\ StateRoot h = ZeroHash /\
    ExtraData h = [] /\ HeaderHash h = ZeroHash /\
    vs = [StringToAddress_Hex (AccountAddress myAccount)] /\
    In (EvCalculateGasLimit (Number h) (GasLimit h, None)) (trace r).
Proof.
  cbn zeta. unfold writeBlock. unfold_m. run_assembly.
  all: let H := fresh "Hin" in intros ? ? ? H; hunt H.
  all: split_and!; try reflexivity.
  all: right; left; reflexivity.
Qed.

Ltac found :=
  solve [repeat first [left; reflexivity | right
                      | apply List.in_or_app; right]].

Lemma writeBlock_begin (fuel : nat) (sw : SequencerWorker)
    (myAccount : Account) (signKey : Key) (parent : Header) (s : State Env) :
  let r := writeBlock fuel sw myAccount signKey parent s in
  forall root hdr coinbase res,
    In (EvBeginTxn root hdr coinbase res) (trace r) ->
    root = StateRoot parent /\
    coinbase = StringToAddress_Hex (AccountAddress myAccount) /\
    exists h vs, In (EvAssignExtraValidators h vs (hdr, None)) (trace r).
Proof.
  cbn zeta. unfold writeBlock. unfold_m. run_assembly.
  all: let H := fresh "Hin" in intros ? ? ? ? H; hunt H.
  all: split_and!; try reflexivity.
  all: eexists _, _; found.
Qed.

(** X14.  The header [writeBlock] builds.  When it is handed to
    [AssignExtraValidators] it has the parent's hash as parent hash, the
    parent's number plus one, the account's address as miner, zero nonce,
    gas used and state root, no extra data, and as gas limit what
    [CalculateGasLimit] returned for its number: the limit inherited from
    the parent never stays.  The only extra validator is the account's
    address.  [BeginTxn] is then called on the parent's state root, with
    the header [AssignExtraValidators] returned and the account's address
    as coinbase. *)
Theorem writeBlock_builds_the_header
    (fuel : nat) (sw : SequencerWorker) (myAccount : Account)
    (signKey : Key) (parent : Header) (s : State Env) :
  let r := writeBlock fuel sw myAccount signKey parent s in
  (forall h vs res,
      In (EvAssignExtraValidators h vs res) (trace r) ->
      ParentHash h = HeaderHash parent /\
      Number h = wrap_uint64 (Number parent + 1) /\
      Miner h = Bytes (AccountAddress myAccount) /\
      Nonce h = 0 /\ GasUsed h = 0 /\ StateRoot h = ZeroHash /\
      ExtraData h = [] /\ HeaderHash h = ZeroHash /\
      vs = [StringToAddress_Hex (AccountAddress myAccount)] /\
      In (EvCalculateGasLimit (Number h) (GasLimit h, None)) (trace r)) /\
  (forall root hdr coinbase res,
      In (EvBeginTxn root hdr coinbase res) (trace r) ->
      root = StateRoot parent /\
      coinbase = StringToAddress_Hex (AccountAddress myAccount) /\
      exists h vs, In (EvAssignExtraValidators h vs (hdr, None)) (trace r)).
Proof.
  intros r. split.
  - exact (writeBlock_header_fields fuel sw myAccount signKey parent s).
  - exact (writeBlock_begin fuel sw myAccount signKey parent s).
Qed.

(** X15.  The block [writeBlock] builds.  [BuildBlock] receives exactly
    the transactions the selector popped from the pool, in order, each
    with a gas allowance within the gas limit of the header; its header
    is the one [AssignExtraValidators] returned, but for the state root,
    which is the root [Commit] returned, and the gas used.  Once
    [BeginTxn] has succeeded and the selector has returned, a block is
    built whatever the pool offered, be it nothing. *)
Theorem writeBlock_builds_the_block
    (fuel : nat) (sw : SequencerWorker) (myAccount : Account)
    (signKey : Key) (parent : Header) (s : State Env) :
  let r := writeBlock fuel sw myAccount signKey parent s in
  (forall b,
      In (EvBuildBlock b) (trace r) ->
      exists h vs extended root used receipts,
        b = consensus_BuildBlock
              (set_GasUsed used (set_StateRoot root extended))
              (popped (trace r)) receipts /\
        In (EvAssignExtraValidators h vs (extended, None)) (trace r) /\
        In (EvCommit root) (trace r) /\
        Forall (fun tx => Gas tx <= GasLimit h) (popped (trace r))) /\
  (forall root hdr coinbase,
      In (EvBeginTxn root hdr coinbase None) (trace r) ->
      outcome r <> OutOfFuel ->
      exists b, In (EvBuildBlock b) (trace r)).
Proof.
  cbn zeta. split.
  - unfold writeBlock. unfold_m. run_assembly.
    all: let H := fresh "Hin" in intros ? H; hunt H.
    all: unfold popped in *; cbn; rewrite ?flat_map_app; cbn;
      rewrite ?app_nil_r.
    all: eexists _, _, _, _, _, _; split_and!.
    all: try reflexivity.
    all: try found.
    all: exact Hgas.
  - unfold writeBlock. unfold_m. run_assembly.
    all: let H := fresh "Hin" in
         let Hf := fresh "Hfuel" in
         intros ? ? ? H Hf; hunt H; try (by destruct Hf).
    all: eexists; found.
Qed.

(** X16.  The block [writeBlock] submits.  Every submission to the DA
    sender asks for the in-block status and carries the block that was
    built, with the same transactions, its header being the header
    [WriteSeal] returned for the built block's header with the hash
    computed on it. *)
Theorem writeBlock_submits_the_sealed_block
    (fuel : nat) (sw : SequencerWorker) (myAccount : Account)
    (signKey : Key) (parent : Header) (s : State Env) :
  let r := writeBlock fuel sw myAccount signKey parent s in
  forall b status res,
    In (EvSendAndWaitForStatus b status res) (trace r) ->
    status = InBlock /\
    exists built sealed,
      b = mkBlock (Header_ComputeHash sealed) (Transactions built) /\
      In (EvBuildBlock built) (trace r) /\
      In (EvWriteSeal (BlockHeader built) (sealed, None)) (trace r).
Proof.
  cbn zeta. unfold writeBlock. unfold_m. run_assembly.
  all: let H := fresh "Hin" in intros ? ? ? H; hunt H.
  all: split; [reflexivity|].
  all: eexists _, _; split_and!.
  all: try reflexivity.
  all: found.
Qed.

End Assembly.

(** ** The head a leader builds on *)

Lemma app_split_later {A} (x : A) (X Y pre post : list A) :
  X ++ Y = pre ++ x :: post -> ~ In x X ->
  exists pre', pre = X ++ pre' /\ Y = pre' ++ x :: post.
Proof.
  revert pre. induction X as [|a X IH]; intros pre H Hx; cbn in *.
  - by exists pre.
  - destruct pre as [|a' pre]; cbn in H; injection H as -> H.
    + exfalso. apply Hx. by left.
    + destruct (IH pre H) as (pre' & -> & HY); [tauto|].
      by exists pre'.
Qed.

Lemma builder_not_In (tr : list Event) (ev : Event) :
  Forall (fun ev => builder_event ev = false) tr ->
  builder_event ev = true -> ~ In ev tr.
Proof.
  intros Hall Hev Hin. eapply List.Forall_forall in Hall; [|exact Hin].
  congruence.
Qed.

Lemma producer_not_In (tr : list Event) (ev : Event) :
  Forall (fun ev => producer_event ev = true) tr ->
  producer_event ev = false -> ~ In ev tr.
Proof.
  intros Hall Hev Hin. eapply List.Forall_forall in Hall; [|exact Hin].
  congruence.
Qed.

Lemma writes_quiet (source : string) (edgeBlks : list Block)
    (results : list (option error)) :
  Forall (fun ev => builder_event ev = false)
    (zip_with (fun b res => EvWriteBlock b source res) edgeBlks results).
Proof.
  revert results. induction edgeBlks as [|b rest IH]; intros [|res results];
    cbn; constructor; [reflexivity|apply IH].
Qed.

Lemma writes_all (source : string) (edgeBlks : list Block)
    (results : list (option error)) (b : Block) :
  length results = length edgeBlks -> In b edgeBlks ->
  exists res,
    In (EvWriteBlock b source res)
       (zip_with (fun b res => EvWriteBlock b source res) edgeBlks results).
Proof.
  revert results. induction edgeBlks as [|b0 rest IH];
    intros [|res results] Hlen Hin; cbn in *; try done.
  destruct Hin as [->|Hin].
  - exists res. by left.
  - destruct (IH results) as [res' Hres]; [congruence|assumption|].
    exists res'. by right.
Qed.

Lemma extraction_quiet (sw : SequencerWorker) (blk : SignedBlock)
    (edgeBlks : list Block) (err : option error)
    (results : list (option error)) :
  Forall (fun ev => builder_event ev = false)
         (extraction sw blk edgeBlks err results).
Proof.
  unfold extraction. do 2 (constructor; [reflexivity|]).
  apply Forall_app_2; [|apply writes_quiet].
  destruct (_ && _); by repeat constructor.
Qed.

Section HeadFacts.
Context {Env : Type} {C : Collaborators Env}.

Arguments writeBlock : simpl never.
Arguments settle : simpl never.
Arguments elect : simpl never.
Arguments extraction : simpl never.

(** Where the leader branch reads the chain head, and what follows. *)
Lemma elect_head (fuel : nat) (sw : SequencerWorker) (account : Account)
    (key : Key) (s : State Env) :
  forall pre h post,
    trace (elect fuel sw account key s) = pre ++ EvHeader h :: post ->
    Forall (fun ev => builder_event ev = false) pre /\
    exists s' tail,
      post = EvLog LvlInfo my_turn_msg
             :: trace (writeBlock fuel sw account key h s') ++ tail /\
      Forall (fun ev => builder_event ev = false) tail.
Proof.
  unfold elect. unfold_m. cbn.
  destruct (querier_Contains _ _ _) as [[staked [e|]] e1]; cbn.
  { intros pre h post H. repeat split_head H. }
  destruct staked; cbn; [|intros pre h post H; repeat split_head H].
  destruct (querier_Get _ _) as [[sequencers [e|]] e2]; cbn.
  { intros pre h post H. repeat split_head H. }
  destruct sequencers as [|first others]; cbn.
  { intros pre h post H. repeat split_head H. }
  destruct (bytes_Equal _ _) eqn:Hturn; cbn;
    [|intros pre h post H; repeat split_head H].
  pose proof (writeBlock_events fuel sw account key (blockchain_Header e2)
                (mkState e2 (t_value s))) as Hev.
  destruct (writeBlock fuel sw account key (blockchain_Header e2)
              (mkState e2 (t_value s))) as [[o s3] produced] eqn:Hwb.
  cbn in Hev.
  destruct o as [[e|]| | |]; cbn; rewrite ?app_nil_r;
    intros pre h post H; do 2 split_head H; split_head H.
  all: try match goal with
    | Hh : EvHeader _ = EvHeader _ |- _ =>
        injection Hh as <-; split; [by repeat constructor|];
        exists (mkState e2 (t_value s)); rewrite Hwb; cbn;
        first [ exists [EvLog LvlError mine_failed_msg];
                split; [reflexivity|by repeat constructor]
              | exists []; rewrite ?app_nil_r;
                split; [reflexivity|constructor] ]
    end.
  all: exfalso; split_head H.
  all: match goal with
    | Hs : _ = ?p ++ EvHeader ?hh :: ?q |- _ =>
        pose proof (List.in_elt (EvHeader hh) p q) as Hin;
        rewrite <- Hs in Hin
    end.
  all: try (apply List.in_app_or in Hin as [Hin|Hin]).
  all: try match goal with
    | Hi : In (EvHeader ?hh) ?l,
      He : Forall (fun ev => producer_event ev = true) ?l |- _ =>
        exact (producer_not_In l (EvHeader hh) He eq_refl Hi)
    end.
  all: destruct Hin as [Hin|[]]; discriminate Hin.
Qed.

Lemma settle_elects (fuel : nat) (sw : SequencerWorker) (account : Account)
    (key : Key) (edgeBlks : list Block) (s : State Env) :
  exists results flag,
    length results = length edgeBlks /\
    ((exists e,
        trace (settle fuel sw account key edgeBlks s) =
          zip_with (fun b res => EvWriteBlock b (String (nodeType sw)) res)
                   edgeBlks results
          ++ [EvCheckAndSetFraudBlock edgeBlks;
              EvCheckAndSlash (flag, Some e)]) \/
     (exists s',
        trace (settle fuel sw account key edgeBlks s) =
          zip_with (fun b res => EvWriteBlock b (String (nodeType sw)) res)
                   edgeBlks results
          ++ [EvCheckAndSetFraudBlock edgeBlks;
              EvCheckAndSlash (flag, None)]
          ++ trace (elect fuel sw account key s'))).
Proof.
  unfold settle. unfold_m.
  destruct (write_extracted_run sw edgeBlks s)
    as (results & Hlen & Ho & _ & Htr).
  unfold_m.
  destruct (write_extracted sw edgeBlks s) as [[o s2] tr]. cbn in *.
  subst o tr. cbn.
  destruct (fraudResolver_CheckAndSlash _) as [[flag [e|]] e3]; cbn.
  - exists results, flag. split; [assumption|]. left. by exists e.
  - exists results, flag. split; [assumption|]. right.
    exists (mkState e3 (t_value s2)).
    by destruct (elect _ _ _ _ _) as [[o s4] elected].
Qed.

Lemma tick_elects (fuel : nat) (sw : SequencerWorker) (account : Account)
    (key : Key) (callIdx : CallIndex) (blk : SignedBlock) (s : State Env) :
  let extracted := block_FromAvail blk (availAppID sw) callIdx (env s) in
  Forall (fun ev => builder_event ev = false)
         (trace (tick fuel sw account key callIdx blk s)) \/
  (exists results flag s',
      length results = length extracted.1 /\
      trace (tick fuel sw account key callIdx blk s) =
        extraction sw blk extracted.1 extracted.2 results
        ++ [EvCheckAndSetFraudBlock extracted.1;
            EvCheckAndSlash (flag, None)]
        ++ trace (elect fuel sw account key s')).
Proof.
  cbn zeta. unfold tick. unfold_m. cbn.
  destruct (block_FromAvail _ _ _ _) as [edgeBlks err]. cbn.
  assert (Hgo : forall (s1 : State Env),
    Forall (fun ev => builder_event ev = false)
      (EvStore (wrap_int64 (BlockNumber blk))
       :: EvFromAvail blk (edgeBlks, err)
       :: (if (length edgeBlks =? 0)%nat && bool_decide (err ≠ None)
           then [EvLog LvlError extract_msg] else [])
       ++ trace (settle fuel sw account key edgeBlks s1)) \/
    (exists results flag s',
      length results = length edgeBlks /\
      EvStore (wrap_int64 (BlockNumber blk))
       :: EvFromAvail blk (edgeBlks, err)
       :: (if (length edgeBlks =? 0)%nat && bool_decide (err ≠ None)
           then [EvLog LvlError extract_msg] else [])
       ++ trace (settle fuel sw account key edgeBlks s1) =
      extraction sw blk edgeBlks err results
      ++ [EvCheckAndSetFraudBlock edgeBlks; EvCheckAndSlash (flag, None)]
      ++ trace (elect fuel sw account key s'))).
  { intros s1.
    destruct (settle_elects fuel sw account key edgeBlks s1)
      as (results & flag & Hlen & [(e & ->) | (s' & ->)]).
    - left. do 2 (constructor; [reflexivity|]).
      apply Forall_app_2; [destruct (_ && _); by repeat constructor|].
      apply Forall_app_2; [apply writes_quiet|by repeat constructor].
    - right. exists results, flag, s'. split; [assumption|].
      unfold extraction. cbn. by rewrite <- !app_assoc. }
  destruct ((length edgeBlks =? 0)%nat && bool_decide (err ≠ None)) eqn:Hc;
    cbn.
  - destruct (bool_decide (err ≠ Some ErrNoExtrinsicFound)); cbn.
    + left. by repeat constructor.
    + specialize (Hgo (mkState (env s) (wrap_int64 (BlockNumber blk)))).
      destruct (settle _ _ _ _ _ _) as [[o s2] tr].
      destruct o; exact Hgo.
  - specialize (Hgo (mkState (env s) (wrap_int64 (BlockNumber blk)))).
    destruct (settle _ _ _ _ _ _) as [[o s2] tr].
    destruct o; exact Hgo.
Qed.

End HeadFacts.

Section HeadTheorem.
Context {Env : Type} {C : Collaborators Env}.

(** X17.  A leader builds on the chain head it has just read.  In a tick
    the head is read at most once, after every block extracted from the
    DA block was written and [CheckAndSlash] succeeded, and before any
    step of block production.  The header then built has the hash of
    that head as parent hash and its number plus one, and the transition
    is begun on the state root of that head. *)
Theorem tick_builds_on_the_head_it_read
    (fuel : nat) (sw : SequencerWorker) (account : Account) (key : Key)
    (callIdx : CallIndex) (blk : SignedBlock) (s : State Env)
    (pre : list Event) (h : Header) (post : list Event) :
  let r := tick fuel sw account key callIdx blk s in
  let extracted := (block_FromAvail blk (availAppID sw) callIdx (env s)).1 in
  trace r = pre ++ EvHeader h :: post ->
  Forall (fun ev => builder_event ev = false) pre /\
  (forall b, In b extracted ->
             exists res, In (EvWriteBlock b (String (nodeType sw)) res) pre) /\
  (exists flag, In (EvCheckAndSlash (flag, None)) pre) /\
  (forall h', ~ In (EvHeader h') post) /\
  (forall hdr vs res,
      In (EvAssignExtraValidators hdr vs res) post ->
      ParentHash hdr = HeaderHash h /\
      Number hdr = wrap_uint64 (Number h + 1)) /\
  (forall root hdr coinbase res,
      In (EvBeginTxn root hdr coinbase res) post -> root = StateRoot h).
Proof.
  intros r extracted H.
  destruct (tick_elects fuel sw account key callIdx blk s)
    as [Hquiet|(results & flag & s' & Hlen & Htr)];
    fold r in Hquiet || fold r in Htr.
  { exfalso. apply (builder_not_In _ (EvHeader h) Hquiet eq_refl).
    rewrite H. apply List.in_elt. }
  cbn zeta in Hlen, Htr. fold extracted in Hlen, Htr.
  set (err := (block_FromAvail blk (availAppID sw) callIdx (env s)).2) in *.
  set (X := extraction sw blk extracted err results
            ++ [EvCheckAndSetFraudBlock extracted;
                EvCheckAndSlash (flag, None)]).
  assert (HX : Forall (fun ev => builder_event ev = false) X).
  { apply Forall_app_2; [apply extraction_quiet|by repeat constructor]. }
  rewrite Htr in H.
  change (extraction sw blk extracted err results
          ++ [EvCheckAndSetFraudBlock extracted; EvCheckAndSlash (flag, None)]
          ++ trace (elect fuel sw account key s'))
    with (extraction sw blk extracted err results
          ++ ([EvCheckAndSetFraudBlock extracted;
               EvCheckAndSlash (flag, None)]
              ++ trace (elect fuel sw account key s'))) in H.
  rewrite app_assoc in H. fold X in H.
  apply app_split_later in H as (pre' & -> & Hel);
    [|exact (builder_not_In X (EvHeader h) HX eq_refl)].
  apply elect_head in Hel as (Hpre' & s'' & tail & -> & Htail).
  pose proof (writeBlock_events fuel sw account key h s'') as Hev.
  pose proof (writeBlock_header_fields fuel sw account key h s'') as Hfields.
  pose proof (writeBlock_begin fuel sw account key h s'') as Hbegin.
  cbn zeta in Hfields, Hbegin.
  set (wb := trace (writeBlock fuel sw account key h s'')) in *.
  split_and!.
  - by apply Forall_app_2.
  - intros b Hb.
    destruct (writes_all (String (nodeType sw)) extracted results b Hlen Hb)
      as [res Hres].
    exists res. apply List.in_or_app. left. apply List.in_or_app. left.
    unfold extraction. right. right. apply List.in_or_app. by right.
  - exists flag. apply List.in_or_app. left. apply List.in_or_app. right.
    cbn. tauto.
  - intros h' [Hin|Hin]; [discriminate Hin|].
    apply List.in_app_or in Hin as [Hin|Hin].
    + exact (producer_not_In wb (EvHeader h') Hev eq_refl Hin).
    + exact (builder_not_In tail (EvHeader h') Htail eq_refl Hin).
  - intros hdr vs res [Hin|Hin]; [discriminate Hin|].
    apply List.in_app_or in Hin as [Hin|Hin].
    + destruct (Hfields hdr vs res Hin) as (H1 & H2 & _). by split.
    + exfalso.
      exact (builder_not_In tail (EvAssignExtraValidators hdr vs res)
               Htail eq_refl Hin).
  - intros root hdr coinbase res [Hin|Hin]; [discriminate Hin|].
    apply List.in_app_or in Hin as [Hin|Hin].
    + by destruct (Hbegin root hdr coinbase res Hin) as (H1 & _).
    + exfalso.
      exact (builder_not_In tail (EvBeginTxn root hdr coinbase res)
               Htail eq_refl Hin).
Qed.

End HeadTheorem.

(** ** The ways a run stops without returning *)

Section Stops.
Context {Env : Type} {C : Collaborators Env}.

Lemma ends_with_app (x : Event) (tr1 tr2 : list Event) :
  ends_with x tr2 -> ends_with x (tr1 ++ tr2).
Proof. intros [pre ->]. exists (tr1 ++ pre). by rewrite app_assoc. Qed.

Lemma abnormal_end_app {A} (o : Outcome A) (tr1 tr2 : list Event) :
  abnormal_end o tr2 -> abnormal_end o (tr1 ++ tr2).
Proof.
  destruct o as [a|msg| |]; cbn; try done.
  - intros [-> H]. split; [reflexivity|by apply ends_with_app].
  - intros [b H]. exists b. by apply ends_with_app.
Qed.















End Stops.


Section StopsFacts.
Context {Env : Type} {C : Collaborators Env}.








End StopsFacts.

(** ** The further properties on the scripted environment *)


Lemma MechanismExists_agrees_with_ParseType_witness :
  MechanismExists WatchTower = true /\
  ParseType (String WatchTower) = (WatchTower, None).
Proof.
  assert (H : MechanismExists WatchTower = true).
  { vm_compute. reflexivity. }
  split; [exact H|].
  exact (proj1 (proj1 (MechanismExists_agrees_with_ParseType WatchTower)) H).
Defined.

Lemma ParseMechanismConfigTypes_accepts_witness :
  Forall (fun m => MechanismExists m = true) [Sequencer; Validator] /\
  ParseMechanismConfigTypes
    (any_slice [any_string "sequencer"; any_string "validator"])
  = Done ([Sequencer; Validator], None).
Proof.
  assert (H : Forall (fun m => MechanismExists m = true)
                     [Sequencer; Validator]).
  { repeat constructor; vm_compute; reflexivity. }
  split; [exact H|].
  exact (proj2 (ParseMechanismConfigTypes_accepts
                  (any_slice [any_string "sequencer"; any_string "validator"])
                  [Sequencer; Validator])
           (conj eq_refl H)).
Defined.

Lemma ParseMechanismConfigTypes_rejects_witness :
  MechanismExists "miner" = false /\
  ParseMechanismConfigTypes
    (any_slice [any_string "sequencer"; any_string "miner"; any_int 3])
  = Done ([], Some (errorString "invalid avail mechanism type miner")).
Proof.
  assert (Hbad : MechanismExists "miner" = false).
  { vm_compute. reflexivity. }
  assert (Hgood : Forall (fun m => MechanismExists m = true) [Sequencer]).
  { repeat constructor; vm_compute; reflexivity. }
  assert (Herr : (ParseType "miner").2
                 = Some (errorString "invalid avail mechanism type miner")).
  { vm_compute. reflexivity. }
  split; [exact Hbad|].
  apply (proj2 (ParseMechanismConfigTypes_rejects
                  (any_slice [any_string "sequencer"; any_string "miner";
                              any_int 3])
                  [] (errorString "invalid avail mechanism type miner"))).
  exists [Sequencer], "miner", [any_int 3].
  split_and!; try reflexivity; assumption.
Defined.

Lemma ParseMechanismConfigTypes_panics_witness :
  ParseMechanismConfigTypes any_nil
  = Panic "interface conversion: interface {} is nil, not []interface {}" /\
  ParseMechanismConfigTypes
    (any_slice [any_string "validator"; any_int 3; any_string "miner"])
  = Panic "interface conversion: interface {} is int, not string".
Proof.
  assert (Hgood : Forall (fun m => MechanismExists m = true) [Validator]).
  { repeat constructor; vm_compute; reflexivity. }
  split.
  - apply (proj2 (ParseMechanismConfigTypes_panics any_nil
                    (interface_conversion any_nil "[]interface {}"))).
    left. split; [intros mi H; discriminate H|reflexivity].
  - apply (proj2 (ParseMechanismConfigTypes_panics
                    (any_slice [any_string "validator"; any_int 3;
                                any_string "miner"])
                    (interface_conversion (any_int 3) "string"))).
    right. exists [Validator], (any_int 3), [any_string "miner"].
    split_and!; try reflexivity; [assumption|intros s H; discriminate H].
Defined.

Lemma Run_closes_the_stream_it_opened_witness :
  let r := Fake.ran Fake.calm [RecvBlock (mkSignedBlock 7 []); RecvClose] in
  In EvNewBlockStream (trace r) /\
  outcome r = Done (Some None) /\
  In EvStreamClose (trace r) /\
  exists pre, trace r = pre ++ [EvStreamClose] /\ ~ In EvStreamClose pre.
Proof.
  cbv zeta.
  assert (Hopen : In EvNewBlockStream
            (trace (Fake.ran Fake.calm
                      [RecvBlock (mkSignedBlock 7 []); RecvClose]))).
  { vm_compute. do 4 right. left. reflexivity. }
  assert (Hout : outcome (Fake.ran Fake.calm
                            [RecvBlock (mkSignedBlock 7 []); RecvClose])
                 = Done (Some None)).
  { vm_compute. reflexivity. }
  pose proof (@Run_closes_the_stream_it_opened Fake.World Fake.collaborators
                10%nat Fake.sw Fake.account Fake.key
                [RecvBlock (mkSignedBlock 7 []); RecvClose]
                (Fake.start Fake.calm)) as (Hiff & Hlast & _).
  assert (Hclose : In EvStreamClose
            (trace (Fake.ran Fake.calm
                      [RecvBlock (mkSignedBlock 7 []); RecvClose]))).
  { apply (proj2 Hiff). split; [exact Hopen|]. left. by exists None. }
  split; [exact Hopen|]. split; [exact Hout|]. split; [exact Hclose|].
  exact (Hlast Hclose).
Defined.


Lemma Run_returns_on_close_only_witness :
  let sched := [RecvBlock (mkSignedBlock 7 []); RecvClose;
                RecvBlock (mkSignedBlock 8 [])] in
  let r := Fake.ran Fake.calm sched in
  In (EvUnStake None) (trace r) /\
  In RecvClose sched /\ outcome r = Done (Some None) /\
  exists pre,
    trace r = pre ++ EvUnStake None :: unstake_log None ++ [EvStreamClose] /\
    forall res', ~ In (EvUnStake res') pre.
Proof.
  cbv zeta.
  assert (Hin : In (EvUnStake None)
            (trace (Fake.ran Fake.calm
                      [RecvBlock (mkSignedBlock 7 []); RecvClose;
                       RecvBlock (mkSignedBlock 8 [])]))).
  { vm_compute. repeat first [left; reflexivity | right]. }
  split; [exact Hin|].
  exact (proj1 (@Run_returns_on_close_only Fake.World Fake.collaborators
                  10%nat Fake.sw Fake.account Fake.key
                  [RecvBlock (mkSignedBlock 7 []); RecvClose;
                   RecvBlock (mkSignedBlock 8 [])] (Fake.start Fake.calm))
           None Hin).
Defined.

Lemma Run_handles_blocks_in_order_witness :
  let sched := [RecvBlock (mkSignedBlock 7 []);
                RecvBlock (mkSignedBlock 8 []); RecvClose;
                RecvBlock (mkSignedBlock 9 [])] in
  let r := Fake.ran Fake.partial sched in
  In EvNewBlockStream (trace r) /\
  (exists x, outcome r = Done x) /\
  delivered sched = [mkSignedBlock 7 []; mkSignedBlock 8 []] /\
  extracted_from (trace r) = delivered sched.
Proof.
  cbv zeta.
  assert (Hopen : In EvNewBlockStream
            (trace (Fake.ran Fake.partial
                      [RecvBlock (mkSignedBlock 7 []);
                       RecvBlock (mkSignedBlock 8 []); RecvClose;
                       RecvBlock (mkSignedBlock 9 [])]))).
  { vm_compute. do 4 right. left. reflexivity. }
  assert (Hdone : exists x,
            outcome (Fake.ran Fake.partial
                       [RecvBlock (mkSignedBlock 7 []);
                        RecvBlock (mkSignedBlock 8 []); RecvClose;
                        RecvBlock (mkSignedBlock 9 [])]) = Done x).
  { vm_compute. eexists. reflexivity. }
  split; [exact Hopen|]. split; [exact Hdone|]. split; [reflexivity|].
  exact (proj2 (@Run_handles_blocks_in_order Fake.World Fake.collaborators
                  10%nat Fake.sw Fake.account Fake.key
                  [RecvBlock (mkSignedBlock 7 []);
                   RecvBlock (mkSignedBlock 8 []); RecvClose;
                   RecvBlock (mkSignedBlock 9 [])] (Fake.start Fake.partial))
           Hopen Hdone).
Defined.

Lemma NewSequencer_drops_closeCh_witness :
  let built :=
    NewSequencer 1 [] Fake.A Sequencer (chan_made 0) (2 * time.Second) in
  let sched :=
    [RecvBlock (mkSignedBlock 7 []); RecvBlock (mkSignedBlock 8 [])] in
  let r := Run 10 (worker built.1) Fake.account Fake.key sched
               (Fake.start Fake.calm) in
  deliverable (closeCh built.1) sched /\
  built.2 = None /\
  closeCh built.1 = chan_nil /\
  (forall res, ~ In (EvUnStake res) (trace r)) /\
  outcome r <> Done (Some None) /\
  (forall e, outcome r = Done (Some (Some e)) ->
             ~ In EvNewBlockStream (trace r)).
Proof.
  cbv zeta.
  assert (Hs : deliverable
                 (closeCh (NewSequencer 1 [] Fake.A Sequencer (chan_made 0)
                             (2 * time.Second)).1)
                 [RecvBlock (mkSignedBlock 7 []);
                  RecvBlock (mkSignedBlock 8 [])]).
  { intros _ [H|[H|[]]]; discriminate H. }
  split; [exact Hs|].
  exact (@NewSequencer_drops_closeCh Fake.World Fake.collaborators
           1 [] Fake.A Sequencer (chan_made 0) (2 * time.Second) 10%nat
           Fake.account Fake.key
           [RecvBlock (mkSignedBlock 7 []); RecvBlock (mkSignedBlock 8 [])]
           (Fake.start Fake.calm) Hs).
Defined.

Lemma writeTransactions_returns_the_popped_witness :
  outcome (Fake.selected 10) = Done [Fake.tx 0 50] /\
  [Fake.tx 0 50] = popped (trace (Fake.selected 10)).
Proof.
  assert (Hout : outcome (Fake.selected 10) = Done [Fake.tx 0 50]).
  { vm_compute. reflexivity. }
  split; [exact Hout|].
  exact (proj1 (@writeTransactions_returns_the_popped Fake.World
                  Fake.collaborators unit Fake.transitions 10%nat 100 tt
                  (Fake.start Fake.calm))
           [Fake.tx 0 50] Hout).
Defined.

Lemma selector_removals_are_justified_witness :
  exists pre post,
    trace (Fake.selected 10) = pre ++ EvPop (Fake.tx 0 50) :: post /\
    justified 100 pre (EvPop (Fake.tx 0 50)).
Proof.
  assert (Hsplit :
    trace (Fake.selected 10) =
    firstn 4 (trace (Fake.selected 10))
    ++ EvPop (Fake.tx 0 50) :: skipn 5 (trace (Fake.selected 10))).
  { vm_compute. reflexivity. }
  exists (firstn 4 (trace (Fake.selected 10))),
         (skipn 5 (trace (Fake.selected 10))).
  split; [exact Hsplit|].
  exact (proj2 (@selector_removals_are_justified Fake.World
                  Fake.collaborators unit Fake.transitions 10%nat 100 tt
                  (Fake.start Fake.calm))
           _ _ _ Hsplit).
Defined.

Lemma Fake_Peek_offers (e : Fake.World) (tx : Transaction) (e' : Fake.World) :
  txpool_Peek e = (Some tx, e') ->
  List.head (Fake.pool e') = Some tx /\
  (length (Fake.pool e') <= length (Fake.pool e))%nat.
Proof. cbn. intros H. injection H as H <-. by split. Qed.

Lemma Fake_Write_keeps (transition : unit) (tx : Transaction)
    (e : Fake.World) (res : option error) (e' : Fake.World) :
  @Write Fake.World unit Fake.transitions transition tx e = (res, e') ->
  List.head (Fake.pool e) = Some tx ->
  List.head (Fake.pool e') = Some tx /\
  (length (Fake.pool e') <= length (Fake.pool e))%nat.
Proof.
  cbn. unfold Fake.Write.
  destruct (Fake.execution_failure e tx);
    [|destruct (Fake.gas_pool e <? Gas tx)];
    intros H; injection H as _ <-; by split.
Qed.

Lemma Fake_removal_shrinks (tx : Transaction) (l : list Transaction) :
  List.head l = Some tx -> (length (Fake.remove tx l) < length l)%nat.
Proof.
  destruct l as [|tx' rest]; [discriminate|]. cbn [List.head].
  intros H. injection H as ->.
  pose proof (remove_head_length tx rest). cbn [length]. lia.
Qed.

Lemma selector_returns_on_shrinking_pool_witness :
  (length (Fake.pool (txpool_Prepare (env (Fake.start Fake.calm)))) < 10)%nat
  /\
  exists included,
    outcome (Fake.selected 10) = Done included /\
    included = popped (trace (Fake.selected 10)).
Proof.
  assert (Hfuel :
    (length (Fake.pool (txpool_Prepare (env (Fake.start Fake.calm))))
     < 10)%nat).
  { vm_compute. lia. }
  split; [exact Hfuel|].
  exact (@selector_returns_on_shrinking_pool Fake.World Fake.collaborators
           unit Fake.transitions
           (fun w => length (Fake.pool w))
           (fun tx w => List.head (Fake.pool w) = Some tx)
           Fake_Peek_offers Fake_Write_keeps
           (fun tx e H => Fake_removal_shrinks tx (Fake.pool e) H)
           (fun tx e H => Fake_removal_shrinks tx (Fake.pool e) H)
           (fun tx e H => Fake_removal_shrinks tx (Fake.pool e) H)
           10%nat 100 tt (Fake.start Fake.calm) Hfuel).
Defined.

Lemma writeBlock_builds_the_header_witness :
  exists h vs res,
    In (EvAssignExtraValidators h vs res)
       (trace (Fake.produced Fake.sw Fake.calm)) /\
    ParentHash h = HeaderHash Fake.genesis /\
    Number h = 1 /\
    GasLimit h = 100 /\
    vs = [Fake.A] /\
    In (EvCalculateGasLimit (Number h) (GasLimit h, None))
       (trace (Fake.produced Fake.sw Fake.calm)).
Proof.
  assert (Hin : exists h vs res,
            In (EvAssignExtraValidators h vs res)
               (trace (Fake.produced Fake.sw Fake.calm)) /\
            Number h = 1 /\ GasLimit h = 100 /\ vs = [Fake.A]).
  { vm_compute. do 3 eexists. split.
    - do 3 right. left. reflexivity.
    - split_and!; reflexivity. }
  destruct Hin as (h & vs & res & Hin & Hn & Hg & Hvs).
  destruct (proj1 (@writeBlock_builds_the_header Fake.World
                     Fake.collaborators 10%nat Fake.sw Fake.account Fake.key
                     Fake.genesis (Fake.start Fake.calm))
              h vs res Hin)
    as (Hp & _ & _ & _ & _ & _ & _ & _ & _ & Hcalc).
  exists h, vs, res. by split_and!.
Defined.

Lemma writeBlock_builds_the_block_witness :
  exists b,
    In (EvBuildBlock b) (trace (Fake.produced Fake.sw Fake.calm)) /\
    Transactions b = [Fake.tx 0 50] /\
    exists h vs extended root used receipts,
      b = consensus_BuildBlock
            (set_GasUsed used (set_StateRoot root extended))
            (popped (trace (Fake.produced Fake.sw Fake.calm))) receipts /\
      In (EvAssignExtraValidators h vs (extended, None))
         (trace (Fake.produced Fake.sw Fake.calm)) /\
      In (EvCommit root) (trace (Fake.produced Fake.sw Fake.calm)) /\
      Forall (fun tx => Gas tx <= GasLimit h)
             (popped (trace (Fake.produced Fake.sw Fake.calm))).
Proof.
  assert (Hin : exists b,
            In (EvBuildBlock b) (trace (Fake.produced Fake.sw Fake.calm)) /\
            Transactions b = [Fake.tx 0 50]).
  { vm_compute. eexists. split.
    - do 15 right. left. reflexivity.
    - reflexivity. }
  destruct Hin as (b & Hin & Htxs).
  exists b. split; [exact Hin|]. split; [exact Htxs|].
  exact (proj1 (@writeBlock_builds_the_block Fake.World Fake.collaborators
                  10%nat Fake.sw Fake.account Fake.key Fake.genesis
                  (Fake.start Fake.calm))
           b Hin).
Defined.

Lemma writeBlock_submits_the_sealed_block_witness :
  exists b status res,
    In (EvSendAndWaitForStatus b status res)
       (trace (Fake.produced Fake.sw Fake.calm)) /\
    status = InBlock /\
    exists built sealed,
      b = mkBlock (Header_ComputeHash sealed) (Transactions built) /\
      In (EvBuildBlock built) (trace (Fake.produced Fake.sw Fake.calm)) /\
      In (EvWriteSeal (BlockHeader built) (sealed, None))
         (trace (Fake.produced Fake.sw Fake.calm)).
Proof.
  assert (Hin : exists b status res,
            In (EvSendAndWaitForStatus b status res)
               (trace (Fake.produced Fake.sw Fake.calm))).
  { vm_compute. do 3 eexists. do 18 right. left. reflexivity. }
  destruct Hin as (b & status & res & Hin).
  exists b, status, res. split; [exact Hin|].
  exact (@writeBlock_submits_the_sealed_block Fake.World Fake.collaborators
           10%nat Fake.sw Fake.account Fake.key Fake.genesis
           (Fake.start Fake.calm) b status res Hin).
Defined.

Lemma tick_builds_on_the_head_it_read_witness :
  exists pre post,
    trace (Fake.ticked Fake.calm) = pre ++ EvHeader Fake.genesis :: post /\
    Forall (fun ev => builder_event ev = false) pre /\
    (forall b, In b [] ->
               exists res,
                 In (EvWriteBlock b (String (nodeType Fake.sw)) res) pre) /\
    (exists flag, In (EvCheckAndSlash (flag, None)) pre) /\
    (forall h', ~ In (EvHeader h') post) /\
    (forall hdr vs res,
        In (EvAssignExtraValidators hdr vs res) post ->
        ParentHash hdr = HeaderHash Fake.genesis /\
        Number hdr = wrap_uint64 (Number Fake.genesis + 1)) /\
    (forall root hdr coinbase res,
        In (EvBeginTxn root hdr coinbase res) post ->
        root = StateRoot Fake.genesis).
Proof.
  assert (Hsplit :
    trace (Fake.ticked Fake.calm) =
    firstn 7 (trace (Fake.ticked Fake.calm))
    ++ EvHeader Fake.genesis :: skipn 8 (trace (Fake.ticked Fake.calm))).
  { vm_compute. reflexivity. }
  exists (firstn 7 (trace (Fake.ticked Fake.calm))),
         (skipn 8 (trace (Fake.ticked Fake.calm))).
  split; [exact Hsplit|].
  exact (@tick_builds_on_the_head_it_read Fake.World Fake.collaborators
           10%nat Fake.sw Fake.account Fake.key Fake.callIdx
           (mkSignedBlock 7 []) (Fake.start Fake.calm)
           (firstn 7 (trace (Fake.ticked Fake.calm))) Fake.genesis
           (skipn 8 (trace (Fake.ticked Fake.calm))) Hsplit).
Defined.

